(** * Credit-card statement parser ([app.py]): model and verification

    The development follows the program leaf first:
    - [Unicode]: the character classes and case mappings the Python runtime
      (CPython 3.11, Unicode 14.0) gives to [str.isspace], [\s], [\d], [\w],
      [str.lower] and to case-insensitive matching;
    - [Re]: the fragment of Python's [re] module the program's patterns are
      written in, as a backtracking matcher that lists the ways a pattern can
      match in the order the engine tries them;
    - the program itself: [normalize_spaces], [try_parse_date],
      [find_first_regex], [detect_issuer], the six field extractors and
      [parse_statement];
    - the properties of the specification, one theorem each.

    A Python [str] is a sequence of Unicode code points, so a text is a list
    of code points here.  The two third-party collaborators, [dateutil]'s
    date parser and [pdfplumber]'s text extraction, are parameters. *)

From Stdlib Require Import NArith List Bool String Ascii Arith Lia.
Import ListNotations.

(** ** Python strings and call outcomes *)

(** A code point, and a [str]. *)
Definition char := N.
Definition str := list char.

(** The [str] a string literal of the source denotes (the source's literals
    are ASCII, one code point per character). *)
Definition lit (s : string) : str := map N_of_ascii (list_ascii_of_string s).

(** Exceptions deriving from Python's [Exception]. *)
Inductive exn : Type :=
| AttributeError
| ValueError
| OverflowError
| OtherError (name : string).

(** What a call does: it returns a value or raises. *)
Inductive outcome (A : Type) : Type :=
| Returns (a : A)
| Raises (e : exn).
Arguments Returns {A} a.
Arguments Raises {A} e.

Definition bind {A B : Type} (m : outcome A) (f : A -> outcome B) : outcome B :=
  match m with
  | Returns a => f a
  | Raises e => Raises e
  end.

Notation "x <- m ;; k" := (bind m (fun x => k))
  (at level 61, m at next level, right associativity).

(** ** The runtime's Unicode tables *)

Module Unicode.

Local Open Scope N_scope.

(** Code points for which [str.isspace] holds; the class behind [\s] and [str.strip]. *)
Definition space_ranges : list (N * N) :=
[ (0x9,0xD); (0x1C,0x20); (0x85,0x85); (0xA0,0xA0); (0x1680,0x1680); (0x2000,0x200A);
  (0x2028,0x2029); (0x202F,0x202F); (0x205F,0x205F); (0x3000,0x3000) ].

(** Code points of category Nd ([str.isdecimal]); the class behind [\d]. *)
Definition decimal_ranges : list (N * N) :=
[ (0x30,0x39); (0x660,0x669); (0x6F0,0x6F9); (0x7C0,0x7C9); (0x966,0x96F); (0x9E6,0x9EF);
  (0xA66,0xA6F); (0xAE6,0xAEF); (0xB66,0xB6F); (0xBE6,0xBEF); (0xC66,0xC6F); (0xCE6,0xCEF);
  (0xD66,0xD6F); (0xDE6,0xDEF); (0xE50,0xE59); (0xED0,0xED9); (0xF20,0xF29); (0x1040,0x1049);
  (0x1090,0x1099); (0x17E0,0x17E9); (0x1810,0x1819); (0x1946,0x194F); (0x19D0,0x19D9); (0x1A80,0x1A89);
  (0x1A90,0x1A99); (0x1B50,0x1B59); (0x1BB0,0x1BB9); (0x1C40,0x1C49); (0x1C50,0x1C59); (0xA620,0xA629);
  (0xA8D0,0xA8D9); (0xA900,0xA909); (0xA9D0,0xA9D9); (0xA9F0,0xA9F9); (0xAA50,0xAA59); (0xABF0,0xABF9);
  (0xFF10,0xFF19); (0x104A0,0x104A9); (0x10D30,0x10D39); (0x11066,0x1106F); (0x110F0,0x110F9); (0x11136,0x1113F);
  (0x111D0,0x111D9); (0x112F0,0x112F9); (0x11450,0x11459); (0x114D0,0x114D9); (0x11650,0x11659); (0x116C0,0x116C9);
  (0x11730,0x11739); (0x118E0,0x118E9); (0x11950,0x11959); (0x11C50,0x11C59); (0x11D50,0x11D59); (0x11DA0,0x11DA9);
  (0x16A60,0x16A69); (0x16AC0,0x16AC9); (0x16B50,0x16B59); (0x1D7CE,0x1D7FF); (0x1E140,0x1E149); (0x1E2F0,0x1E2F9);
  (0x1E950,0x1E959); (0x1FBF0,0x1FBF9) ].

(** Code points for which [str.isalnum] holds; with the underscore, the class behind [\w]. *)
Definition alnum_ranges : list (N * N) :=
[ (0x30,0x39); (0x41,0x5A); (0x61,0x7A); (0xAA,0xAA); (0xB2,0xB3); (0xB5,0xB5);
  (0xB9,0xBA); (0xBC,0xBE); (0xC0,0xD6); (0xD8,0xF6); (0xF8,0x2C1); (0x2C6,0x2D1);
  (0x2E0,0x2E4); (0x2EC,0x2EC); (0x2EE,0x2EE); (0x370,0x374); (0x376,0x377); (0x37A,0x37D);
  (0x37F,0x37F); (0x386,0x386); (0x388,0x38A); (0x38C,0x38C); (0x38E,0x3A1); (0x3A3,0x3F5);
  (0x3F7,0x481); (0x48A,0x52F); (0x531,0x556); (0x559,0x559); (0x560,0x588); (0x5D0,0x5EA);
  (0x5EF,0x5F2); (0x620,0x64A); (0x660,0x669); (0x66E,0x66F); (0x671,0x6D3); (0x6D5,0x6D5);
  (0x6E5,0x6E6); (0x6EE,0x6FC); (0x6FF,0x6FF); (0x710,0x710); (0x712,0x72F); (0x74D,0x7A5);
  (0x7B1,0x7B1); (0x7C0,0x7EA); (0x7F4,0x7F5); (0x7FA,0x7FA); (0x800,0x815); (0x81A,0x81A);
  (0x824,0x824); (0x828,0x828); (0x840,0x858); (0x860,0x86A); (0x870,0x887); (0x889,0x88E);
  (0x8A0,0x8C9); (0x904,0x939); (0x93D,0x93D); (0x950,0x950); (0x958,0x961); (0x966,0x96F);
  (0x971,0x980); (0x985,0x98C); (0x98F,0x990); (0x993,0x9A8); (0x9AA,0x9B0); (0x9B2,0x9B2);
  (0x9B6,0x9B9); (0x9BD,0x9BD); (0x9CE,0x9CE); (0x9DC,0x9DD); (0x9DF,0x9E1); (0x9E6,0x9F1);
  (0x9F4,0x9F9); (0x9FC,0x9FC); (0xA05,0xA0A); (0xA0F,0xA10); (0xA13,0xA28); (0xA2A,0xA30);
  (0xA32,0xA33); (0xA35,0xA36); (0xA38,0xA39); (0xA59,0xA5C); (0xA5E,0xA5E); (0xA66,0xA6F);
  (0xA72,0xA74); (0xA85,0xA8D); (0xA8F,0xA91); (0xA93,0xAA8); (0xAAA,0xAB0); (0xAB2,0xAB3);
  (0xAB5,0xAB9); (0xABD,0xABD); (0xAD0,0xAD0); (0xAE0,0xAE1); (0xAE6,0xAEF); (0xAF9,0xAF9);
  (0xB05,0xB0C); (0xB0F,0xB10); (0xB13,0xB28); (0xB2A,0xB30); (0xB32,0xB33); (0xB35,0xB39);
  (0xB3D,0xB3D); (0xB5C,0xB5D); (0xB5F,0xB61); (0xB66,0xB6F); (0xB71,0xB77); (0xB83,0xB83);
  (0xB85,0xB8A); (0xB8E,0xB90); (0xB92,0xB95); (0xB99,0xB9A); (0xB9C,0xB9C); (0xB9E,0xB9F);
  (0xBA3,0xBA4); (0xBA8,0xBAA); (0xBAE,0xBB9); (0xBD0,0xBD0); (0xBE6,0xBF2); (0xC05,0xC0C);
  (0xC0E,0xC10); (0xC12,0xC28); (0xC2A,0xC39); (0xC3D,0xC3D); (0xC58,0xC5A); (0xC5D,0xC5D);
  (0xC60,0xC61); (0xC66,0xC6F); (0xC78,0xC7E); (0xC80,0xC80); (0xC85,0xC8C); (0xC8E,0xC90);
  (0xC92,0xCA8); (0xCAA,0xCB3); (0xCB5,0xCB9); (0xCBD,0xCBD); (0xCDD,0xCDE); (0xCE0,0xCE1);
  (0xCE6,0xCEF); (0xCF1,0xCF2); (0xD04,0xD0C); (0xD0E,0xD10); (0xD12,0xD3A); (0xD3D,0xD3D);
  (0xD4E,0xD4E); (0xD54,0xD56); (0xD58,0xD61); (0xD66,0xD78); (0xD7A,0xD7F); (0xD85,0xD96);
  (0xD9A,0xDB1); (0xDB3,0xDBB); (0xDBD,0xDBD); (0xDC0,0xDC6); (0xDE6,0xDEF); (0xE01,0xE30);
  (0xE32,0xE33); (0xE40,0xE46); (0xE50,0xE59); (0xE81,0xE82); (0xE84,0xE84); (0xE86,0xE8A);
  (0xE8C,0xEA3); (0xEA5,0xEA5); (0xEA7,0xEB0); (0xEB2,0xEB3); (0xEBD,0xEBD); (0xEC0,0xEC4);
  (0xEC6,0xEC6); (0xED0,0xED9); (0xEDC,0xEDF); (0xF00,0xF00); (0xF20,0xF33); (0xF40,0xF47);
  (0xF49,0xF6C); (0xF88,0xF8C); (0x1000,0x102A); (0x103F,0x1049); (0x1050,0x1055); (0x105A,0x105D);
  (0x1061,0x1061); (0x1065,0x1066); (0x106E,0x1070); (0x1075,0x1081); (0x108E,0x108E); (0x1090,0x1099);
  (0x10A0,0x10C5); (0x10C7,0x10C7); (0x10CD,0x10CD); (0x10D0,0x10FA); (0x10FC,0x1248); (0x124A,0x124D);
  (0x1250,0x1256); (0x1258,0x1258); (0x125A,0x125D); (0x1260,0x1288); (0x128A,0x128D); (0x1290,0x12B0);
  (0x12B2,0x12B5); (0x12B8,0x12BE); (0x12C0,0x12C0); (0x12C2,0x12C5); (0x12C8,0x12D6); (0x12D8,0x1310);
  (0x1312,0x1315); (0x1318,0x135A); (0x1369,0x137C); (0x1380,0x138F); (0x13A0,0x13F5); (0x13F8,0x13FD);
  (0x1401,0x166C); (0x166F,0x167F); (0x1681,0x169A); (0x16A0,0x16EA); (0x16EE,0x16F8); (0x1700,0x1711);
  (0x171F,0x1731); (0x1740,0x1751); (0x1760,0x176C); (0x176E,0x1770); (0x1780,0x17B3); (0x17D7,0x17D7);
  (0x17DC,0x17DC); (0x17E0,0x17E9); (0x17F0,0x17F9); (0x1810,0x1819); (0x1820,0x1878); (0x1880,0x1884);
  (0x1887,0x18A8); (0x18AA,0x18AA); (0x18B0,0x18F5); (0x1900,0x191E); (0x1946,0x196D); (0x1970,0x1974);
  (0x1980,0x19AB); (0x19B0,0x19C9); (0x19D0,0x19DA); (0x1A00,0x1A16); (0x1A20,0x1A54); (0x1A80,0x1A89);
  (0x1A90,0x1A99); (0x1AA7,0x1AA7); (0x1B05,0x1B33); (0x1B45,0x1B4C); (0x1B50,0x1B59); (0x1B83,0x1BA0);
  (0x1BAE,0x1BE5); (0x1C00,0x1C23); (0x1C40,0x1C49); (0x1C4D,0x1C7D); (0x1C80,0x1C88); (0x1C90,0x1CBA);
  (0x1CBD,0x1CBF); (0x1CE9,0x1CEC); (0x1CEE,0x1CF3); (0x1CF5,0x1CF6); (0x1CFA,0x1CFA); (0x1D00,0x1DBF);
  (0x1E00,0x1F15); (0x1F18,0x1F1D); (0x1F20,0x1F45); (0x1F48,0x1F4D); (0x1F50,0x1F57); (0x1F59,0x1F59);
  (0x1F5B,0x1F5B); (0x1F5D,0x1F5D); (0x1F5F,0x1F7D); (0x1F80,0x1FB4); (0x1FB6,0x1FBC); (0x1FBE,0x1FBE);
  (0x1FC2,0x1FC4); (0x1FC6,0x1FCC); (0x1FD0,0x1FD3); (0x1FD6,0x1FDB); (0x1FE0,0x1FEC); (0x1FF2,0x1FF4);
  (0x1FF6,0x1FFC); (0x2070,0x2071); (0x2074,0x2079); (0x207F,0x2089); (0x2090,0x209C); (0x2102,0x2102);
  (0x2107,0x2107); (0x210A,0x2113); (0x2115,0x2115); (0x2119,0x211D); (0x2124,0x2124); (0x2126,0x2126);
  (0x2128,0x2128); (0x212A,0x212D); (0x212F,0x2139); (0x213C,0x213F); (0x2145,0x2149); (0x214E,0x214E);
  (0x2150,0x2189); (0x2460,0x249B); (0x24EA,0x24FF); (0x2776,0x2793); (0x2C00,0x2CE4); (0x2CEB,0x2CEE);
  (0x2CF2,0x2CF3); (0x2CFD,0x2CFD); (0x2D00,0x2D25); (0x2D27,0x2D27); (0x2D2D,0x2D2D); (0x2D30,0x2D67);
  (0x2D6F,0x2D6F); (0x2D80,0x2D96); (0x2DA0,0x2DA6); (0x2DA8,0x2DAE); (0x2DB0,0x2DB6); (0x2DB8,0x2DBE);
  (0x2DC0,0x2DC6); (0x2DC8,0x2DCE); (0x2DD0,0x2DD6); (0x2DD8,0x2DDE); (0x2E2F,0x2E2F); (0x3005,0x3007);
  (0x3021,0x3029); (0x3031,0x3035); (0x3038,0x303C); (0x3041,0x3096); (0x309D,0x309F); (0x30A1,0x30FA);
  (0x30FC,0x30FF); (0x3105,0x312F); (0x3131,0x318E); (0x3192,0x3195); (0x31A0,0x31BF); (0x31F0,0x31FF);
  (0x3220,0x3229); (0x3248,0x324F); (0x3251,0x325F); (0x3280,0x3289); (0x32B1,0x32BF); (0x3400,0x4DBF);
  (0x4E00,0xA48C); (0xA4D0,0xA4FD); (0xA500,0xA60C); (0xA610,0xA62B); (0xA640,0xA66E); (0xA67F,0xA69D);
  (0xA6A0,0xA6EF); (0xA717,0xA71F); (0xA722,0xA788); (0xA78B,0xA7CA); (0xA7D0,0xA7D1); (0xA7D3,0xA7D3);
  (0xA7D5,0xA7D9); (0xA7F2,0xA801); (0xA803,0xA805); (0xA807,0xA80A); (0xA80C,0xA822); (0xA830,0xA835);
  (0xA840,0xA873); (0xA882,0xA8B3); (0xA8D0,0xA8D9); (0xA8F2,0xA8F7); (0xA8FB,0xA8FB); (0xA8FD,0xA8FE);
  (0xA900,0xA925); (0xA930,0xA946); (0xA960,0xA97C); (0xA984,0xA9B2); (0xA9CF,0xA9D9); (0xA9E0,0xA9E4);
  (0xA9E6,0xA9FE); (0xAA00,0xAA28); (0xAA40,0xAA42); (0xAA44,0xAA4B); (0xAA50,0xAA59); (0xAA60,0xAA76);
  (0xAA7A,0xAA7A); (0xAA7E,0xAAAF); (0xAAB1,0xAAB1); (0xAAB5,0xAAB6); (0xAAB9,0xAABD); (0xAAC0,0xAAC0);
  (0xAAC2,0xAAC2); (0xAADB,0xAADD); (0xAAE0,0xAAEA); (0xAAF2,0xAAF4); (0xAB01,0xAB06); (0xAB09,0xAB0E);
  (0xAB11,0xAB16); (0xAB20,0xAB26); (0xAB28,0xAB2E); (0xAB30,0xAB5A); (0xAB5C,0xAB69); (0xAB70,0xABE2);
  (0xABF0,0xABF9); (0xAC00,0xD7A3); (0xD7B0,0xD7C6); (0xD7CB,0xD7FB); (0xF900,0xFA6D); (0xFA70,0xFAD9);
  (0xFB00,0xFB06); (0xFB13,0xFB17); (0xFB1D,0xFB1D); (0xFB1F,0xFB28); (0xFB2A,0xFB36); (0xFB38,0xFB3C);
  (0xFB3E,0xFB3E); (0xFB40,0xFB41); (0xFB43,0xFB44); (0xFB46,0xFBB1); (0xFBD3,0xFD3D); (0xFD50,0xFD8F);
  (0xFD92,0xFDC7); (0xFDF0,0xFDFB); (0xFE70,0xFE74); (0xFE76,0xFEFC); (0xFF10,0xFF19); (0xFF21,0xFF3A);
  (0xFF41,0xFF5A); (0xFF66,0xFFBE); (0xFFC2,0xFFC7); (0xFFCA,0xFFCF); (0xFFD2,0xFFD7); (0xFFDA,0xFFDC);
  (0x10000,0x1000B); (0x1000D,0x10026); (0x10028,0x1003A); (0x1003C,0x1003D); (0x1003F,0x1004D); (0x10050,0x1005D);
  (0x10080,0x100FA); (0x10107,0x10133); (0x10140,0x10178); (0x1018A,0x1018B); (0x10280,0x1029C); (0x102A0,0x102D0);
  (0x102E1,0x102FB); (0x10300,0x10323); (0x1032D,0x1034A); (0x10350,0x10375); (0x10380,0x1039D); (0x103A0,0x103C3);
  (0x103C8,0x103CF); (0x103D1,0x103D5); (0x10400,0x1049D); (0x104A0,0x104A9); (0x104B0,0x104D3); (0x104D8,0x104FB);
  (0x10500,0x10527); (0x10530,0x10563); (0x10570,0x1057A); (0x1057C,0x1058A); (0x1058C,0x10592); (0x10594,0x10595);
  (0x10597,0x105A1); (0x105A3,0x105B1); (0x105B3,0x105B9); (0x105BB,0x105BC); (0x10600,0x10736); (0x10740,0x10755);
  (0x10760,0x10767); (0x10780,0x10785); (0x10787,0x107B0); (0x107B2,0x107BA); (0x10800,0x10805); (0x10808,0x10808);
  (0x1080A,0x10835); (0x10837,0x10838); (0x1083C,0x1083C); (0x1083F,0x10855); (0x10858,0x10876); (0x10879,0x1089E);
  (0x108A7,0x108AF); (0x108E0,0x108F2); (0x108F4,0x108F5); (0x108FB,0x1091B); (0x10920,0x10939); (0x10980,0x109B7);
  (0x109BC,0x109CF); (0x109D2,0x10A00); (0x10A10,0x10A13); (0x10A15,0x10A17); (0x10A19,0x10A35); (0x10A40,0x10A48);
  (0x10A60,0x10A7E); (0x10A80,0x10A9F); (0x10AC0,0x10AC7); (0x10AC9,0x10AE4); (0x10AEB,0x10AEF); (0x10B00,0x10B35);
  (0x10B40,0x10B55); (0x10B58,0x10B72); (0x10B78,0x10B91); (0x10BA9,0x10BAF); (0x10C00,0x10C48); (0x10C80,0x10CB2);
  (0x10CC0,0x10CF2); (0x10CFA,0x10D23); (0x10D30,0x10D39); (0x10E60,0x10E7E); (0x10E80,0x10EA9); (0x10EB0,0x10EB1);
  (0x10F00,0x10F27); (0x10F30,0x10F45); (0x10F51,0x10F54); (0x10F70,0x10F81); (0x10FB0,0x10FCB); (0x10FE0,0x10FF6);
  (0x11003,0x11037); (0x11052,0x1106F); (0x11071,0x11072); (0x11075,0x11075); (0x11083,0x110AF); (0x110D0,0x110E8);
  (0x110F0,0x110F9); (0x11103,0x11126); (0x11136,0x1113F); (0x11144,0x11144); (0x11147,0x11147); (0x11150,0x11172);
  (0x11176,0x11176); (0x11183,0x111B2); (0x111C1,0x111C4); (0x111D0,0x111DA); (0x111DC,0x111DC); (0x111E1,0x111F4);
  (0x11200,0x11211); (0x11213,0x1122B); (0x11280,0x11286); (0x11288,0x11288); (0x1128A,0x1128D); (0x1128F,0x1129D);
  (0x1129F,0x112A8); (0x112B0,0x112DE); (0x112F0,0x112F9); (0x11305,0x1130C); (0x1130F,0x11310); (0x11313,0x11328);
  (0x1132A,0x11330); (0x11332,0x11333); (0x11335,0x11339); (0x1133D,0x1133D); (0x11350,0x11350); (0x1135D,0x11361);
  (0x11400,0x11434); (0x11447,0x1144A); (0x11450,0x11459); (0x1145F,0x11461); (0x11480,0x114AF); (0x114C4,0x114C5);
  (0x114C7,0x114C7); (0x114D0,0x114D9); (0x11580,0x115AE); (0x115D8,0x115DB); (0x11600,0x1162F); (0x11644,0x11644);
  (0x11650,0x11659); (0x11680,0x116AA); (0x116B8,0x116B8); (0x116C0,0x116C9); (0x11700,0x1171A); (0x11730,0x1173B);
  (0x11740,0x11746); (0x11800,0x1182B); (0x118A0,0x118F2); (0x118FF,0x11906); (0x11909,0x11909); (0x1190C,0x11913);
  (0x11915,0x11916); (0x11918,0x1192F); (0x1193F,0x1193F); (0x11941,0x11941); (0x11950,0x11959); (0x119A0,0x119A7);
  (0x119AA,0x119D0); (0x119E1,0x119E1); (0x119E3,0x119E3); (0x11A00,0x11A00); (0x11A0B,0x11A32); (0x11A3A,0x11A3A);
  (0x11A50,0x11A50); (0x11A5C,0x11A89); (0x11A9D,0x11A9D); (0x11AB0,0x11AF8); (0x11C00,0x11C08); (0x11C0A,0x11C2E);
  (0x11C40,0x11C40); (0x11C50,0x11C6C); (0x11C72,0x11C8F); (0x11D00,0x11D06); (0x11D08,0x11D09); (0x11D0B,0x11D30);
  (0x11D46,0x11D46); (0x11D50,0x11D59); (0x11D60,0x11D65); (0x11D67,0x11D68); (0x11D6A,0x11D89); (0x11D98,0x11D98);
  (0x11DA0,0x11DA9); (0x11EE0,0x11EF2); (0x11FB0,0x11FB0); (0x11FC0,0x11FD4); (0x12000,0x12399); (0x12400,0x1246E);
  (0x12480,0x12543); (0x12F90,0x12FF0); (0x13000,0x1342E); (0x14400,0x14646); (0x16800,0x16A38); (0x16A40,0x16A5E);
  (0x16A60,0x16A69); (0x16A70,0x16ABE); (0x16AC0,0x16AC9); (0x16AD0,0x16AED); (0x16B00,0x16B2F); (0x16B40,0x16B43);
  (0x16B50,0x16B59); (0x16B5B,0x16B61); (0x16B63,0x16B77); (0x16B7D,0x16B8F); (0x16E40,0x16E96); (0x16F00,0x16F4A);
  (0x16F50,0x16F50); (0x16F93,0x16F9F); (0x16FE0,0x16FE1); (0x16FE3,0x16FE3); (0x17000,0x187F7); (0x18800,0x18CD5);
  (0x18D00,0x18D08); (0x1AFF0,0x1AFF3); (0x1AFF5,0x1AFFB); (0x1AFFD,0x1AFFE); (0x1B000,0x1B122); (0x1B150,0x1B152);
  (0x1B164,0x1B167); (0x1B170,0x1B2FB); (0x1BC00,0x1BC6A); (0x1BC70,0x1BC7C); (0x1BC80,0x1BC88); (0x1BC90,0x1BC99);
  (0x1D2E0,0x1D2F3); (0x1D360,0x1D378); (0x1D400,0x1D454); (0x1D456,0x1D49C); (0x1D49E,0x1D49F); (0x1D4A2,0x1D4A2);
  (0x1D4A5,0x1D4A6); (0x1D4A9,0x1D4AC); (0x1D4AE,0x1D4B9); (0x1D4BB,0x1D4BB); (0x1D4BD,0x1D4C3); (0x1D4C5,0x1D505);
  (0x1D507,0x1D50A); (0x1D50D,0x1D514); (0x1D516,0x1D51C); (0x1D51E,0x1D539); (0x1D53B,0x1D53E); (0x1D540,0x1D544);
  (0x1D546,0x1D546); (0x1D54A,0x1D550); (0x1D552,0x1D6A5); (0x1D6A8,0x1D6C0); (0x1D6C2,0x1D6DA); (0x1D6DC,0x1D6FA);
  (0x1D6FC,0x1D714); (0x1D716,0x1D734); (0x1D736,0x1D74E); (0x1D750,0x1D76E); (0x1D770,0x1D788); (0x1D78A,0x1D7A8);
  (0x1D7AA,0x1D7C2); (0x1D7C4,0x1D7CB); (0x1D7CE,0x1D7FF); (0x1DF00,0x1DF1E); (0x1E100,0x1E12C); (0x1E137,0x1E13D);
  (0x1E140,0x1E149); (0x1E14E,0x1E14E); (0x1E290,0x1E2AD); (0x1E2C0,0x1E2EB); (0x1E2F0,0x1E2F9); (0x1E7E0,0x1E7E6);
  (0x1E7E8,0x1E7EB); (0x1E7ED,0x1E7EE); (0x1E7F0,0x1E7FE); (0x1E800,0x1E8C4); (0x1E8C7,0x1E8CF); (0x1E900,0x1E943);
  (0x1E94B,0x1E94B); (0x1E950,0x1E959); (0x1EC71,0x1ECAB); (0x1ECAD,0x1ECAF); (0x1ECB1,0x1ECB4); (0x1ED01,0x1ED2D);
  (0x1ED2F,0x1ED3D); (0x1EE00,0x1EE03); (0x1EE05,0x1EE1F); (0x1EE21,0x1EE22); (0x1EE24,0x1EE24); (0x1EE27,0x1EE27);
  (0x1EE29,0x1EE32); (0x1EE34,0x1EE37); (0x1EE39,0x1EE39); (0x1EE3B,0x1EE3B); (0x1EE42,0x1EE42); (0x1EE47,0x1EE47);
  (0x1EE49,0x1EE49); (0x1EE4B,0x1EE4B); (0x1EE4D,0x1EE4F); (0x1EE51,0x1EE52); (0x1EE54,0x1EE54); (0x1EE57,0x1EE57);
  (0x1EE59,0x1EE59); (0x1EE5B,0x1EE5B); (0x1EE5D,0x1EE5D); (0x1EE5F,0x1EE5F); (0x1EE61,0x1EE62); (0x1EE64,0x1EE64);
  (0x1EE67,0x1EE6A); (0x1EE6C,0x1EE72); (0x1EE74,0x1EE77); (0x1EE79,0x1EE7C); (0x1EE7E,0x1EE7E); (0x1EE80,0x1EE89);
  (0x1EE8B,0x1EE9B); (0x1EEA1,0x1EEA3); (0x1EEA5,0x1EEA9); (0x1EEAB,0x1EEBB); (0x1F100,0x1F10C); (0x1FBF0,0x1FBF9);
  (0x20000,0x2A6DF); (0x2A700,0x2B738); (0x2B740,0x2B81D); (0x2B820,0x2CEA1); (0x2CEB0,0x2EBE0); (0x2F800,0x2FA1D);
  (0x30000,0x3134A) ].

(** Simple lower-case mapping: an entry [(lo, hi, step, tlo)] sends
    [lo + k * step] (up to [hi]) to [tlo + k * step]. *)
Definition lower_runs : list (N * N * N * N) :=
[ (0x41,0x5A,1,0x61); (0xC0,0xD6,1,0xE0); (0xD8,0xDE,1,0xF8); (0x100,0x12E,2,0x101);
  (0x130,0x130,1,0x69); (0x132,0x136,2,0x133); (0x139,0x147,2,0x13A); (0x14A,0x176,2,0x14B);
  (0x178,0x178,1,0xFF); (0x179,0x17D,2,0x17A); (0x181,0x181,1,0x253); (0x182,0x184,2,0x183);
  (0x186,0x186,1,0x254); (0x187,0x187,1,0x188); (0x189,0x18A,1,0x256); (0x18B,0x18B,1,0x18C);
  (0x18E,0x18E,1,0x1DD); (0x18F,0x18F,1,0x259); (0x190,0x190,1,0x25B); (0x191,0x191,1,0x192);
  (0x193,0x193,1,0x260); (0x194,0x194,1,0x263); (0x196,0x196,1,0x269); (0x197,0x197,1,0x268);
  (0x198,0x198,1,0x199); (0x19C,0x19C,1,0x26F); (0x19D,0x19D,1,0x272); (0x19F,0x19F,1,0x275);
  (0x1A0,0x1A4,2,0x1A1); (0x1A6,0x1A6,1,0x280); (0x1A7,0x1A7,1,0x1A8); (0x1A9,0x1A9,1,0x283);
  (0x1AC,0x1AC,1,0x1AD); (0x1AE,0x1AE,1,0x288); (0x1AF,0x1AF,1,0x1B0); (0x1B1,0x1B2,1,0x28A);
  (0x1B3,0x1B5,2,0x1B4); (0x1B7,0x1B7,1,0x292); (0x1B8,0x1B8,1,0x1B9); (0x1BC,0x1BC,1,0x1BD);
  (0x1C4,0x1C4,1,0x1C6); (0x1C5,0x1C5,1,0x1C6); (0x1C7,0x1C7,1,0x1C9); (0x1C8,0x1C8,1,0x1C9);
  (0x1CA,0x1CA,1,0x1CC); (0x1CB,0x1DB,2,0x1CC); (0x1DE,0x1EE,2,0x1DF); (0x1F1,0x1F1,1,0x1F3);
  (0x1F2,0x1F4,2,0x1F3); (0x1F6,0x1F6,1,0x195); (0x1F7,0x1F7,1,0x1BF); (0x1F8,0x21E,2,0x1F9);
  (0x220,0x220,1,0x19E); (0x222,0x232,2,0x223); (0x23A,0x23A,1,0x2C65); (0x23B,0x23B,1,0x23C);
  (0x23D,0x23D,1,0x19A); (0x23E,0x23E,1,0x2C66); (0x241,0x241,1,0x242); (0x243,0x243,1,0x180);
  (0x244,0x244,1,0x289); (0x245,0x245,1,0x28C); (0x246,0x24E,2,0x247); (0x370,0x372,2,0x371);
  (0x376,0x376,1,0x377); (0x37F,0x37F,1,0x3F3); (0x386,0x386,1,0x3AC); (0x388,0x38A,1,0x3AD);
  (0x38C,0x38C,1,0x3CC); (0x38E,0x38F,1,0x3CD); (0x391,0x3A1,1,0x3B1); (0x3A3,0x3AB,1,0x3C3);
  (0x3CF,0x3CF,1,0x3D7); (0x3D8,0x3EE,2,0x3D9); (0x3F4,0x3F4,1,0x3B8); (0x3F7,0x3F7,1,0x3F8);
  (0x3F9,0x3F9,1,0x3F2); (0x3FA,0x3FA,1,0x3FB); (0x3FD,0x3FF,1,0x37B); (0x400,0x40F,1,0x450);
  (0x410,0x42F,1,0x430); (0x460,0x480,2,0x461); (0x48A,0x4BE,2,0x48B); (0x4C0,0x4C0,1,0x4CF);
  (0x4C1,0x4CD,2,0x4C2); (0x4D0,0x52E,2,0x4D1); (0x531,0x556,1,0x561); (0x10A0,0x10C5,1,0x2D00);
  (0x10C7,0x10C7,1,0x2D27); (0x10CD,0x10CD,1,0x2D2D); (0x13A0,0x13EF,1,0xAB70); (0x13F0,0x13F5,1,0x13F8);
  (0x1C90,0x1CBA,1,0x10D0); (0x1CBD,0x1CBF,1,0x10FD); (0x1E00,0x1E94,2,0x1E01); (0x1E9E,0x1E9E,1,0xDF);
  (0x1EA0,0x1EFE,2,0x1EA1); (0x1F08,0x1F0F,1,0x1F00); (0x1F18,0x1F1D,1,0x1F10); (0x1F28,0x1F2F,1,0x1F20);
  (0x1F38,0x1F3F,1,0x1F30); (0x1F48,0x1F4D,1,0x1F40); (0x1F59,0x1F5F,2,0x1F51); (0x1F68,0x1F6F,1,0x1F60);
  (0x1F88,0x1F8F,1,0x1F80); (0x1F98,0x1F9F,1,0x1F90); (0x1FA8,0x1FAF,1,0x1FA0); (0x1FB8,0x1FB9,1,0x1FB0);
  (0x1FBA,0x1FBB,1,0x1F70); (0x1FBC,0x1FBC,1,0x1FB3); (0x1FC8,0x1FCB,1,0x1F72); (0x1FCC,0x1FCC,1,0x1FC3);
  (0x1FD8,0x1FD9,1,0x1FD0); (0x1FDA,0x1FDB,1,0x1F76); (0x1FE8,0x1FE9,1,0x1FE0); (0x1FEA,0x1FEB,1,0x1F7A);
  (0x1FEC,0x1FEC,1,0x1FE5); (0x1FF8,0x1FF9,1,0x1F78); (0x1FFA,0x1FFB,1,0x1F7C); (0x1FFC,0x1FFC,1,0x1FF3);
  (0x2126,0x2126,1,0x3C9); (0x212A,0x212A,1,0x6B); (0x212B,0x212B,1,0xE5); (0x2132,0x2132,1,0x214E);
  (0x2160,0x216F,1,0x2170); (0x2183,0x2183,1,0x2184); (0x24B6,0x24CF,1,0x24D0); (0x2C00,0x2C2F,1,0x2C30);
  (0x2C60,0x2C60,1,0x2C61); (0x2C62,0x2C62,1,0x26B); (0x2C63,0x2C63,1,0x1D7D); (0x2C64,0x2C64,1,0x27D);
  (0x2C67,0x2C6B,2,0x2C68); (0x2C6D,0x2C6D,1,0x251); (0x2C6E,0x2C6E,1,0x271); (0x2C6F,0x2C6F,1,0x250);
  (0x2C70,0x2C70,1,0x252); (0x2C72,0x2C72,1,0x2C73); (0x2C75,0x2C75,1,0x2C76); (0x2C7E,0x2C7F,1,0x23F);
  (0x2C80,0x2CE2,2,0x2C81); (0x2CEB,0x2CED,2,0x2CEC); (0x2CF2,0x2CF2,1,0x2CF3); (0xA640,0xA66C,2,0xA641);
  (0xA680,0xA69A,2,0xA681); (0xA722,0xA72E,2,0xA723); (0xA732,0xA76E,2,0xA733); (0xA779,0xA77B,2,0xA77A);
  (0xA77D,0xA77D,1,0x1D79); (0xA77E,0xA786,2,0xA77F); (0xA78B,0xA78B,1,0xA78C); (0xA78D,0xA78D,1,0x265);
  (0xA790,0xA792,2,0xA791); (0xA796,0xA7A8,2,0xA797); (0xA7AA,0xA7AA,1,0x266); (0xA7AB,0xA7AB,1,0x25C);
  (0xA7AC,0xA7AC,1,0x261); (0xA7AD,0xA7AD,1,0x26C); (0xA7AE,0xA7AE,1,0x26A); (0xA7B0,0xA7B0,1,0x29E);
  (0xA7B1,0xA7B1,1,0x287); (0xA7B2,0xA7B2,1,0x29D); (0xA7B3,0xA7B3,1,0xAB53); (0xA7B4,0xA7C2,2,0xA7B5);
  (0xA7C4,0xA7C4,1,0xA794); (0xA7C5,0xA7C5,1,0x282); (0xA7C6,0xA7C6,1,0x1D8E); (0xA7C7,0xA7C9,2,0xA7C8);
  (0xA7D0,0xA7D0,1,0xA7D1); (0xA7D6,0xA7D8,2,0xA7D7); (0xA7F5,0xA7F5,1,0xA7F6); (0xFF21,0xFF3A,1,0xFF41);
  (0x10400,0x10427,1,0x10428); (0x104B0,0x104D3,1,0x104D8); (0x10570,0x1057A,1,0x10597); (0x1057C,0x1058A,1,0x105A3);
  (0x1058C,0x10592,1,0x105B3); (0x10594,0x10595,1,0x105BB); (0x10C80,0x10CB2,1,0x10CC0); (0x118A0,0x118BF,1,0x118C0);
  (0x16E40,0x16E5F,1,0x16E60); (0x1E900,0x1E921,1,0x1E922) ].

(** Case-ignorable code points, skipped around a capital sigma by [str.lower]. *)
Definition case_ignorable_ranges : list (N * N) :=
[ (0x27,0x27); (0x2E,0x2E); (0x3A,0x3A); (0x5E,0x5E); (0x60,0x60); (0xA8,0xA8);
  (0xAD,0xAD); (0xAF,0xAF); (0xB4,0xB4); (0xB7,0xB8); (0x2B0,0x36F); (0x374,0x375);
  (0x37A,0x37A); (0x384,0x385); (0x387,0x387); (0x483,0x489); (0x559,0x559); (0x55F,0x55F);
  (0x591,0x5BD); (0x5BF,0x5BF); (0x5C1,0x5C2); (0x5C4,0x5C5); (0x5C7,0x5C7); (0x5F4,0x5F4);
  (0x600,0x605); (0x610,0x61A); (0x61C,0x61C); (0x640,0x640); (0x64B,0x65F); (0x670,0x670);
  (0x6D6,0x6DD); (0x6DF,0x6E8); (0x6EA,0x6ED); (0x70F,0x70F); (0x711,0x711); (0x730,0x74A);
  (0x7A6,0x7B0); (0x7EB,0x7F5); (0x7FA,0x7FA); (0x7FD,0x7FD); (0x816,0x82D); (0x859,0x85B);
  (0x888,0x888); (0x890,0x891); (0x898,0x89F); (0x8C9,0x902); (0x93A,0x93A); (0x93C,0x93C);
  (0x941,0x948); (0x94D,0x94D); (0x951,0x957); (0x962,0x963); (0x971,0x971); (0x981,0x981);
  (0x9BC,0x9BC); (0x9C1,0x9C4); (0x9CD,0x9CD); (0x9E2,0x9E3); (0x9FE,0x9FE); (0xA01,0xA02);
  (0xA3C,0xA3C); (0xA41,0xA42); (0xA47,0xA48); (0xA4B,0xA4D); (0xA51,0xA51); (0xA70,0xA71);
  (0xA75,0xA75); (0xA81,0xA82); (0xABC,0xABC); (0xAC1,0xAC5); (0xAC7,0xAC8); (0xACD,0xACD);
  (0xAE2,0xAE3); (0xAFA,0xAFF); (0xB01,0xB01); (0xB3C,0xB3C); (0xB3F,0xB3F); (0xB41,0xB44);
  (0xB4D,0xB4D); (0xB55,0xB56); (0xB62,0xB63); (0xB82,0xB82); (0xBC0,0xBC0); (0xBCD,0xBCD);
  (0xC00,0xC00); (0xC04,0xC04); (0xC3C,0xC3C); (0xC3E,0xC40); (0xC46,0xC48); (0xC4A,0xC4D);
  (0xC55,0xC56); (0xC62,0xC63); (0xC81,0xC81); (0xCBC,0xCBC); (0xCBF,0xCBF); (0xCC6,0xCC6);
  (0xCCC,0xCCD); (0xCE2,0xCE3); (0xD00,0xD01); (0xD3B,0xD3C); (0xD41,0xD44); (0xD4D,0xD4D);
  (0xD62,0xD63); (0xD81,0xD81); (0xDCA,0xDCA); (0xDD2,0xDD4); (0xDD6,0xDD6); (0xE31,0xE31);
  (0xE34,0xE3A); (0xE46,0xE4E); (0xEB1,0xEB1); (0xEB4,0xEBC); (0xEC6,0xEC6); (0xEC8,0xECD);
  (0xF18,0xF19); (0xF35,0xF35); (0xF37,0xF37); (0xF39,0xF39); (0xF71,0xF7E); (0xF80,0xF84);
  (0xF86,0xF87); (0xF8D,0xF97); (0xF99,0xFBC); (0xFC6,0xFC6); (0x102D,0x1030); (0x1032,0x1037);
  (0x1039,0x103A); (0x103D,0x103E); (0x1058,0x1059); (0x105E,0x1060); (0x1071,0x1074); (0x1082,0x1082);
  (0x1085,0x1086); (0x108D,0x108D); (0x109D,0x109D); (0x10FC,0x10FC); (0x135D,0x135F); (0x1712,0x1714);
  (0x1732,0x1733); (0x1752,0x1753); (0x1772,0x1773); (0x17B4,0x17B5); (0x17B7,0x17BD); (0x17C6,0x17C6);
  (0x17C9,0x17D3); (0x17D7,0x17D7); (0x17DD,0x17DD); (0x180B,0x180F); (0x1843,0x1843); (0x1885,0x1886);
  (0x18A9,0x18A9); (0x1920,0x1922); (0x1927,0x1928); (0x1932,0x1932); (0x1939,0x193B); (0x1A17,0x1A18);
  (0x1A1B,0x1A1B); (0x1A56,0x1A56); (0x1A58,0x1A5E); (0x1A60,0x1A60); (0x1A62,0x1A62); (0x1A65,0x1A6C);
  (0x1A73,0x1A7C); (0x1A7F,0x1A7F); (0x1AA7,0x1AA7); (0x1AB0,0x1ACE); (0x1B00,0x1B03); (0x1B34,0x1B34);
  (0x1B36,0x1B3A); (0x1B3C,0x1B3C); (0x1B42,0x1B42); (0x1B6B,0x1B73); (0x1B80,0x1B81); (0x1BA2,0x1BA5);
  (0x1BA8,0x1BA9); (0x1BAB,0x1BAD); (0x1BE6,0x1BE6); (0x1BE8,0x1BE9); (0x1BED,0x1BED); (0x1BEF,0x1BF1);
  (0x1C2C,0x1C33); (0x1C36,0x1C37); (0x1C78,0x1C7D); (0x1CD0,0x1CD2); (0x1CD4,0x1CE0); (0x1CE2,0x1CE8);
  (0x1CED,0x1CED); (0x1CF4,0x1CF4); (0x1CF8,0x1CF9); (0x1D2C,0x1D6A); (0x1D78,0x1D78); (0x1D9B,0x1DFF);
  (0x1FBD,0x1FBD); (0x1FBF,0x1FC1); (0x1FCD,0x1FCF); (0x1FDD,0x1FDF); (0x1FED,0x1FEF); (0x1FFD,0x1FFE);
  (0x200B,0x200F); (0x2018,0x2019); (0x2024,0x2024); (0x2027,0x2027); (0x202A,0x202E); (0x2060,0x2064);
  (0x2066,0x206F); (0x2071,0x2071); (0x207F,0x207F); (0x2090,0x209C); (0x20D0,0x20F0); (0x2C7C,0x2C7D);
  (0x2CEF,0x2CF1); (0x2D6F,0x2D6F); (0x2D7F,0x2D7F); (0x2DE0,0x2DFF); (0x2E2F,0x2E2F); (0x3005,0x3005);
  (0x302A,0x302D); (0x3031,0x3035); (0x303B,0x303B); (0x3099,0x309E); (0x30FC,0x30FE); (0xA015,0xA015);
  (0xA4F8,0xA4FD); (0xA60C,0xA60C); (0xA66F,0xA672); (0xA674,0xA67D); (0xA67F,0xA67F); (0xA69C,0xA69F);
  (0xA6F0,0xA6F1); (0xA700,0xA721); (0xA770,0xA770); (0xA788,0xA78A); (0xA7F2,0xA7F4); (0xA7F8,0xA7F9);
  (0xA802,0xA802); (0xA806,0xA806); (0xA80B,0xA80B); (0xA825,0xA826); (0xA82C,0xA82C); (0xA8C4,0xA8C5);
  (0xA8E0,0xA8F1); (0xA8FF,0xA8FF); (0xA926,0xA92D); (0xA947,0xA951); (0xA980,0xA982); (0xA9B3,0xA9B3);
  (0xA9B6,0xA9B9); (0xA9BC,0xA9BD); (0xA9CF,0xA9CF); (0xA9E5,0xA9E6); (0xAA29,0xAA2E); (0xAA31,0xAA32);
  (0xAA35,0xAA36); (0xAA43,0xAA43); (0xAA4C,0xAA4C); (0xAA70,0xAA70); (0xAA7C,0xAA7C); (0xAAB0,0xAAB0);
  (0xAAB2,0xAAB4); (0xAAB7,0xAAB8); (0xAABE,0xAABF); (0xAAC1,0xAAC1); (0xAADD,0xAADD); (0xAAEC,0xAAED);
  (0xAAF3,0xAAF4); (0xAAF6,0xAAF6); (0xAB5B,0xAB5F); (0xAB69,0xAB6B); (0xABE5,0xABE5); (0xABE8,0xABE8);
  (0xABED,0xABED); (0xFB1E,0xFB1E); (0xFBB2,0xFBC2); (0xFE00,0xFE0F); (0xFE13,0xFE13); (0xFE20,0xFE2F);
  (0xFE52,0xFE52); (0xFE55,0xFE55); (0xFEFF,0xFEFF); (0xFF07,0xFF07); (0xFF0E,0xFF0E); (0xFF1A,0xFF1A);
  (0xFF3E,0xFF3E); (0xFF40,0xFF40); (0xFF70,0xFF70); (0xFF9E,0xFF9F); (0xFFE3,0xFFE3); (0xFFF9,0xFFFB);
  (0x101FD,0x101FD); (0x102E0,0x102E0); (0x10376,0x1037A); (0x10780,0x10785); (0x10787,0x107B0); (0x107B2,0x107BA);
  (0x10A01,0x10A03); (0x10A05,0x10A06); (0x10A0C,0x10A0F); (0x10A38,0x10A3A); (0x10A3F,0x10A3F); (0x10AE5,0x10AE6);
  (0x10D24,0x10D27); (0x10EAB,0x10EAC); (0x10F46,0x10F50); (0x10F82,0x10F85); (0x11001,0x11001); (0x11038,0x11046);
  (0x11070,0x11070); (0x11073,0x11074); (0x1107F,0x11081); (0x110B3,0x110B6); (0x110B9,0x110BA); (0x110BD,0x110BD);
  (0x110C2,0x110C2); (0x110CD,0x110CD); (0x11100,0x11102); (0x11127,0x1112B); (0x1112D,0x11134); (0x11173,0x11173);
  (0x11180,0x11181); (0x111B6,0x111BE); (0x111C9,0x111CC); (0x111CF,0x111CF); (0x1122F,0x11231); (0x11234,0x11234);
  (0x11236,0x11237); (0x1123E,0x1123E); (0x112DF,0x112DF); (0x112E3,0x112EA); (0x11300,0x11301); (0x1133B,0x1133C);
  (0x11340,0x11340); (0x11366,0x1136C); (0x11370,0x11374); (0x11438,0x1143F); (0x11442,0x11444); (0x11446,0x11446);
  (0x1145E,0x1145E); (0x114B3,0x114B8); (0x114BA,0x114BA); (0x114BF,0x114C0); (0x114C2,0x114C3); (0x115B2,0x115B5);
  (0x115BC,0x115BD); (0x115BF,0x115C0); (0x115DC,0x115DD); (0x11633,0x1163A); (0x1163D,0x1163D); (0x1163F,0x11640);
  (0x116AB,0x116AB); (0x116AD,0x116AD); (0x116B0,0x116B5); (0x116B7,0x116B7); (0x1171D,0x1171F); (0x11722,0x11725);
  (0x11727,0x1172B); (0x1182F,0x11837); (0x11839,0x1183A); (0x1193B,0x1193C); (0x1193E,0x1193E); (0x11943,0x11943);
  (0x119D4,0x119D7); (0x119DA,0x119DB); (0x119E0,0x119E0); (0x11A01,0x11A0A); (0x11A33,0x11A38); (0x11A3B,0x11A3E);
  (0x11A47,0x11A47); (0x11A51,0x11A56); (0x11A59,0x11A5B); (0x11A8A,0x11A96); (0x11A98,0x11A99); (0x11C30,0x11C36);
  (0x11C38,0x11C3D); (0x11C3F,0x11C3F); (0x11C92,0x11CA7); (0x11CAA,0x11CB0); (0x11CB2,0x11CB3); (0x11CB5,0x11CB6);
  (0x11D31,0x11D36); (0x11D3A,0x11D3A); (0x11D3C,0x11D3D); (0x11D3F,0x11D45); (0x11D47,0x11D47); (0x11D90,0x11D91);
  (0x11D95,0x11D95); (0x11D97,0x11D97); (0x11EF3,0x11EF4); (0x13430,0x13438); (0x16AF0,0x16AF4); (0x16B30,0x16B36);
  (0x16B40,0x16B43); (0x16F4F,0x16F4F); (0x16F8F,0x16F9F); (0x16FE0,0x16FE1); (0x16FE3,0x16FE4); (0x1AFF0,0x1AFF3);
  (0x1AFF5,0x1AFFB); (0x1AFFD,0x1AFFE); (0x1BC9D,0x1BC9E); (0x1BCA0,0x1BCA3); (0x1CF00,0x1CF2D); (0x1CF30,0x1CF46);
  (0x1D167,0x1D169); (0x1D173,0x1D182); (0x1D185,0x1D18B); (0x1D1AA,0x1D1AD); (0x1D242,0x1D244); (0x1DA00,0x1DA36);
  (0x1DA3B,0x1DA6C); (0x1DA75,0x1DA75); (0x1DA84,0x1DA84); (0x1DA9B,0x1DA9F); (0x1DAA1,0x1DAAF); (0x1E000,0x1E006);
  (0x1E008,0x1E018); (0x1E01B,0x1E021); (0x1E023,0x1E024); (0x1E026,0x1E02A); (0x1E130,0x1E13D); (0x1E2AE,0x1E2AE);
  (0x1E2EC,0x1E2EF); (0x1E8D0,0x1E8D6); (0x1E944,0x1E94B); (0x1F3FB,0x1F3FF); (0xE0001,0xE0001); (0xE0020,0xE007F);
  (0xE0100,0xE01EF) ].

(** Cased code points that are not case-ignorable. *)
Definition cased_ranges : list (N * N) :=
[ (0x41,0x5A); (0x61,0x7A); (0xAA,0xAA); (0xB5,0xB5); (0xBA,0xBA); (0xC0,0xD6);
  (0xD8,0xF6); (0xF8,0x1BA); (0x1BC,0x1BF); (0x1C4,0x293); (0x295,0x2AF); (0x370,0x373);
  (0x376,0x377); (0x37B,0x37D); (0x37F,0x37F); (0x386,0x386); (0x388,0x38A); (0x38C,0x38C);
  (0x38E,0x3A1); (0x3A3,0x3F5); (0x3F7,0x481); (0x48A,0x52F); (0x531,0x556); (0x560,0x588);
  (0x10A0,0x10C5); (0x10C7,0x10C7); (0x10CD,0x10CD); (0x10D0,0x10FA); (0x10FD,0x10FF); (0x13A0,0x13F5);
  (0x13F8,0x13FD); (0x1C80,0x1C88); (0x1C90,0x1CBA); (0x1CBD,0x1CBF); (0x1D00,0x1D2B); (0x1D6B,0x1D77);
  (0x1D79,0x1D9A); (0x1E00,0x1F15); (0x1F18,0x1F1D); (0x1F20,0x1F45); (0x1F48,0x1F4D); (0x1F50,0x1F57);
  (0x1F59,0x1F59); (0x1F5B,0x1F5B); (0x1F5D,0x1F5D); (0x1F5F,0x1F7D); (0x1F80,0x1FB4); (0x1FB6,0x1FBC);
  (0x1FBE,0x1FBE); (0x1FC2,0x1FC4); (0x1FC6,0x1FCC); (0x1FD0,0x1FD3); (0x1FD6,0x1FDB); (0x1FE0,0x1FEC);
  (0x1FF2,0x1FF4); (0x1FF6,0x1FFC); (0x2102,0x2102); (0x2107,0x2107); (0x210A,0x2113); (0x2115,0x2115);
  (0x2119,0x211D); (0x2124,0x2124); (0x2126,0x2126); (0x2128,0x2128); (0x212A,0x212D); (0x212F,0x2134);
  (0x2139,0x2139); (0x213C,0x213F); (0x2145,0x2149); (0x214E,0x214E); (0x2160,0x217F); (0x2183,0x2184);
  (0x24B6,0x24E9); (0x2C00,0x2C7B); (0x2C7E,0x2CE4); (0x2CEB,0x2CEE); (0x2CF2,0x2CF3); (0x2D00,0x2D25);
  (0x2D27,0x2D27); (0x2D2D,0x2D2D); (0xA640,0xA66D); (0xA680,0xA69B); (0xA722,0xA76F); (0xA771,0xA787);
  (0xA78B,0xA78E); (0xA790,0xA7CA); (0xA7D0,0xA7D1); (0xA7D3,0xA7D3); (0xA7D5,0xA7D9); (0xA7F5,0xA7F6);
  (0xA7FA,0xA7FA); (0xAB30,0xAB5A); (0xAB60,0xAB68); (0xAB70,0xABBF); (0xFB00,0xFB06); (0xFB13,0xFB17);
  (0xFF21,0xFF3A); (0xFF41,0xFF5A); (0x10400,0x1044F); (0x104B0,0x104D3); (0x104D8,0x104FB); (0x10570,0x1057A);
  (0x1057C,0x1058A); (0x1058C,0x10592); (0x10594,0x10595); (0x10597,0x105A1); (0x105A3,0x105B1); (0x105B3,0x105B9);
  (0x105BB,0x105BC); (0x10C80,0x10CB2); (0x10CC0,0x10CF2); (0x118A0,0x118DF); (0x16E40,0x16E7F); (0x1D400,0x1D454);
  (0x1D456,0x1D49C); (0x1D49E,0x1D49F); (0x1D4A2,0x1D4A2); (0x1D4A5,0x1D4A6); (0x1D4A9,0x1D4AC); (0x1D4AE,0x1D4B9);
  (0x1D4BB,0x1D4BB); (0x1D4BD,0x1D4C3); (0x1D4C5,0x1D505); (0x1D507,0x1D50A); (0x1D50D,0x1D514); (0x1D516,0x1D51C);
  (0x1D51E,0x1D539); (0x1D53B,0x1D53E); (0x1D540,0x1D544); (0x1D546,0x1D546); (0x1D54A,0x1D550); (0x1D552,0x1D6A5);
  (0x1D6A8,0x1D6C0); (0x1D6C2,0x1D6DA); (0x1D6DC,0x1D6FA); (0x1D6FC,0x1D714); (0x1D716,0x1D734); (0x1D736,0x1D74E);
  (0x1D750,0x1D76E); (0x1D770,0x1D788); (0x1D78A,0x1D7A8); (0x1D7AA,0x1D7C2); (0x1D7C4,0x1D7CB); (0x1DF00,0x1DF09);
  (0x1DF0B,0x1DF1E); (0x1E900,0x1E943); (0x1F130,0x1F149); (0x1F150,0x1F169); (0x1F170,0x1F189) ].

(** Cased code points below 256 ([_sre.unicode_iscased]); pattern characters
    are looked up here. *)
Definition cased_pattern_ranges : list (N * N) :=
[ (0x41,0x5A); (0x61,0x7A); (0xB5,0xB5); (0xC0,0xD6); (0xD8,0xF6); (0xF8,0xFF) ].

(** [re._casefix._EXTRA_CASES] at the keys below 256: lower-case letters
    that share an upper case with the key. *)
Definition extra_cases (lo : N) : list N :=
  if lo =? 0x69 then [0x131]
  else if lo =? 0x73 then [0x17F]
  else if lo =? 0xB5 then [0x3BC]
  else [].

Definition in_ranges (tbl : list (N * N)) (c : N) : bool :=
  existsb (fun r => (fst r <=? c) && (c <=? snd r)) tbl.

(** [Py_UNICODE_ISSPACE], [Py_UNICODE_ISDECIMAL], [Py_UNICODE_ISALNUM]. *)
Definition isspace (c : N) : bool := in_ranges space_ranges c.
Definition isdecimal (c : N) : bool := in_ranges decimal_ranges c.
Definition isalnum (c : N) : bool := in_ranges alnum_ranges c.

(** [\w]: alphanumeric or the underscore. *)
Definition isword (c : N) : bool := isalnum c || (c =? 0x5F).

Fixpoint lower_lookup (runs : list (N * N * N * N)) (c : N) : N :=
  match runs with
  | [] => c
  | (lo, hi, step, tlo) :: rest =>
      if (lo <=? c) && (c <=? hi) && ((c - lo) mod step =? 0)
      then tlo + (c - lo)
      else lower_lookup rest c
  end.

(** The simple lower-case mapping ([_PyUnicode_ToLowercase], which is
    [sre_lower_unicode]). *)
Definition tolower (c : N) : N := lower_lookup lower_runs c.

(** [_sre.unicode_iscased] on a pattern character. *)
Definition iscased (c : N) : bool := in_ranges cased_pattern_ranges c.

(** The ASCII digits, a sub-class of [isdecimal]. *)
Definition is_ascii_digit (c : N) : bool := (0x30 <=? c) && (c <=? 0x39).

Definition is_ascii (c : N) : bool := c <? 0x80.

(** Two range tables share no code point. *)
Definition ranges_disjoint (t1 t2 : list (N * N)) : bool :=
  forallb (fun r1 => forallb (fun r2 => (snd r1 <? fst r2) || (snd r2 <? fst r1)) t2) t1.

End Unicode.

Arguments Unicode.in_ranges : simpl never.
Arguments Unicode.isspace : simpl never.
Arguments Unicode.isdecimal : simpl never.
Arguments Unicode.isalnum : simpl never.
Arguments Unicode.isword : simpl never.
Arguments Unicode.tolower : simpl never.
Arguments Unicode.iscased : simpl never.

(** ** [str] methods *)

Module Str.

Import Unicode.
Local Open Scope N_scope.

Fixpoint drop_while (p : char -> bool) (s : str) : str :=
  match s with
  | c :: s' => if p c then drop_while p s' else s
  | [] => []
  end.

(** [s.lstrip()], [s.rstrip()], [s.strip()]: white space is what
    [str.isspace] accepts. *)
Definition lstrip (s : str) : str := drop_while isspace s.
Definition rstrip (s : str) : str := rev (drop_while isspace (rev s)).
Definition strip (s : str) : str := rstrip (lstrip s).

(** The full lower-case mapping of one code point: only U+0130 maps to more
    than one code point. *)
Definition lower_full (c : char) : str :=
  if c =? 0x130 then [0x69; 0x307] else [tolower c].

Definition case_ignorable (c : char) : bool := in_ranges case_ignorable_ranges c.
Definition cased (c : char) : bool := in_ranges cased_ranges c.

(** CPython's [handle_capital_sigma]: a capital sigma is final when a cased
    letter stands before it and none after it, case-ignorable code points
    skipped on both sides.  [before] is the text before the sigma, nearest
    code point first. *)
Definition final_sigma (before after : str) : bool :=
  match drop_while case_ignorable before with
  | c :: _ =>
      cased c &&
      match drop_while case_ignorable after with
      | d :: _ => negb (cased d)
      | [] => true
      end
  | [] => false
  end.

Fixpoint lower_from (before : str) (s : str) : str :=
  match s with
  | [] => []
  | c :: rest =>
      (if c =? 0x3A3
       then [if final_sigma before rest then 0x3C2 else 0x3C3]
       else lower_full c) ++ lower_from (c :: before) rest
  end.

(** [s.lower()]. *)
Definition lower (s : str) : str := lower_from [] s.

Fixpoint starts_with (p s : str) : bool :=
  match p, s with
  | [], _ => true
  | a :: p', c :: s' => (a =? c) && starts_with p' s'
  | _ :: _, [] => false
  end.

(** [p in s]: [p] occurs in [s] as a contiguous run. *)
Fixpoint contains (p s : str) : bool :=
  starts_with p s ||
  match s with
  | [] => false
  | _ :: s' => contains p s'
  end.

(** [s[:n]]. *)
Definition slice_to (n : nat) (s : str) : str := firstn n s.

(** [sep.join(parts)]. *)
Fixpoint join (sep : str) (parts : list str) : str :=
  match parts with
  | [] => []
  | [p] => p
  | p :: rest => p ++ sep ++ join sep rest
  end.

End Str.

(** ** Regular expressions: the fragment of [re] the program uses *)

Module Re.

Import Unicode.

(** [re.IGNORECASE] and [re.DOTALL]; the patterns are [str] patterns, so
    matching is Unicode matching. *)
Record flags : Type := { ignorecase : bool; dotall : bool }.

Inductive category : Type :=
| CATEGORY_SPACE
| CATEGORY_DIGIT
| CATEGORY_WORD.

(** A member of a set [[...]]. *)
Inductive set_item : Type :=
| SLiteral (a : ascii)
| SRange (lo hi : ascii)
| SCategory (k : category).

(** A parsed pattern.  [\d], [\s] and [\w] outside a set are the one-item
    sets, as in [sre_parse]; [(?:r)] is [r] itself. *)
Inductive regex : Type :=
| Eps
| Literal (a : ascii)
| AnyChar
| InSet (items : list set_item)
| Seq (r1 r2 : regex)
| Alt (r1 r2 : regex)
| Group (i : nat) (r : regex)
| MaxRepeat (lo : nat) (hi : option nat) (r : regex)
| MinRepeat (lo : nat) (hi : option nat) (r : regex).

(** The number of capturing groups of a pattern whose groups are numbered
    1, 2, ... from the left. *)
Fixpoint ngroups (r : regex) : nat :=
  match r with
  | Eps | Literal _ | AnyChar | InSet _ => 0
  | Seq r1 r2 | Alt r1 r2 => Nat.max (ngroups r1) (ngroups r2)
  | Group i r1 => Nat.max i (ngroups r1)
  | MaxRepeat _ _ r1 | MinRepeat _ _ r1 => ngroups r1
  end.

(** *** One character *)

Definition in_category (k : category) (c : char) : bool :=
  match k with
  | CATEGORY_SPACE => isspace c
  | CATEGORY_DIGIT => isdecimal c
  | CATEGORY_WORD => isword c
  end.

(** A literal of the pattern against a code point of the text.  Under
    [IGNORECASE] a cased literal is compared through the lower-case mapping,
    with the extra cases of [re._casefix]. *)
Definition literal_match (fl : flags) (a : ascii) (c : char) : bool :=
  let av := N_of_ascii a in
  if ignorecase fl && iscased av
  then let lo := tolower av in
       existsb (N.eqb (tolower c)) (lo :: extra_cases lo)
  else (c =? av)%N.

(** The code points [lo .. lo + n - 1]. *)
Fixpoint code_range (lo : N) (n : nat) : list N :=
  match n with
  | O => []
  | S n' => lo :: code_range (lo + 1)%N n'
  end.

Definition range_codes (lo hi : ascii) : list N :=
  code_range (N_of_ascii lo) (N.to_nat (N_of_ascii hi + 1 - N_of_ascii lo)%N).

(** [_optimize_charset]'s [hascased]: some literal or some member of a range
    of the set is cased. *)
Definition item_hascased (it : set_item) : bool :=
  match it with
  | SLiteral a => iscased (N_of_ascii a)
  | SRange lo hi => existsb iscased (range_codes lo hi)
  | SCategory _ => false
  end.

(** A set item against a code point, as written. *)
Definition item_match (it : set_item) (c : char) : bool :=
  match it with
  | SLiteral a => (c =? N_of_ascii a)%N
  | SRange lo hi => (N_of_ascii lo <=? c)%N && (c <=? N_of_ascii hi)%N
  | SCategory k => in_category k c
  end.

(** A set item of a set with cased members under [IGNORECASE]: the set holds
    the lower case of each member and its extra cases, and is asked about
    the lower case [x] of the text's code point. *)
Definition item_match_ignore (it : set_item) (x : char) : bool :=
  match it with
  | SLiteral a =>
      let lo := tolower (N_of_ascii a) in
      existsb (N.eqb x) (lo :: extra_cases lo)
  | SRange lo hi =>
      existsb (fun i => let l := tolower i in existsb (N.eqb x) (l :: extra_cases l))
              (range_codes lo hi)
  | SCategory k => in_category k x
  end.

Definition set_match (fl : flags) (items : list set_item) (c : char) : bool :=
  if ignorecase fl && existsb item_hascased items
  then existsb (fun it => item_match_ignore it (tolower c)) items
  else existsb (fun it => item_match it c) items.

(** [.]: any code point, a line feed only under [DOTALL]. *)
Definition any_match (fl : flags) (c : char) : bool :=
  dotall fl || negb (c =? 0xA)%N.

(** *** Backtracking *)

(** The groups of a match in progress: group [i] at index [i - 1], [None]
    while it has taken no part in the match. *)
Definition groups := list (option str).

(** A way to match: the text left after it and the groups. *)
Definition state := (str * groups)%type.

Fixpoint set_nth (n : nat) (v : option str) (g : groups) : groups :=
  match g, n with
  | [], _ => []
  | _ :: g', O => v :: g'
  | x :: g', S n' => x :: set_nth n' v g'
  end.

Definition set_group (i : nat) (v : str) (g : groups) : groups :=
  match i with
  | O => g
  | S n => set_nth n (Some v) g
  end.

(** What was read between [s] and its suffix [s1]. *)
Definition consumed (s s1 : str) : str :=
  firstn (List.length s - List.length s1) s.

Definition one (p : char -> bool) (s : str) (g : groups) : list state :=
  match s with
  | c :: s' => if p c then [(s', g)] else []
  | [] => []
  end.

Definition can_repeat (hi : option nat) : bool :=
  match hi with
  | Some O => false
  | _ => true
  end.

Definition same_position (last : option nat) (s : str) : bool :=
  match last with
  | Some n => Nat.eqb n (List.length s)
  | None => false
  end.

(** [sre]'s repeat loop ([MAX_UNTIL] when [greedy], [MIN_UNTIL] otherwise):
    [lo] iterations are owed; after them one more is tried while [hi] allows
    it and the previous optional iteration moved ([last] is where it
    started, as a length of remaining text).  The greedy loop prefers one
    more iteration to the tail, the lazy loop the tail. *)
Fixpoint until (body : str -> groups -> list state) (greedy : bool)
         (fuel lo : nat) (hi : option nat) (last : option nat)
         (s : str) (g : groups) : list state :=
  match fuel with
  | O => []
  | S fuel' =>
      match lo with
      | S lo' =>
          flat_map
            (fun st => until body greedy fuel' lo' (option_map pred hi) last (fst st) (snd st))
            (body s g)
      | O =>
          let more :=
            if can_repeat hi && negb (same_position last s)
            then flat_map
                   (fun st => until body greedy fuel' O (option_map pred hi)
                                    (Some (List.length s)) (fst st) (snd st))
                   (body s g)
            else [] in
          if greedy then more ++ [(s, g)] else (s, g) :: more
      end
  end.

(** Every way [r] matches at the head of [s], in the order a backtracking
    engine finds them. *)
Fixpoint matches (fl : flags) (r : regex) (s : str) (g : groups) : list state :=
  match r with
  | Eps => [(s, g)]
  | Literal a => one (literal_match fl a) s g
  | AnyChar => one (any_match fl) s g
  | InSet items => one (set_match fl items) s g
  | Seq r1 r2 => flat_map (fun st => matches fl r2 (fst st) (snd st)) (matches fl r1 s g)
  | Alt r1 r2 => matches fl r1 s g ++ matches fl r2 s g
  | Group i r1 =>
      map (fun st => (fst st, set_group i (consumed s (fst st)) (snd st)))
          (matches fl r1 s g)
  | MaxRepeat lo hi r1 => until (matches fl r1) true (lo + List.length s + 2) lo hi None s g
  | MinRepeat lo hi r1 => until (matches fl r1) false (lo + List.length s + 2) lo hi None s g
  end.

(** *** [re.search] and the match object *)

Record Match : Type := {
  m_start : nat;            (* m.start() *)
  m_group0 : str;           (* m.group(0) *)
  m_groups : groups         (* m.groups(), [None] for a group that took no part *)
}.

(** [m.group(i)] for [i >= 1]. *)
Definition m_group (m : Match) (i : nat) : option str :=
  match i with
  | O => Some (m_group0 m)
  | S n => nth n (m_groups m) None
  end.

(** The scan of [re.search]: the first start, from the left, at which the
    pattern matches, with the first way it matches there. *)
Fixpoint search_from (fl : flags) (r : regex) (n : nat) (s : str) : option Match :=
  match matches fl r s (repeat None (ngroups r)) with
  | st :: _ =>
      Some {| m_start := n; m_group0 := consumed s (fst st); m_groups := snd st |}
  | [] =>
      match s with
      | [] => None
      | _ :: s' => search_from fl r (S n) s'
      end
  end.

(** [re.search(r, text, flags)]. *)
Definition search (fl : flags) (r : regex) (text : str) : option Match :=
  search_from fl r 0 text.

(** *** [re.sub] *)

(** The lengths read by the ways [r] matches at the head of [s]. *)
Definition match_lengths (fl : flags) (r : regex) (s : str) : list nat :=
  map (fun st => List.length s - List.length (fst st)) (matches fl r s (repeat None (ngroups r))).

(** The scan of [re.sub] with a constant replacement.  [skip] code points
    still belong to the match being replaced.  At a free position the first
    way to match is replaced; after an empty match the engine must advance,
    so at the same position only a way that reads something is taken
    next. *)
Fixpoint sub_scan (fl : flags) (r : regex) (repl : str) (skip : nat) (s : str) : str :=
  match skip with
  | S k =>
      match s with
      | [] => []
      | _ :: s' => sub_scan fl r repl k s'
      end
  | O =>
      let copy :=
        match s with
        | [] => []
        | c :: s' => c :: sub_scan fl r repl 0 s'
        end in
      let take (n : nat) :=
        match s with
        | [] => []
        | _ :: s' => sub_scan fl r repl n s'
        end in
      match match_lengths fl r s with
      | [] => copy
      | S n :: _ => repl ++ take n
      | O :: rest =>
          repl ++
          match find (fun n => negb (Nat.eqb n 0)) rest with
          | Some (S n) => repl ++ take n
          | _ => copy
          end
      end
  end.

(** [re.sub(r, repl, text)] for a replacement without group references. *)
Definition sub (fl : flags) (r : regex) (repl : str) (text : str) : str :=
  sub_scan fl r repl 0 text.

(** *** Reading a pattern *)

(** The bodies of the groups numbered [i] in [r]. *)
Fixpoint group_bodies (i : nat) (r : regex) : list regex :=
  match r with
  | Eps | Literal _ | AnyChar | InSet _ => []
  | Seq r1 r2 | Alt r1 r2 => group_bodies i r1 ++ group_bodies i r2
  | Group j r1 => (if Nat.eqb i j then [r1] else []) ++ group_bodies i r1
  | MaxRepeat _ _ r1 | MinRepeat _ _ r1 => group_bodies i r1
  end.

(** [s1] is what is left of [s] after some prefix. *)
Definition suffix (s1 s : str) : Prop := exists w, s = w ++ s1.

(** *** Writing patterns *)

(** The sequence and the alternation of a list of patterns. *)
Definition cat (rs : list regex) : regex := fold_right Seq Eps rs.

Fixpoint alt (rs : list regex) : regex :=
  match rs with
  | [] => Eps
  | [r] => r
  | r :: rest => Alt r (alt rest)
  end.

(** The literals of a string. *)
Definition chars (s : string) : list regex := map Literal (list_ascii_of_string s).

(** A word of the pattern as one pattern. *)
Definition word (s : string) : regex := cat (chars s).

Definition star (r : regex) : regex := MaxRepeat 0 None r.
Definition star_lazy (r : regex) : regex := MinRepeat 0 None r.
Definition plus (r : regex) : regex := MaxRepeat 1 None r.
Definition opt (r : regex) : regex := MaxRepeat 0 (Some 1) r.
Definition times (n : nat) (r : regex) : regex := MaxRepeat n (Some n) r.

Definition space : set_item := SCategory CATEGORY_SPACE.
Definition digit : set_item := SCategory CATEGORY_DIGIT.
Definition wordchar : set_item := SCategory CATEGORY_WORD.

End Re.

(** ** Dates: what [dateutil] hands back and how [isoformat] prints it *)

Module Datetime.

Local Open Scope N_scope.

Definition is_leap (y : N) : bool :=
  ((y mod 4 =? 0) && negb (y mod 100 =? 0)) || (y mod 400 =? 0).

Definition days_in_month (y m : N) : N :=
  if m =? 2 then (if is_leap y then 29 else 28)
  else if (m =? 4) || (m =? 6) || (m =? 9) || (m =? 11) then 30
  else 31.

(** The invariant of Python's [date]: a day of the proleptic Gregorian
    calendar in the years 1 to 9999. *)
Definition valid_date (y m d : N) : bool :=
  (1 <=? y) && (y <=? 9999) && (1 <=? m) && (m <=? 12) &&
  (1 <=? d) && (d <=? days_in_month y m).

Record date : Type := {
  year : N;
  month : N;
  day : N;
  date_ok : valid_date year month day = true
}.

(** A [datetime]: a date and a time of day. *)
Record datetime : Type := {
  dt_date : date;          (* dt.date() *)
  hour : N;
  minute : N;
  second : N;
  microsecond : N
}.

Fixpoint digits_of (fuel : nat) (n : N) (acc : str) : str :=
  match fuel with
  | O => acc
  | S fuel' =>
      let acc' := (0x30 + n mod 10) :: acc in
      if n / 10 =? 0 then acc' else digits_of fuel' (n / 10) acc'
  end.

(** The decimal writing of a number ([%d]). *)
Definition decimal (n : N) : str := digits_of (S (N.to_nat (N.log2 n))) n [].

(** [%0wd]: at least [w] digits, zeros in front. *)
Definition zero_padded (w : nat) (n : N) : str :=
  let d := decimal n in repeat 0x30 (w - List.length d) ++ d.

(** [d.isoformat()], which is ["%04d-%02d-%02d" % (year, month, day)]. *)
Definition isoformat (d : date) : str :=
  zero_padded 4 (year d) ++ [0x2D] ++ zero_padded 2 (month d) ++ [0x2D] ++ zero_padded 2 (day d).

End Datetime.

(** ** The program: [app.py] *)

Import Unicode Str Re Datetime.

(** The flags of the searches: [find_first_regex] passes
    [re.IGNORECASE|re.DOTALL], the last-four searches [re.IGNORECASE], and
    [normalize_spaces] none. *)
Definition IGNORECASE_DOTALL : flags := {| ignorecase := true; dotall := true |}.
Definition IGNORECASE : flags := {| ignorecase := true; dotall := false |}.
Definition NOFLAGS : flags := {| ignorecase := false; dotall := false |}.

(** *** The patterns, as the source writes them *)

(** The pattern of [normalize_spaces]. *)
(* r'\s+' *)
Definition whitespace_run : regex :=
  cat [plus (InSet [space])].

(** [parse_amex]: the two searches for the last four digits. *)
(* r'Card Member since.*|Card ending in[:\s]*?(\d{4})' *)
Definition amex_last4_card : regex :=
  alt [cat (chars "Card Member since" ++ [star AnyChar]);
    cat (chars "Card ending in" ++ [star_lazy (InSet [SLiteral ":"; space]);
    Group 1 (cat [times 4 (InSet [digit])])])].

(* r'ending in[:\s]*?(\d{4})' *)
Definition amex_last4_any : regex :=
  cat (chars "ending in" ++ [star_lazy (InSet [SLiteral ":"; space]);
    Group 1 (cat [times 4 (InSet [digit])])]).

(** [parse_amex]: card variant, statement period, due date, amount due. *)
(* r'(Platinum|Gold|Green|Centurion|Blue|Everyday|Cashback|Corporate)\s+Card' *)
(* r'American Express\s+([A-Za-z]+)\s+Card' *)
Definition amex_variant : list regex :=
  [ cat ([Group 1 (alt [word "Platinum"; word "Gold"; word "Green"; word "Centurion";
      word "Blue"; word "Everyday"; word "Cashback"; word "Corporate"]);
      plus (InSet [space])] ++ chars "Card");
    cat (chars "American Express" ++ [plus (InSet [space]);
      Group 1 (cat [plus (InSet [SRange "A" "Z"; SRange "a" "z"])]);
      plus (InSet [space])] ++ chars "Card") ].

(* r'Statement Period[:\s]*([\w,\s\-/\d]+)' *)
(* r'Statement Summary\s*Period[:\s]*([\w,\s\-/\d]+)' *)
(* r'For the period[:\s]*([\w,\s\-/\d]+)' *)
Definition amex_period : list regex :=
  [ cat (chars "Statement Period" ++ [star (InSet [SLiteral ":"; space]);
      Group 1 (cat [plus (InSet [wordchar; SLiteral ","; space; SLiteral "-"; SLiteral "/";
      digit])])]);
    cat (chars "Statement Summary" ++ [star (InSet [space])] ++ chars "Period" ++ [star (InSet [SLiteral ":";
      space]); Group 1 (cat [plus (InSet [wordchar; SLiteral ","; space; SLiteral "-";
      SLiteral "/"; digit])])]);
    cat (chars "For the period" ++ [star (InSet [SLiteral ":"; space]);
      Group 1 (cat [plus (InSet [wordchar; SLiteral ","; space; SLiteral "-"; SLiteral "/";
      digit])])]) ].

(* r'Due Date[:\s]*([A-Za-z0-9 ,\-]+)' *)
(* r'Payment Due Date[:\s]*([A-Za-z0-9 ,\-]+)' *)
Definition amex_due : list regex :=
  [ cat (chars "Due Date" ++ [star (InSet [SLiteral ":"; space]);
      Group 1 (cat [plus (InSet [SRange "A" "Z"; SRange "a" "z"; SRange "0" "9"; SLiteral " ";
      SLiteral ","; SLiteral "-"])])]);
    cat (chars "Payment Due Date" ++ [star (InSet [SLiteral ":"; space]);
      Group 1 (cat [plus (InSet [SRange "A" "Z"; SRange "a" "z"; SRange "0" "9"; SLiteral " ";
      SLiteral ","; SLiteral "-"])])]) ].

(* r'Amount Due[:\s]*\$?([,\d\.]+)' *)
(* r'Total Amount Due[:\s]*\$?([,\d\.]+)' *)
(* r'New Balance[:\s]*\$?([,\d\.]+)' *)
Definition amex_amount : list regex :=
  [ cat (chars "Amount Due" ++ [star (InSet [SLiteral ":"; space]); opt (Literal "$");
      Group 1 (cat [plus (InSet [SLiteral ","; digit; SLiteral "."])])]);
    cat (chars "Total Amount Due" ++ [star (InSet [SLiteral ":"; space]); opt (Literal "$");
      Group 1 (cat [plus (InSet [SLiteral ","; digit; SLiteral "."])])]);
    cat (chars "New Balance" ++ [star (InSet [SLiteral ":"; space]); opt (Literal "$");
      Group 1 (cat [plus (InSet [SLiteral ","; digit; SLiteral "."])])]) ].

(** [parse_chase]. *)
(* r'Account ending in[:\s]*?(\d{4})' *)
Definition chase_last4_account : regex :=
  cat (chars "Account ending in" ++ [star_lazy (InSet [SLiteral ":"; space]);
    Group 1 (cat [times 4 (InSet [digit])])]).

(* r'Card ending in[:\s]*?(\d{4})' *)
Definition chase_last4_card : regex :=
  cat (chars "Card ending in" ++ [star_lazy (InSet [SLiteral ":"; space]);
    Group 1 (cat [times 4 (InSet [digit])])]).

(* r'(Sapphire|Freedom|Ink|Slate|Preferred|Reserve|Bold)\s+(?:Card|Account|Cardmember)?' *)
(* r'Chase\s+([A-Za-z]+)\s+Card' *)
Definition chase_variant : list regex :=
  [ cat [Group 1 (alt [word "Sapphire"; word "Freedom"; word "Ink"; word "Slate";
      word "Preferred"; word "Reserve"; word "Bold"]); plus (InSet [space]);
      opt (alt [word "Card"; word "Account"; word "Cardmember"])];
    cat (chars "Chase" ++ [plus (InSet [space]); Group 1 (cat [plus (InSet [SRange "A" "Z";
      SRange "a" "z"])]); plus (InSet [space])] ++ chars "Card") ].

(* r'Statement Period[:\s]*([\w,\s\-/\d]+)' *)
(* r'For the period[:\s]*([\w,\s\-/\d]+)' *)
Definition chase_period : list regex :=
  [ cat (chars "Statement Period" ++ [star (InSet [SLiteral ":"; space]);
      Group 1 (cat [plus (InSet [wordchar; SLiteral ","; space; SLiteral "-"; SLiteral "/";
      digit])])]);
    cat (chars "For the period" ++ [star (InSet [SLiteral ":"; space]);
      Group 1 (cat [plus (InSet [wordchar; SLiteral ","; space; SLiteral "-"; SLiteral "/";
      digit])])]) ].

(* r'Payment Due Date[:\s]*([A-Za-z0-9 ,\-]+)' *)
(* r'Due Date[:\s]*([A-Za-z0-9 ,\-]+)' *)
Definition chase_due : list regex :=
  [ cat (chars "Payment Due Date" ++ [star (InSet [SLiteral ":"; space]);
      Group 1 (cat [plus (InSet [SRange "A" "Z"; SRange "a" "z"; SRange "0" "9"; SLiteral " ";
      SLiteral ","; SLiteral "-"])])]);
    cat (chars "Due Date" ++ [star (InSet [SLiteral ":"; space]);
      Group 1 (cat [plus (InSet [SRange "A" "Z"; SRange "a" "z"; SRange "0" "9"; SLiteral " ";
      SLiteral ","; SLiteral "-"])])]) ].

(* r'Total Amount Due[:\s]*\$?([,\d\.]+)' *)
(* r'New Balance[:\s]*\$?([,\d\.]+)' *)
(* r'Amount Due[:\s]*\$?([,\d\.]+)' *)
Definition chase_amount : list regex :=
  [ cat (chars "Total Amount Due" ++ [star (InSet [SLiteral ":"; space]); opt (Literal "$");
      Group 1 (cat [plus (InSet [SLiteral ","; digit; SLiteral "."])])]);
    cat (chars "New Balance" ++ [star (InSet [SLiteral ":"; space]); opt (Literal "$");
      Group 1 (cat [plus (InSet [SLiteral ","; digit; SLiteral "."])])]);
    cat (chars "Amount Due" ++ [star (InSet [SLiteral ":"; space]); opt (Literal "$");
      Group 1 (cat [plus (InSet [SLiteral ","; digit; SLiteral "."])])]) ].

(** [parse_citi]. *)
(* r'Card ending in[:\s]*?(\d{4})' *)
Definition citi_last4_card : regex :=
  cat (chars "Card ending in" ++ [star_lazy (InSet [SLiteral ":"; space]);
    Group 1 (cat [times 4 (InSet [digit])])]).

(* r'ending in (\d{4})' *)
Definition citi_last4_any : regex :=
  cat (chars "ending in " ++ [Group 1 (cat [times 4 (InSet [digit])])]).

(* r'(Premier|Prestige|Gold|Platinum|Custom|Simplicity|Double Cash|Double)\s+Card' *)
(* r'Citi\s+([A-Za-z]+)\s+Card' *)
Definition citi_variant : list regex :=
  [ cat ([Group 1 (alt [word "Premier"; word "Prestige"; word "Gold"; word "Platinum";
      word "Custom"; word "Simplicity"; word "Double Cash"; word "Double"]);
      plus (InSet [space])] ++ chars "Card");
    cat (chars "Citi" ++ [plus (InSet [space]); Group 1 (cat [plus (InSet [SRange "A" "Z";
      SRange "a" "z"])]); plus (InSet [space])] ++ chars "Card") ].

(* r'Statement Period[:\s]*([\w,\s\-/\d]+)' *)
(* r'Statement Date[:\s]*([\w,\s\-/\d]+)' *)
Definition citi_period : list regex :=
  [ cat (chars "Statement Period" ++ [star (InSet [SLiteral ":"; space]);
      Group 1 (cat [plus (InSet [wordchar; SLiteral ","; space; SLiteral "-"; SLiteral "/";
      digit])])]);
    cat (chars "Statement Date" ++ [star (InSet [SLiteral ":"; space]);
      Group 1 (cat [plus (InSet [wordchar; SLiteral ","; space; SLiteral "-"; SLiteral "/";
      digit])])]) ].

(* r'Payment Due Date[:\s]*([A-Za-z0-9 ,\-]+)' *)
(* r'Due Date[:\s]*([A-Za-z0-9 ,\-]+)' *)
Definition citi_due : list regex :=
  [ cat (chars "Payment Due Date" ++ [star (InSet [SLiteral ":"; space]);
      Group 1 (cat [plus (InSet [SRange "A" "Z"; SRange "a" "z"; SRange "0" "9"; SLiteral " ";
      SLiteral ","; SLiteral "-"])])]);
    cat (chars "Due Date" ++ [star (InSet [SLiteral ":"; space]);
      Group 1 (cat [plus (InSet [SRange "A" "Z"; SRange "a" "z"; SRange "0" "9"; SLiteral " ";
      SLiteral ","; SLiteral "-"])])]) ].

(* r'Total Amount Due[:\s]*\$?([,\d\.]+)' *)
(* r'Amount due now[:\s]*\$?([,\d\.]+)' *)
(* r'Current Due[:\s]*\$?([,\d\.]+)' *)
Definition citi_amount : list regex :=
  [ cat (chars "Total Amount Due" ++ [star (InSet [SLiteral ":"; space]); opt (Literal "$");
      Group 1 (cat [plus (InSet [SLiteral ","; digit; SLiteral "."])])]);
    cat (chars "Amount due now" ++ [star (InSet [SLiteral ":"; space]); opt (Literal "$");
      Group 1 (cat [plus (InSet [SLiteral ","; digit; SLiteral "."])])]);
    cat (chars "Current Due" ++ [star (InSet [SLiteral ":"; space]); opt (Literal "$");
      Group 1 (cat [plus (InSet [SLiteral ","; digit; SLiteral "."])])]) ].

(** [parse_bofa]. *)
(* r'Account Number[:\s]*\*+(\d{4})' *)
Definition bofa_last4_account : regex :=
  cat (chars "Account Number" ++ [star (InSet [SLiteral ":"; space]); plus (Literal "*");
    Group 1 (cat [times 4 (InSet [digit])])]).

(* r'ending in (\d{4})' *)
Definition bofa_last4_any : regex :=
  cat (chars "ending in " ++ [Group 1 (cat [times 4 (InSet [digit])])]).

(* r'(Preferred|Platinum|Cash Rewards|Travel Rewards|Customized Cash Rewards)\s+Card' *)
(* r'Bank of America\s+([A-Za-z]+)\s+Card' *)
Definition bofa_variant : list regex :=
  [ cat ([Group 1 (alt [word "Preferred"; word "Platinum"; word "Cash Rewards";
      word "Travel Rewards"; word "Customized Cash Rewards"]);
      plus (InSet [space])] ++ chars "Card");
    cat (chars "Bank of America" ++ [plus (InSet [space]);
      Group 1 (cat [plus (InSet [SRange "A" "Z"; SRange "a" "z"])]);
      plus (InSet [space])] ++ chars "Card") ].

(* r'Statement Period[:\s]*([\w,\s\-/\d]+)' *)
(* r'Activity Period[:\s]*([\w,\s\-/\d]+)' *)
Definition bofa_period : list regex :=
  [ cat (chars "Statement Period" ++ [star (InSet [SLiteral ":"; space]);
      Group 1 (cat [plus (InSet [wordchar; SLiteral ","; space; SLiteral "-"; SLiteral "/";
      digit])])]);
    cat (chars "Activity Period" ++ [star (InSet [SLiteral ":"; space]);
      Group 1 (cat [plus (InSet [wordchar; SLiteral ","; space; SLiteral "-"; SLiteral "/";
      digit])])]) ].

(* r'Payment Due Date[:\s]*([A-Za-z0-9 ,\-]+)' *)
(* r'Due Date[:\s]*([A-Za-z0-9 ,\-]+)' *)
Definition bofa_due : list regex :=
  [ cat (chars "Payment Due Date" ++ [star (InSet [SLiteral ":"; space]);
      Group 1 (cat [plus (InSet [SRange "A" "Z"; SRange "a" "z"; SRange "0" "9"; SLiteral " ";
      SLiteral ","; SLiteral "-"])])]);
    cat (chars "Due Date" ++ [star (InSet [SLiteral ":"; space]);
      Group 1 (cat [plus (InSet [SRange "A" "Z"; SRange "a" "z"; SRange "0" "9"; SLiteral " ";
      SLiteral ","; SLiteral "-"])])]) ].

(* r'Total Due[:\s]*\$?([,\d\.]+)' *)
(* r'Amount Due[:\s]*\$?([,\d\.]+)' *)
(* r'Current Balance[:\s]*\$?([,\d\.]+)' *)
Definition bofa_amount : list regex :=
  [ cat (chars "Total Due" ++ [star (InSet [SLiteral ":"; space]); opt (Literal "$");
      Group 1 (cat [plus (InSet [SLiteral ","; digit; SLiteral "."])])]);
    cat (chars "Amount Due" ++ [star (InSet [SLiteral ":"; space]); opt (Literal "$");
      Group 1 (cat [plus (InSet [SLiteral ","; digit; SLiteral "."])])]);
    cat (chars "Current Balance" ++ [star (InSet [SLiteral ":"; space]); opt (Literal "$");
      Group 1 (cat [plus (InSet [SLiteral ","; digit; SLiteral "."])])]) ].

(** [parse_hsbc]. *)
(* r'Card number[:\s]*\*+(\d{4})' *)
Definition hsbc_last4_number : regex :=
  cat (chars "Card number" ++ [star (InSet [SLiteral ":"; space]); plus (Literal "*");
    Group 1 (cat [times 4 (InSet [digit])])]).

(* r'ending in[:\s]*(\d{4})' *)
Definition hsbc_last4_any : regex :=
  cat (chars "ending in" ++ [star (InSet [SLiteral ":"; space]);
    Group 1 (cat [times 4 (InSet [digit])])]).

(* r'(Premier|Advance|Platinum|Gold|Red)\s+Card' *)
(* r'HSBC\s+([A-Za-z]+)\s+Card' *)
Definition hsbc_variant : list regex :=
  [ cat ([Group 1 (alt [word "Premier"; word "Advance"; word "Platinum"; word "Gold";
      word "Red"]); plus (InSet [space])] ++ chars "Card");
    cat (chars "HSBC" ++ [plus (InSet [space]); Group 1 (cat [plus (InSet [SRange "A" "Z";
      SRange "a" "z"])]); plus (InSet [space])] ++ chars "Card") ].

(* r'Statement Period[:\s]*([\w,\s\-/\d]+)' *)
(* r'Account summary for the period[:\s]*([\w,\s\-/\d]+)' *)
Definition hsbc_period : list regex :=
  [ cat (chars "Statement Period" ++ [star (InSet [SLiteral ":"; space]);
      Group 1 (cat [plus (InSet [wordchar; SLiteral ","; space; SLiteral "-"; SLiteral "/";
      digit])])]);
    cat (chars "Account summary for the period" ++ [star (InSet [SLiteral ":"; space]);
      Group 1 (cat [plus (InSet [wordchar; SLiteral ","; space; SLiteral "-"; SLiteral "/";
      digit])])]) ].

(* r'Due Date[:\s]*([A-Za-z0-9 ,\-]+)' *)
(* r'Payment Due Date[:\s]*([A-Za-z0-9 ,\-]+)' *)
Definition hsbc_due : list regex :=
  [ cat (chars "Due Date" ++ [star (InSet [SLiteral ":"; space]);
      Group 1 (cat [plus (InSet [SRange "A" "Z"; SRange "a" "z"; SRange "0" "9"; SLiteral " ";
      SLiteral ","; SLiteral "-"])])]);
    cat (chars "Payment Due Date" ++ [star (InSet [SLiteral ":"; space]);
      Group 1 (cat [plus (InSet [SRange "A" "Z"; SRange "a" "z"; SRange "0" "9"; SLiteral " ";
      SLiteral ","; SLiteral "-"])])]) ].

(* r'Total Amount Due[:\s]*\$?([,\d\.]+)' *)
(* r'Amount Due[:\s]*\$?([,\d\.]+)' *)
(* r'Total due[:\s]*\$?([,\d\.]+)' *)
Definition hsbc_amount : list regex :=
  [ cat (chars "Total Amount Due" ++ [star (InSet [SLiteral ":"; space]); opt (Literal "$");
      Group 1 (cat [plus (InSet [SLiteral ","; digit; SLiteral "."])])]);
    cat (chars "Amount Due" ++ [star (InSet [SLiteral ":"; space]); opt (Literal "$");
      Group 1 (cat [plus (InSet [SLiteral ","; digit; SLiteral "."])])]);
    cat (chars "Total due" ++ [star (InSet [SLiteral ":"; space]); opt (Literal "$");
      Group 1 (cat [plus (InSet [SLiteral ","; digit; SLiteral "."])])]) ].

(** [parse_generic]. *)
(* r'ending in[:\s]*?(\d{4})' *)
(* r'Account Number[:\s]*\*+(\d{4})' *)
(* r'Card\s+ending[:\s]*?(\d{4})' *)
Definition generic_last4 : list regex :=
  [ cat (chars "ending in" ++ [star_lazy (InSet [SLiteral ":"; space]);
      Group 1 (cat [times 4 (InSet [digit])])]);
    cat (chars "Account Number" ++ [star (InSet [SLiteral ":"; space]); plus (Literal "*");
      Group 1 (cat [times 4 (InSet [digit])])]);
    cat (chars "Card" ++ [plus (InSet [space])] ++ chars "ending" ++ [star_lazy (InSet [SLiteral ":";
      space]); Group 1 (cat [times 4 (InSet [digit])])]) ].

(* r'(Platinum|Gold|Silver|Classic|Cashback|Rewards|Signature|Infinite)\s+(?:Card|Account)' *)
(* r'Card Type[:\s]*([A-Za-z0-9 ]+)' *)
Definition generic_variant : list regex :=
  [ cat [Group 1 (alt [word "Platinum"; word "Gold"; word "Silver"; word "Classic";
      word "Cashback"; word "Rewards"; word "Signature"; word "Infinite"]);
      plus (InSet [space]); alt [word "Card"; word "Account"]];
    cat (chars "Card Type" ++ [star (InSet [SLiteral ":"; space]);
      Group 1 (cat [plus (InSet [SRange "A" "Z"; SRange "a" "z"; SRange "0" "9";
      SLiteral " "])])]) ].

(* r'(Statement Period|Statement Date|For the period)[:\s]*([\w,\s\-/\d]+)' *)
(* r'For the period[:\s]*([\w,\s\-/\d]+)' *)
Definition generic_period : list regex :=
  [ cat [Group 1 (alt [word "Statement Period"; word "Statement Date"; word "For the period"]);
      star (InSet [SLiteral ":"; space]); Group 2 (cat [plus (InSet [wordchar; SLiteral ",";
      space; SLiteral "-"; SLiteral "/"; digit])])];
    cat (chars "For the period" ++ [star (InSet [SLiteral ":"; space]);
      Group 1 (cat [plus (InSet [wordchar; SLiteral ","; space; SLiteral "-"; SLiteral "/";
      digit])])]) ].

(* r'(Payment Due Date|Due Date)[:\s]*([A-Za-z0-9 ,\-]+)' *)
Definition generic_due : list regex :=
  [ cat [Group 1 (alt [word "Payment Due Date"; word "Due Date"]); star (InSet [SLiteral ":";
      space]); Group 2 (cat [plus (InSet [SRange "A" "Z"; SRange "a" "z"; SRange "0" "9";
      SLiteral " "; SLiteral ","; SLiteral "-"])])] ].

(* r'(Total Amount Due|Amount Due|New Balance|Current Balance)[:\s]*\$?([,\d\.]+)' *)
Definition generic_amount : list regex :=
  [ cat [Group 1 (alt [word "Total Amount Due"; word "Amount Due"; word "New Balance";
      word "Current Balance"]); star (InSet [SLiteral ":"; space]); opt (Literal "$");
      Group 2 (cat [plus (InSet [SLiteral ","; digit; SLiteral "."])])] ].

(** *** Utility helpers *)

(** [normalize_spaces]: [re.sub(r'\s+', ' ', s).strip()]. *)
Definition normalize_spaces (s : str) : str :=
  strip (Re.sub NOFLAGS whitespace_run (lit " ") s).

(** The output of one extraction run: the dictionary the extractors build
    from [dict.fromkeys([...])], [issuer] always a string, the other five
    keys a string or [None]. *)
Record FieldRecord : Type := {
  issuer : str;
  last4 : option str;
  card_variant : option str;
  statement_period : option str;
  due_date : option str;
  amount_due : option str
}.

(** The dictionary [parse_statement] returns: the extractor's, with the
    key [raw_sample_snippet] added. *)
Record Statement : Type := {
  fields : FieldRecord;
  raw_sample_snippet : str
}.

(** The raw bytes of an uploaded document. *)
Definition bytes := list Byte.byte.

(** [m.groups()] is a non-empty tuple. *)
Definition has_groups (m : Match) : bool :=
  match m_groups m with
  | [] => false
  | _ :: _ => true
  end.

(** [find_first_regex]: the first pattern of the list that matches, with
    group 1 of its match when the pattern has groups and the whole match
    otherwise, stripped.  [m.group(1)] is [None] when group 1 took no part
    in the match, and [None.strip()] raises. *)
Fixpoint find_first_regex (text : str) (patterns : list regex)
  : outcome (option (regex * str)) :=
  match patterns with
  | [] => Returns None
  | p :: rest =>
      match Re.search IGNORECASE_DOTALL p text with
      | Some m =>
          if has_groups m
          then match m_group m 1 with
               | Some g => Returns (Some (p, strip g))
               | None => Raises AttributeError
               end
          else Returns (Some (p, strip (m_group0 m)))
      | None => find_first_regex text rest
      end
  end.

(** [v[1] if v else None] *)
Definition second_of (v : option (regex * str)) : option str := option_map snd v.

Fixpoint str_eqb (a b : str) : bool :=
  match a, b with
  | [], [] => true
  | x :: a', y :: b' => N.eqb x y && str_eqb a' b'
  | _, _ => false
  end.

(** *** Issuer detection *)

Definition detect_issuer (text : str) : str :=
  let t := lower text in
  if contains (lit "american express") t || contains (lit "amex") t
  then lit "American Express"
  else if contains (lit "chase") t || contains (lit "chase cardmember") t
  then lit "Chase"
  else if contains (lit "citibank") t || contains (lit "citi") t
  then lit "Citi"
  else if contains (lit "bank of america") t || contains (lit "bofa") t
  then lit "Bank of America"
  else if contains (lit "hsbc") t
  then lit "HSBC"
  else lit "Unknown".

(** [re.search(a, text, re.IGNORECASE) or re.search(b, text, re.IGNORECASE)] *)
Definition search_or (a b : regex) (text : str) : option Match :=
  match Re.search IGNORECASE a text with
  | Some m => Some m
  | None => Re.search IGNORECASE b text
  end.

(** [m.group(1) if m else None] *)
Definition group1_of (m : option Match) : option str :=
  match m with
  | Some m => m_group m 1
  | None => None
  end.

Section Program.

(** [dateutil.parser.parse(text, dayfirst=False, fuzzy=True)]: the lenient
    date parser, a third-party library. *)
Variable dateutil_parse : str -> outcome datetime.

(** [pdfplumber.open(io.BytesIO(pdf_bytes)).pages], each page given by what
    its [extract_text()] does. *)
Variable pdf_pages : bytes -> outcome (list (outcome (option str))).

(** [try_parse_date]: whatever the parser raises is caught. *)
Definition try_parse_date (text : str) : option str :=
  match dateutil_parse text with
  | Returns dt => Some (isoformat (dt_date dt))
  | Raises _ => None
  end.

(** [try_parse_date(dd[1]) if dd else None] *)
Definition date_of (dd : option (regex * str)) : option str :=
  match dd with
  | Some d => try_parse_date (snd d)
  | None => None
  end.

(** [normalize_spaces(sp[1]) if sp else None] *)
Definition period_of (sp : option (regex * str)) : option str :=
  option_map (fun p => normalize_spaces (snd p)) sp.

(** *** Parsers per issuer *)

Definition parse_amex (text : str) : outcome FieldRecord :=
  let m := search_or amex_last4_card amex_last4_any text in
  let l4 := match m with
            | Some m => if has_groups m then m_group m 1 else None
            | None => None
            end in
  v <- find_first_regex text amex_variant ;;
  sp <- find_first_regex text amex_period ;;
  dd <- find_first_regex text amex_due ;;
  ad <- find_first_regex text amex_amount ;;
  Returns {| issuer := lit "American Express"; last4 := l4;
             card_variant := second_of v; statement_period := period_of sp;
             due_date := date_of dd; amount_due := second_of ad |}.

Definition parse_chase (text : str) : outcome FieldRecord :=
  let m := search_or chase_last4_account chase_last4_card text in
  v <- find_first_regex text chase_variant ;;
  sp <- find_first_regex text chase_period ;;
  dd <- find_first_regex text chase_due ;;
  ad <- find_first_regex text chase_amount ;;
  Returns {| issuer := lit "Chase"; last4 := group1_of m;
             card_variant := second_of v; statement_period := period_of sp;
             due_date := date_of dd; amount_due := second_of ad |}.

Definition parse_citi (text : str) : outcome FieldRecord :=
  let m := search_or citi_last4_card citi_last4_any text in
  v <- find_first_regex text citi_variant ;;
  sp <- find_first_regex text citi_period ;;
  dd <- find_first_regex text citi_due ;;
  ad <- find_first_regex text citi_amount ;;
  Returns {| issuer := lit "Citi"; last4 := group1_of m;
             card_variant := second_of v; statement_period := period_of sp;
             due_date := date_of dd; amount_due := second_of ad |}.

Definition parse_bofa (text : str) : outcome FieldRecord :=
  let m := search_or bofa_last4_account bofa_last4_any text in
  v <- find_first_regex text bofa_variant ;;
  sp <- find_first_regex text bofa_period ;;
  dd <- find_first_regex text bofa_due ;;
  ad <- find_first_regex text bofa_amount ;;
  Returns {| issuer := lit "Bank of America"; last4 := group1_of m;
             card_variant := second_of v; statement_period := period_of sp;
             due_date := date_of dd; amount_due := second_of ad |}.

Definition parse_hsbc (text : str) : outcome FieldRecord :=
  let m := search_or hsbc_last4_number hsbc_last4_any text in
  v <- find_first_regex text hsbc_variant ;;
  sp <- find_first_regex text hsbc_period ;;
  dd <- find_first_regex text hsbc_due ;;
  ad <- find_first_regex text hsbc_amount ;;
  Returns {| issuer := lit "HSBC"; last4 := group1_of m;
             card_variant := second_of v; statement_period := period_of sp;
             due_date := date_of dd; amount_due := second_of ad |}.

(** *** Generic fallback parser *)

Definition parse_generic (text : str) : outcome FieldRecord :=
  l4 <- find_first_regex text generic_last4 ;;
  variant <- find_first_regex text generic_variant ;;
  sp <- find_first_regex text generic_period ;;
  dd <- find_first_regex text generic_due ;;
  ad <- find_first_regex text generic_amount ;;
  Returns {| issuer := lit "Unknown"; last4 := second_of l4;
             card_variant := second_of variant; statement_period := period_of sp;
             due_date := date_of dd; amount_due := second_of ad |}.

(** *** Master extraction pipeline *)

(** [page.extract_text() or ""], with [""] when the call raises. *)
Definition page_text (page : outcome (option str)) : str :=
  match page with
  | Returns (Some text) => text
  | Returns None => []
  | Raises _ => []
  end.

Definition nonempty (s : str) : bool :=
  match s with
  | [] => false
  | _ :: _ => true
  end.

(** [extract_text_from_pdf_bytes]: the non-empty page texts, joined by two
    line feeds. *)
Definition extract_text_from_pdf_bytes (pdf_bytes : bytes) : outcome str :=
  pages <- pdf_pages pdf_bytes ;;
  Returns (join [0xA; 0xA]%N (filter nonempty (map page_text pages))).

(** The extractor [parse_statement] picks for a detected issuer. *)
Definition parser_for (issuer_name : str) : str -> outcome FieldRecord :=
  if str_eqb issuer_name (lit "American Express") then parse_amex
  else if str_eqb issuer_name (lit "Chase") then parse_chase
  else if str_eqb issuer_name (lit "Citi") then parse_citi
  else if str_eqb issuer_name (lit "Bank of America") then parse_bofa
  else if str_eqb issuer_name (lit "HSBC") then parse_hsbc
  else parse_generic.

(** [parse_statement], from the text the extraction produced on. *)
Definition parse_text (text : str) : outcome Statement :=
  let text_norm := normalize_spaces text in
  let issuer_name := detect_issuer text_norm in
  result <- parser_for issuer_name text_norm ;;
  Returns {| fields := result; raw_sample_snippet := slice_to 1200 text_norm |}.

Definition parse_statement (pdf_bytes : bytes) : outcome Statement :=
  text <- extract_text_from_pdf_bytes pdf_bytes ;;
  parse_text text.

End Program.

(** A field of the record an extractor returns. *)
Definition field_of (field : FieldRecord -> option str) (r : outcome FieldRecord)
  : outcome (option str) :=
  match r with
  | Returns f => Returns (field f)
  | Raises e => Raises e
  end.

(** * Notions used by the properties *)

(** Group [n + 1] got the value [v] from a match of one of its bodies
    somewhere in [s]. *)
Definition produced (fl : flags) (r : regex) (n : nat) (s : str) (v : option str) : Prop :=
  exists body s' s'' g' g'',
    In body (group_bodies (S n) r) /\ suffix s' s /\
    In (s'', g'') (matches fl body s' g') /\ v = Some (consumed s' s'').

(** What a way to match [r] does to a state: it reads a prefix of the text,
    keeps the number of groups, and leaves each group as it was or with
    what one of its bodies read. *)
Definition step_ok (fl : flags) (r : regex) (x y : state) : Prop :=
  suffix (fst y) (fst x) /\ List.length (snd y) = List.length (snd x) /\
  forall n, nth n (snd y) None = nth n (snd x) None \/
            produced fl r n (fst x) (nth n (snd y) None).

(** The body of the group [(\d{4})]. *)
Definition four_digits : regex := cat [times 4 (InSet [digit])].

(** [v] is four decimal digits that stand in [text]. *)
Definition four_decimal (text v : str) : Prop :=
  exists a b c d, v = [a; b; c; d] /\
    isdecimal a = true /\ isdecimal b = true /\ isdecimal c = true /\ isdecimal d = true /\
    exists pre post, text = pre ++ v ++ post.

(** The six extractors. *)
Definition extractors (dateutil_parse : str -> outcome datetime)
  : list (str -> outcome FieldRecord) :=
  [ parse_amex dateutil_parse; parse_chase dateutil_parse; parse_citi dateutil_parse;
    parse_bofa dateutil_parse; parse_hsbc dateutil_parse; parse_generic dateutil_parse ].

(** A white-space run read as one space: [in_run] says the previous code
    point was white space. *)
Fixpoint collapse (in_run : bool) (s : str) : str :=
  match s with
  | [] => []
  | c :: s' =>
      if isspace c
      then (if in_run then collapse true s' else 0x20%N :: collapse true s')
      else c :: collapse false s'
  end.

(** The words of a text: its maximal runs of code points that are no white
    space ([s.split()]); [cur] is the word being read. *)
Fixpoint split_ws (cur : str) (s : str) : list str :=
  match s with
  | [] => if nonempty cur then [cur] else []
  | c :: s' =>
      if isspace c
      then (if nonempty cur then cur :: split_ws [] s' else split_ws [] s')
      else split_ws (cur ++ [c]) s'
  end.

Definition words (s : str) : list str := split_ws [] s.

(** The ways a greedy loop over one character class matches, longest
    first. *)
Fixpoint greedy_run (p : char -> bool) (lo : nat) (s : str) (g : groups) : list state :=
  match s with
  | c :: s' =>
      (if p c then greedy_run p (pred lo) s' g else []) ++
      (if Nat.eqb lo 0 then [(s, g)] else [])
  | [] => if Nat.eqb lo 0 then [([], g)] else []
  end.

(** A word: not empty, no white space in it. *)
Definition is_word (w : str) : Prop :=
  w <> [] /\ Forall (fun c => isspace c = false) w.

(** The classifier as the specification words it: an ordered list of rules,
    each an issuer name with its keywords; the first rule one of whose
    keywords occurs in the lower-cased text wins, and ["Unknown"] is the
    fallback. *)
Definition issuer_rules : list (str * list str) :=
  [ (lit "American Express", [lit "american express"; lit "amex"]);
    (lit "Chase", [lit "chase"; lit "chase cardmember"]);
    (lit "Citi", [lit "citibank"; lit "citi"]);
    (lit "Bank of America", [lit "bank of america"; lit "bofa"]);
    (lit "HSBC", [lit "hsbc"]) ].

Fixpoint first_rule (rules : list (str * list str)) (t : str) : str :=
  match rules with
  | [] => lit "Unknown"
  | (name, keywords) :: rest =>
      if existsb (fun kw => contains kw t) keywords then name else first_rule rest t
  end.

Definition classify_spec (text : str) : str := first_rule issuer_rules (lower text).

(** The closed set of issuer names. *)
Definition issuer_names : list str := map fst issuer_rules ++ [lit "Unknown"].

(** The shape [YYYY-MM-DD]: ten characters, ASCII digits around two
    hyphens. *)
Definition iso_shape (s : str) : Prop :=
  exists y1 y2 y3 y4 m1 m2 d1 d2,
    s = [y1; y2; y3; y4; 0x2D; m1; m2; 0x2D; d1; d2]%N /\
    Forall (fun c => is_ascii_digit c = true) [y1; y2; y3; y4; m1; m2; d1; d2].

(** [zero_padded w n] is exactly [w] ASCII digits. *)
Definition padded_ok (w : nat) (n : N) : bool :=
  Nat.eqb (List.length (zero_padded w n)) w &&
  forallb is_ascii_digit (zero_padded w n).

(** 5 March 2024, at midnight. *)
Definition march_5_2024 : datetime :=
  {| dt_date := {| year := 2024; month := 3; day := 5; date_ok := eq_refl |};
     hour := 0; minute := 0; second := 0; microsecond := 0 |}.

(** A date parser for the examples: it reads the text that starts with
    "March 5, 2024" and goes on with words as 5 March 2024, which is what
    [dateutil]'s fuzzy parse makes of it, and raises on any other text. *)
Definition sample_parse (text : str) : outcome datetime :=
  if str_eqb text (lit "March 5, 2024 Total Amount Due") then Returns march_5_2024
  else Raises ValueError.

(** A document of three pages: the extraction of the first raises, the
    second has no text, the third an empty one. *)
Definition sample_pages (pdf_bytes : bytes) : outcome (list (outcome (option str))) :=
  Returns [Raises (OtherError "PDFSyntaxError"); Returns None; Returns (Some [])].


(** The literals [w] match at the head of [s]. *)
Fixpoint istarts (fl : flags) (w : list ascii) (s : str) : bool :=
  match w, s with
  | [], _ => true
  | a :: w', c :: s' => literal_match fl a c && istarts fl w' s'
  | _ :: _, [] => false
  end.

(** The word [w], as the pattern writes it, stands at the head of [s]. *)
Definition starts_at (fl : flags) (w : string) (s : str) : bool :=
  istarts fl (list_ascii_of_string w) s.

(** The word [w] stands somewhere in [P ++ rest], starting inside [P]. *)
Fixpoint starts_in (fl : flags) (w : string) (P rest : str) : bool :=
  match P with
  | [] => false
  | _ :: P' => starts_at fl w (P ++ rest) || starts_in fl w P' rest
  end.

(** The head of [z], if any, is outside the class [p]. *)
Definition head_outside (p : char -> bool) (z : str) : Prop :=
  match z with
  | [] => True
  | c :: _ => p c = false
  end.

(** The ways a lazy loop over one character class matches, shortest
    first. *)
Fixpoint lazy_run (p : char -> bool) (lo : nat) (s : str) (g : groups) : list state :=
  (if Nat.eqb lo 0 then [(s, g)] else []) ++
  match s with
  | c :: s' => if p c then lazy_run p (pred lo) s' g else []
  | [] => []
  end.

(** Every match of [r] gives group [i] a value. *)
Fixpoint sets_group (i : nat) (r : regex) : bool :=
  match r with
  | Eps | Literal _ | AnyChar | InSet _ => false
  | Seq r1 r2 => sets_group i r1 || sets_group i r2
  | Alt r1 r2 => sets_group i r1 && sets_group i r2
  | Group j r1 => Nat.eqb i j || sets_group i r1
  | MaxRepeat lo _ r1 | MinRepeat lo _ r1 => negb (Nat.eqb lo 0) && sets_group i r1
  end.

(** None of the words [ws] starts inside [P], in the text [P ++ rest]. *)
Definition none_starts_in (fl : flags) (ws : list string) (P rest : str) : bool :=
  forallb (fun w => negb (starts_in fl w P rest)) ws.

(** The words of the first card-variant pattern of [parse_amex]. *)
Definition amex_variant_words : list string :=
  ["Platinum"; "Gold"; "Green"; "Centurion"; "Blue"; "Everyday"; "Cashback";
   "Corporate"]%string.

(** The class [[:\s]] that follows a label. *)
Definition label_seps : list set_item := [SLiteral ":"; space].

(** The class [[A-Za-z0-9 ,\-]] of the due-date patterns of [parse_amex]. *)
Definition date_chars : list set_item :=
  [SRange "A" "Z"; SRange "a" "z"; SRange "0" "9"; SLiteral " "; SLiteral ",";
   SLiteral "-"].

(** The class [[,\d\.]] of the amount patterns. *)
Definition amount_chars : list set_item := [SLiteral ","; digit; SLiteral "."].

(** Scenario A, in one line. *)
Definition scenario_a : str :=
  lit "American Express Card ending in: 1234 Platinum Card Payment Due Date: March 5, 2024 Total Amount Due: $523.10".

(** Scenario A with other words between the phrases: another variant word
    comes before "Platinum Card". *)
Definition scenario_a_blue : str :=
  lit "American Express Card ending in: 1234 Blue Card or Platinum Card Payment Due Date: March 5, 2024 Total Amount Due: $523.10".

(** [p] is the first pattern of [ps] that matches somewhere in [text], and
    [m] is the match [re.search] returns for it. *)
Definition first_match (text : str) (ps : list regex) (p : regex) (m : Match) : Prop :=
  exists pre post, ps = pre ++ p :: post /\
    (forall q, In q pre -> search IGNORECASE_DOTALL q text = None) /\
    search IGNORECASE_DOTALL p text = Some m.

(** [v] stands in [text]. *)
Definition piece (v text : str) : Prop := exists pre post, text = pre ++ v ++ post.

(** The pattern lists an extractor hands to [find_first_regex], by field. *)
Record field_patterns : Type := {
  variant_patterns : list regex;
  period_patterns : list regex;
  due_patterns : list regex;
  amount_patterns : list regex
}.

(** The extractors, each with its pattern lists. *)
Definition profiles (dateutil_parse : str -> outcome datetime)
  : list ((str -> outcome FieldRecord) * field_patterns) :=
  [ (parse_amex dateutil_parse,
     {| variant_patterns := amex_variant; period_patterns := amex_period;
        due_patterns := amex_due; amount_patterns := amex_amount |});
    (parse_chase dateutil_parse,
     {| variant_patterns := chase_variant; period_patterns := chase_period;
        due_patterns := chase_due; amount_patterns := chase_amount |});
    (parse_citi dateutil_parse,
     {| variant_patterns := citi_variant; period_patterns := citi_period;
        due_patterns := citi_due; amount_patterns := citi_amount |});
    (parse_bofa dateutil_parse,
     {| variant_patterns := bofa_variant; period_patterns := bofa_period;
        due_patterns := bofa_due; amount_patterns := bofa_amount |});
    (parse_hsbc dateutil_parse,
     {| variant_patterns := hsbc_variant; period_patterns := hsbc_period;
        due_patterns := hsbc_due; amount_patterns := hsbc_amount |});
    (parse_generic dateutil_parse,
     {| variant_patterns := generic_variant; period_patterns := generic_period;
        due_patterns := generic_due; amount_patterns := generic_amount |}) ].

(** The extractors written for one issuer: all but the generic one. *)
Definition issuer_extractors (dateutil_parse : str -> outcome datetime)
  : list (str -> outcome FieldRecord) :=
  [ parse_amex dateutil_parse; parse_chase dateutil_parse; parse_citi dateutil_parse;
    parse_bofa dateutil_parse; parse_hsbc dateutil_parse ].

(** A sample statement of HSBC, in one line. *)
Definition sample_hsbc : str :=
  lit "HSBC Premier Card Statement Period: 01 Feb 2024 - 29 Feb 2024; Due Date: March 5, 2024 Total Amount Due: $1,234.56".

(** The classifier's rules without the keywords that decide nothing:
    "chase cardmember" holds "chase", and "citibank" holds "citi". *)
Definition issuer_rules_short : list (str * list str) :=
  [ (lit "American Express", [lit "american express"; lit "amex"]);
    (lit "Chase", [lit "chase"]);
    (lit "Citi", [lit "citi"]);
    (lit "Bank of America", [lit "bank of america"; lit "bofa"]);
    (lit "HSBC", [lit "hsbc"]) ].

(** The extractors that take [last4] from [m.group(1) if m else None], each
    with the two patterns of its [re.search(a, ...) or re.search(b, ...)]. *)
Definition last4_searches (dateutil_parse : str -> outcome datetime)
  : list ((str -> outcome FieldRecord) * (regex * regex)) :=
  [ (parse_chase dateutil_parse, (chase_last4_account, chase_last4_card));
    (parse_citi dateutil_parse, (citi_last4_card, citi_last4_any));
    (parse_bofa dateutil_parse, (bofa_last4_account, bofa_last4_any));
    (parse_hsbc dateutil_parse, (hsbc_last4_number, hsbc_last4_any)) ].

(** A page without text: its extraction raises, or returns [None] or the
    empty text. *)
Definition textless (page : outcome (option str)) : bool := negb (nonempty (page_text page)).

(** [v] is the word [w] as a text writes it: letter for letter, up to the
    letter case the flags ignore. *)
Definition is_word_of (fl : flags) (w : string) (v : str) : bool :=
  starts_at fl w v && Nat.eqb (List.length v) (String.length w).

(** The labels of the generic amount and due-date patterns. *)
Definition generic_amount_labels : list string :=
  ["Total Amount Due"; "Amount Due"; "New Balance"; "Current Balance"]%string.

Definition generic_due_labels : list string := ["Payment Due Date"; "Due Date"]%string.

(** No run of the lower-case table meets the range [r]. *)
Definition runs_miss (runs : list (N * N * N * N)) (r : N * N) : bool :=
  forallb (fun run => match run with
                      | (lo, hi, _, _) => (hi <? fst r)%N || (snd r <? lo)%N
                      end) runs.

(** Scenario C, in one line. *)
Definition scenario_c : str :=
  lit "Card Type: Rewards Due Date: 2024-07-01 Amount Due: 100.00".

(** The first and the last character of a word are no white space. *)
Definition word_ends_ok (l : list ascii) : bool :=
  match l with
  | [] => false
  | a :: _ => negb (isspace (N_of_ascii a)) && negb (isspace (N_of_ascii (List.last l a)))
  end.

(** White space stands in [s] only as single spaces U+0020, with none at
    the start when [in_run] (the previous character was white space). *)
Fixpoint tight (in_run : bool) (s : str) : bool :=
  match s with
  | [] => true
  | c :: s' =>
      if isspace c then negb in_run && (c =? 0x20)%N && tight true s' else tight false s'
  end.

(** The record of a text in which nothing is found. *)
Definition unknown_record : FieldRecord :=
  {| issuer := lit "Unknown"; last4 := None; card_variant := None;
     statement_period := None; due_date := None; amount_due := None |}.

(** A document of three pages: a label is cut by the page break, and the
    extraction of the second page raises. *)
Definition two_pages (pdf_bytes : bytes) : outcome (list (outcome (option str))) :=
  Returns [Returns (Some (lit "HSBC Premier Card Due")); Raises (OtherError "PDFSyntaxError");
           Returns (Some (lit "Date: March 5, 2024 Total Amount Due: $1,234.56"))].

(** The lower case of an ASCII letter, any other code point as it is. *)
Definition ascii_lower (c : char) : char :=
  if (0x41 <=? c)%N && (c <=? 0x5A)%N then (c + 32)%N else c.

(** Two code points that differ at most by the case of an ASCII letter. *)
Definition same_letter (c d : char) : Prop := ascii_lower c = ascii_lower d.

(** The decimal digit [n] as a character. *)
Definition digit_char (n : N) : char := (0x30 + n)%N.

(** The text [YYYY-MM-DD] of a year, a month and a day, digit by digit. *)
Definition iso_digits (y m d : N) : str :=
  [ digit_char (y / 1000); digit_char (y / 100 mod 10); digit_char (y / 10 mod 10);
    digit_char (y mod 10); 0x2D;
    digit_char (m / 10); digit_char (m mod 10); 0x2D;
    digit_char (d / 10); digit_char (d mod 10) ]%N.

(** The pattern [r] matches at some position of [P ++ rest] that lies inside
    [P]. *)
Fixpoint matches_before (fl : flags) (r : regex) (P rest : str) : bool :=
  match P with
  | [] => false
  | _ :: P' =>
      match matches fl r (P ++ rest) (repeat None (ngroups r)) with
      | [] => matches_before fl r P' rest
      | _ :: _ => true
      end
  end.

(** What the lower-casing looks at in a code point: whether it is a capital
    sigma or a dotted capital I, its lower case, whether it is cased and
    whether it is case-ignorable. *)
Definition lower_view (c : char) : bool * bool * N * bool * bool :=
  ((c =? 0x3A3)%N, (c =? 0x130)%N, tolower c, cased c, case_ignorable c).

(** * Properties *)

(** ** The matcher *)

Section Engine.

Variable fl : flags.

Lemma suffix_refl (s : str) : suffix s s.
Proof. exists []. reflexivity. Qed.

Lemma suffix_trans (a b c : str) : suffix a b -> suffix b c -> suffix a c.
Proof.
  intros [w1 H1] [w2 H2]. exists (w2 ++ w1). subst. now rewrite app_assoc.
Qed.

Lemma suffix_cons (c : char) (s : str) : suffix s (c :: s).
Proof. exists [c]. reflexivity. Qed.

Lemma suffix_length (s1 s : str) : suffix s1 s -> List.length s1 <= List.length s.
Proof. intros [w ->]. rewrite length_app. lia. Qed.

Lemma suffix_consumed (s1 s : str) : suffix s1 s -> s = consumed s s1 ++ s1.
Proof.
  intros [w ->]. unfold consumed. rewrite length_app.
  replace (List.length w + List.length s1 - List.length s1) with (List.length w + 0) by lia.
  rewrite firstn_app_2. simpl. now rewrite app_nil_r.
Qed.

Lemma consumed_app (w s1 : str) : consumed (w ++ s1) s1 = w.
Proof.
  unfold consumed. rewrite length_app.
  replace (List.length w + List.length s1 - List.length s1) with (List.length w + 0) by lia.
  rewrite firstn_app_2. simpl. now rewrite app_nil_r.
Qed.

Lemma one_inv (p : char -> bool) (s : str) (g : groups) (st : state) :
  In st (one p s g) -> exists c, s = c :: fst st /\ p c = true /\ snd st = g.
Proof.
  destruct s as [|c s']; simpl; [tauto|].
  destruct (p c) eqn:E; simpl; [|tauto].
  intros [<-|[]]. exists c. auto.
Qed.

(** A relation that every way of the body satisfies, and that is reflexive
    and transitive, holds of every way of the loop. *)
Lemma until_rel (body : str -> groups -> list state) (R : state -> state -> Prop) :
  (forall x, R x x) ->
  (forall x y z, R x y -> R y z -> R x z) ->
  (forall s g st, In st (body s g) -> R (s, g) st) ->
  forall greedy fuel lo hi last s g st,
    In st (until body greedy fuel lo hi last s g) -> R (s, g) st.
Proof.
  intros Hrefl Htrans Hbody greedy fuel.
  induction fuel as [|fuel IH]; intros lo hi last s g st; simpl; [tauto|].
  destruct lo as [|lo].
  - assert (Hmore : forall l,
      In st (if can_repeat hi && negb (same_position last s)
             then flat_map (fun st0 => until body greedy fuel 0 (option_map pred hi)
                                         (Some (List.length s)) (fst st0) (snd st0)) (body s g)
             else l) -> In st l \/ R (s, g) st).
    { intros l. destruct (can_repeat hi && negb (same_position last s)); [|auto].
      rewrite in_flat_map. intros [[s1 g1] [H1 H2]]. right.
      eapply Htrans; [apply Hbody, H1|]. apply IH in H2. exact H2. }
    destruct greedy.
    + rewrite in_app_iff. intros [H|[<-|[]]]; [|apply Hrefl].
      apply Hmore in H. destruct H as [[]|H]; exact H.
    + intros [<-|H]; [apply Hrefl|].
      apply Hmore in H. destruct H as [[]|H]; exact H.
  - rewrite in_flat_map. intros [[s1 g1] [H1 H2]].
    eapply Htrans; [apply Hbody, H1|]. apply IH in H2. exact H2.
Qed.

Lemma produced_mono (r r' : regex) (n : nat) (s s0 : str) (v : option str) :
  (forall i, incl (group_bodies i r) (group_bodies i r')) -> suffix s s0 ->
  produced fl r n s v -> produced fl r' n s0 v.
Proof.
  intros Hi Hs (body & s' & s'' & g' & g'' & H1 & H2 & H3 & H4).
  exists body, s', s'', g', g''.
  split; [apply Hi, H1|]. split; [eapply suffix_trans; eauto|]. auto.
Qed.

Lemma step_ok_refl (r : regex) (x : state) : step_ok fl r x x.
Proof. repeat split; auto using suffix_refl. Qed.

Lemma step_ok_trans (r : regex) (x y z : state) :
  step_ok fl r x y -> step_ok fl r y z -> step_ok fl r x z.
Proof.
  intros (S1 & L1 & G1) (S2 & L2 & G2). repeat split.
  - eapply suffix_trans; eauto.
  - congruence.
  - intros n. destruct (G2 n) as [E|P].
    + rewrite E. apply G1.
    + right. eapply produced_mono; eauto. intros i a; auto.
Qed.

Lemma step_ok_mono (r r' : regex) (x y : state) :
  (forall i, incl (group_bodies i r) (group_bodies i r')) ->
  step_ok fl r x y -> step_ok fl r' x y.
Proof.
  intros Hi (S1 & L1 & G1). repeat split; auto.
  intros n. destruct (G1 n) as [E|P]; [auto|right].
  apply produced_mono with (r := r) (s := fst x); auto using suffix_refl.
Qed.

Lemma length_set_nth (n : nat) (v : option str) (g : groups) :
  List.length (set_nth n v g) = List.length g.
Proof.
  revert n; induction g as [|x g IH]; intros [|n]; simpl; auto.
Qed.

Lemma nth_set_nth (n m : nat) (v : option str) (g : groups) :
  nth n (set_nth m v g) None =
  if Nat.eqb n m && Nat.ltb m (List.length g) then v else nth n g None.
Proof.
  revert n m; induction g as [|x g IH]; intros n m; simpl.
  - rewrite andb_false_r. destruct m; reflexivity.
  - destruct m as [|m]; destruct n as [|n]; simpl; auto.
Qed.

Lemma one_sound (r : regex) (p : char -> bool) (s : str) (g : groups) (st : state) :
  In st (one p s g) -> step_ok fl r (s, g) st.
Proof.
  intros H. apply one_inv in H. destruct H as (c & Hs & _ & E).
  destruct st as [s1 g1]; simpl in *. subst s g1. unfold step_ok; simpl.
  split; [apply suffix_cons|]. split; [reflexivity|]. intros n; left; reflexivity.
Qed.

(** Soundness of the matcher with respect to the text and the groups. *)
Lemma matches_sound (r : regex) :
  forall s g st, In st (matches fl r s g) -> step_ok fl r (s, g) st.
Proof.
  induction r as [|a| |items|r1 IH1 r2 IH2|r1 IH1 r2 IH2|i r1 IH1|lo hi r1 IH1|lo hi r1 IH1];
    intros s g st; simpl.
  - intros [<-|[]]. apply step_ok_refl.
  - intros H. eapply one_sound; exact H.
  - intros H. eapply one_sound; exact H.
  - intros H. eapply one_sound; exact H.
  - rewrite in_flat_map. intros [[s1 g1] [H1 H2]].
    apply IH1 in H1. apply IH2 in H2.
    eapply step_ok_trans; eapply step_ok_mono; eauto;
      intros k a Ha; simpl; apply in_or_app; auto.
  - rewrite in_app_iff. intros [H|H]; [apply IH1 in H|apply IH2 in H];
      (eapply step_ok_mono; [|exact H]); intros k a Ha; simpl; apply in_or_app; auto.
  - rewrite in_map_iff. intros [[s1 g1] [<- H1]]. simpl.
    pose proof (IH1 _ _ _ H1) as (S1 & L1 & G1). simpl in *.
    repeat split; simpl; auto.
    + destruct i; simpl; [auto|]. now rewrite length_set_nth.
    + intros n. destruct i as [|i]; simpl.
      * destruct (G1 n) as [E|P]; [auto|right].
        apply produced_mono with (r := r1) (s := s); auto using suffix_refl.
        intros k a Ha. simpl. apply in_or_app; auto.
      * rewrite nth_set_nth.
        destruct (Nat.eqb n i && Nat.ltb i (List.length g1)) eqn:E.
        -- right. apply andb_prop in E. destruct E as [E _].
           apply Nat.eqb_eq in E. subst n.
           exists r1, s, s1, g, g1. repeat split; auto using suffix_refl.
           simpl. rewrite Nat.eqb_refl. now left.
        -- destruct (G1 n) as [E1|P]; [auto|right].
           apply produced_mono with (r := r1) (s := s); auto using suffix_refl.
           intros k a Ha. simpl. apply in_or_app; auto.
  - apply until_rel with (R := step_ok fl (MaxRepeat lo hi r1)).
    + apply step_ok_refl.
    + apply step_ok_trans.
    + intros s0 g0 st0 H. apply IH1 in H. exact H.
  - apply until_rel with (R := step_ok fl (MinRepeat lo hi r1)).
    + apply step_ok_refl.
    + apply step_ok_trans.
    + intros s0 g0 st0 H. apply IH1 in H. exact H.
Qed.

End Engine.

(** ** [re.search] *)

Section Search.

Variable fl : flags.

Lemma nth_repeat_none (n k : nat) : nth n (repeat (@None str) k) None = None.
Proof.
  revert n; induction k as [|k IH]; intros [|n]; simpl; auto.
Qed.

(** A match of [search_from] is the first way the pattern matches at some
    position of the text, and the pattern matches at no position before. *)
Lemma search_from_inv (r : regex) :
  forall s k m, search_from fl r k s = Some m ->
    exists w s0 st rest,
      s = w ++ s0 /\
      matches fl r s0 (repeat None (ngroups r)) = st :: rest /\
      m_start m = k + List.length w /\
      m_group0 m = consumed s0 (fst st) /\ m_groups m = snd st /\
      forall w1 w2, w = w1 ++ w2 -> w2 <> [] ->
                    matches fl r (w2 ++ s0) (repeat None (ngroups r)) = [].
Proof.
  induction s as [|c s IH]; intros k m; simpl.
  - destruct (matches fl r [] (repeat None (ngroups r))) as [|st rest] eqn:E; [discriminate|].
    intros [= <-]. exists [], [], st, rest. simpl. repeat split; auto.
    intros w1 w2 Hw. symmetry in Hw. apply app_eq_nil in Hw. tauto.
  - destruct (matches fl r (c :: s) (repeat None (ngroups r))) as [|st rest] eqn:E.
    + intros H. apply IH in H. destruct H as (w & s0 & st & rest & -> & Hm & Hs & H0 & Hg & Hl).
      exists (c :: w), s0, st, rest. simpl. repeat split; auto; [lia|].
      intros w1 w2 Hw Hne. destruct w1 as [|c1 w1]; simpl in Hw.
      * subst w2. exact E.
      * injection Hw as <- Hw. eapply Hl; eauto.
    + intros [= <-]. exists [], (c :: s), st, rest. simpl. repeat split; auto.
      intros w1 w2 Hw. symmetry in Hw. apply app_eq_nil in Hw. tauto.
Qed.

(** [m.groups()] has one entry per group of the pattern. *)
Lemma search_groups_length (r : regex) (text : str) (m : Match) :
  search fl r text = Some m -> List.length (m_groups m) = ngroups r.
Proof.
  intros H. apply search_from_inv in H.
  destruct H as (w & s0 & st & rest & _ & Hm & _ & _ & Hg & _).
  assert (Hin : In st (matches fl r s0 (repeat None (ngroups r)))) by (rewrite Hm; now left).
  apply matches_sound in Hin. destruct Hin as (_ & L & _). simpl in L.
  rewrite Hg, L. apply repeat_length.
Qed.

(** A group of a match holds what one of its bodies read somewhere in the
    text. *)
Lemma search_group_produced (r : regex) (text : str) (m : Match) (n : nat) (v : str) :
  search fl r text = Some m -> m_group m (S n) = Some v ->
  exists body s' s'' g' g'',
    In body (group_bodies (S n) r) /\ suffix s' text /\
    In (s'', g'') (matches fl body s' g') /\ v = consumed s' s''.
Proof.
  intros H Hv. apply search_from_inv in H.
  destruct H as (w & s0 & st & rest & -> & Hm & _ & _ & Hg & _).
  assert (Hin : In st (matches fl r s0 (repeat None (ngroups r)))) by (rewrite Hm; now left).
  apply matches_sound in Hin. destruct Hin as (_ & _ & G). simpl in G.
  simpl in Hv. rewrite Hg in Hv. destruct (G n) as [E|P].
  - rewrite nth_repeat_none in E. congruence.
  - destruct P as (body & s' & s'' & g' & g'' & H1 & H2 & H3 & H4).
    exists body, s', s'', g', g''. repeat split; auto.
    + eapply suffix_trans; [exact H2|]. now exists w.
    + congruence.
Qed.

End Search.

(** ** Character classes *)

Section Classes.

Lemma in_ranges_disjoint (t1 t2 : list (N * N)) (c : N) :
  ranges_disjoint t1 t2 = true -> in_ranges t1 c = true -> in_ranges t2 c = false.
Proof.
  unfold ranges_disjoint, in_ranges. intros D H1.
  apply existsb_exists in H1. destruct H1 as (r1 & I1 & B1).
  rewrite forallb_forall in D. specialize (D r1 I1). rewrite forallb_forall in D.
  destruct (existsb _ t2) eqn:E; [|reflexivity].
  apply existsb_exists in E. destruct E as (r2 & I2 & B2).
  specialize (D r2 I2).
  apply andb_prop in B1, B2. destruct B1 as [A1 A2], B2 as [A3 A4].
  apply N.leb_le in A1, A2, A3, A4.
  apply orb_prop in D. destruct D as [D|D]; apply N.ltb_lt in D; lia.
Qed.

(** A decimal digit is no white space. *)
Lemma decimal_not_space (c : char) : isdecimal c = true -> isspace c = false.
Proof.
  apply in_ranges_disjoint. vm_compute. reflexivity.
Qed.

(** The only decimal digits below 128 are 0 to 9. *)
Lemma decimal_ascii (c : char) :
  isdecimal c = true -> is_ascii c = true -> is_ascii_digit c = true.
Proof.
  unfold isdecimal, in_ranges, is_ascii, is_ascii_digit. intros H A.
  apply existsb_exists in H. destruct H as (r & I & B).
  assert (F : forallb (fun r => ((fst r =? 0x30) && (snd r =? 0x39)) || (0x80 <=? fst r))%N
                      decimal_ranges = true) by (vm_compute; reflexivity).
  rewrite forallb_forall in F. specialize (F r I).
  apply andb_prop in B. destruct B as [B1 B2].
  apply N.leb_le in B1, B2. apply N.ltb_lt in A.
  apply orb_prop in F. destruct F as [F|F].
  - apply andb_prop in F. destruct F as [F1 F2].
    apply N.eqb_eq in F1, F2. rewrite F1 in B1. rewrite F2 in B2.
    apply andb_true_intro. split; apply N.leb_le; assumption.
  - apply N.leb_le in F. lia.
Qed.

Lemma lstrip_no_space (c : char) (s : str) : isspace c = false -> lstrip (c :: s) = c :: s.
Proof. intros H. unfold lstrip. simpl. now rewrite H. Qed.

(** Stripping a text whose ends are no white space changes nothing. *)
Lemma strip_id (s : str) :
  (forall c s', s = c :: s' -> isspace c = false) ->
  (forall c s', s = s' ++ [c] -> isspace c = false) ->
  strip s = s.
Proof.
  intros Hh Hl. unfold strip, rstrip.
  assert (E : lstrip s = s).
  { destruct s as [|c s']; [reflexivity|]. apply lstrip_no_space. eapply Hh; eauto. }
  rewrite E.
  destruct (rev s) as [|c r] eqn:R.
  - simpl. apply (f_equal (@rev char)) in R. rewrite rev_involutive in R. now subst.
  - simpl. assert (Hc : isspace c = false).
    { apply (Hl c (rev r)). apply (f_equal (@rev char)) in R.
      rewrite rev_involutive in R. simpl in R. exact R. }
    rewrite Hc. rewrite <- R. apply rev_involutive.
Qed.

Lemma set_match_digit (fl : flags) (c : char) : set_match fl [digit] c = isdecimal c.
Proof.
  unfold set_match. simpl. rewrite andb_false_r. simpl. apply orb_false_r.
Qed.

(** An exact count of one-character iterations. *)
Lemma until_exact (p : char -> bool) (greedy : bool) :
  forall n fuel last s g, n < fuel ->
    until (one p) greedy fuel n (Some n) last s g =
    if forallb p (firstn n s) && Nat.leb n (List.length s) then [(skipn n s, g)] else [].
Proof.
  induction n as [|n IH]; intros fuel last s g Hf; (destruct fuel as [|fuel]; [lia|]); simpl.
  - destruct greedy; reflexivity.
  - destruct s as [|c s']; simpl; [reflexivity|].
    destruct (p c); simpl; [|reflexivity].
    rewrite app_nil_r. apply IH. lia.
Qed.

Lemma four_digits_inv (fl : flags) (s s1 : str) (g g1 : groups) :
  In (s1, g1) (matches fl four_digits s g) ->
  exists a b c d, s = a :: b :: c :: d :: s1 /\
    isdecimal a = true /\ isdecimal b = true /\ isdecimal c = true /\ isdecimal d = true.
Proof.
  unfold four_digits, cat, times. cbn [fold_right matches].
  change (matches fl (InSet [digit])) with (one (set_match fl [digit])).
  rewrite until_exact by lia.
  destruct s as [|a [|b [|c [|d s4]]]]; simpl; try (rewrite ?andb_false_r; simpl; tauto).
  rewrite !set_match_digit.
  destruct (isdecimal a) eqn:Ea, (isdecimal b) eqn:Eb, (isdecimal c) eqn:Ec,
    (isdecimal d) eqn:Ed; simpl; try tauto.
  intros [H|[]]. injection H as <- <-. exists a, b, c, d. auto.
Qed.

End Classes.

(** ** [find_first_regex] *)

Section FindFirst.

Lemma has_groups_ngroups (fl : flags) (r : regex) (text : str) (m : Match) :
  search fl r text = Some m -> has_groups m = negb (Nat.eqb (ngroups r) 0).
Proof.
  intros H. apply search_groups_length in H. unfold has_groups.
  destruct (m_groups m); simpl in H; rewrite <- H; reflexivity.
Qed.

(** No pattern of the list matches exactly when the result is [None]. *)
Lemma find_first_none (text : str) (ps : list regex) :
  find_first_regex text ps = Returns None <->
  forall p, In p ps -> search IGNORECASE_DOTALL p text = None.
Proof.
  induction ps as [|p ps IH]; cbn [find_first_regex In].
  - split; [intros _ p []|reflexivity].
  - destruct (search IGNORECASE_DOTALL p text) as [m|] eqn:E.
    + split.
      * destruct (has_groups m); [destruct (m_group m 1)|]; intros H; discriminate H.
      * intros H. specialize (H p (or_introl eq_refl)). congruence.
    + rewrite IH. split.
      * intros H q [<-|Hq]; auto.
      * intros H q Hq. apply H. now right.
Qed.

(** What a result says about the pattern it names. *)
Lemma find_first_some (text : str) (ps : list regex) (p : regex) (v : str) :
  find_first_regex text ps = Returns (Some (p, v)) ->
  exists m, In p ps /\ search IGNORECASE_DOTALL p text = Some m /\
    ((has_groups m = false /\ v = strip (m_group0 m)) \/
     (has_groups m = true /\ exists g, m_group m 1 = Some g /\ v = strip g)).
Proof.
  induction ps as [|q ps IH]; cbn [find_first_regex In]; [discriminate|].
  destruct (search IGNORECASE_DOTALL q text) as [m|] eqn:E.
  - destruct (has_groups m) eqn:G.
    + destruct (m_group m 1) as [g|] eqn:G1; [|discriminate].
      intros [= <- <-]. exists m. split; [now left|]. split; [exact E|].
      right. split; [exact G|]. now exists g.
    + intros [= <- <-]. exists m. split; [now left|]. split; [exact E|]. left. auto.
  - intros H. destruct (IH H) as (m & I & S & R). exists m. split; [now right|]. auto.
Qed.

Lemma search_four_digits (fl : flags) (r : regex) (text : str) (m : Match) (v : str) :
  group_bodies 1 r = [four_digits] ->
  search fl r text = Some m -> m_group m 1 = Some v -> four_decimal text v.
Proof.
  intros B S G.
  destruct (search_group_produced fl r text m 0 v S G) as (body & s' & s'' & g' & g'' & H1 & H2 & H3 & H4).
  rewrite B in H1. destruct H1 as [<-|[]].
  apply four_digits_inv in H3. destruct H3 as (a & b & c & d & -> & Ha & Hb & Hc & Hd).
  change (a :: b :: c :: d :: s'') with ([a; b; c; d] ++ s'') in H4.
  rewrite consumed_app in H4. subst v.
  exists a, b, c, d. repeat split; auto.
  destruct H2 as [w ->]. exists w, s''. reflexivity.
Qed.

Lemma four_decimal_strip (text v : str) : four_decimal text v -> strip v = v.
Proof.
  intros (a & b & c & d & -> & Ha & Hb & Hc & Hd & _).
  apply strip_id.
  - intros x s' [= <- _]. now apply decimal_not_space.
  - intros x s' E.
    assert (x = d).
    { apply (f_equal (@rev char)) in E. rewrite rev_app_distr in E. simpl in E. congruence. }
    subst x. now apply decimal_not_space.
Qed.

Lemma find_first_four_digits (text : str) (ps : list regex) (p : regex) (v : str) :
  Forall (fun r => group_bodies 1 r = [four_digits] /\ ngroups r <> 0) ps ->
  find_first_regex text ps = Returns (Some (p, v)) -> four_decimal text v.
Proof.
  intros F H. apply find_first_some in H.
  rewrite Forall_forall in F.
  destruct H as (m & I & S & [[G _]|[_ (g & G1 & ->)]]).
  - destruct (F p I) as [_ N].
    rewrite (has_groups_ngroups _ _ _ _ S) in G.
    destruct (ngroups p); [congruence|discriminate].
  - assert (D : four_decimal text g).
    { destruct (F p I) as [B _]. eapply search_four_digits; eauto. }
    now rewrite (four_decimal_strip text g D).
Qed.

End FindFirst.

(** ** The last four digits *)

Section Last4.

Lemma search_or_four_digits (a b : regex) (text : str) (m : Match) (v : str) :
  group_bodies 1 a = [four_digits] -> group_bodies 1 b = [four_digits] ->
  search_or a b text = Some m -> m_group m 1 = Some v -> four_decimal text v.
Proof.
  unfold search_or. intros A B S G.
  destruct (search IGNORECASE a text) as [m'|] eqn:E.
  - injection S as <-. exact (search_four_digits IGNORECASE a text m' v A E G).
  - exact (search_four_digits IGNORECASE b text m v B S G).
Qed.

Lemma group1_of_four_digits (a b : regex) (text : str) (v : str) :
  group_bodies 1 a = [four_digits] -> group_bodies 1 b = [four_digits] ->
  group1_of (search_or a b text) = Some v -> four_decimal text v.
Proof.
  intros A B H. unfold group1_of in H.
  destruct (search_or a b text) as [m|] eqn:E; [|discriminate].
  exact (search_or_four_digits a b text m v A B E H).
Qed.

Lemma four_decimal_shape (text v : str) :
  four_decimal text v ->
  List.length v = 4 /\ Forall (fun c => isdecimal c = true) v /\
  (exists pre post, text = pre ++ v ++ post) /\
  (Forall (fun c => is_ascii c = true) text -> Forall (fun c => is_ascii_digit c = true) v).
Proof.
  intros (a & b & c & d & -> & Ha & Hb & Hc & Hd & pre & post & ->).
  split; [reflexivity|]. split; [repeat constructor; assumption|].
  split; [now exists pre, post|].
  intros F. apply Forall_app in F. destruct F as [_ F].
  apply Forall_app in F. destruct F as [F _].
  inversion F as [|? ? Aa F1]; subst. inversion F1 as [|? ? Ab F2]; subst.
  inversion F2 as [|? ? Ac F3]; subst. inversion F3 as [|? ? Ad F4]; subst.
  repeat constructor; now apply decimal_ascii.
Qed.

End Last4.

Ltac run_binds H :=
  unfold bind in H;
  repeat match type of H with
         | context [match find_first_regex ?t ?p with _ => _ end] =>
             let E := fresh "E" in
             destruct (find_first_regex t p) eqn:E; try discriminate H
         end.

(** C9 (as amended). Whenever an extractor, issuer-specific or generic,
    returns a record whose [last4] is present, [last4] is four decimal
    digits in the sense of [\d] (Unicode category Nd) that stand next to
    each other in the text; they are the ASCII digits whenever the text is
    ASCII. *)
Theorem last4_is_four_decimal_digits
  (dateutil_parse : str -> outcome datetime) (text : str)
  (f : str -> outcome FieldRecord) (r : FieldRecord) (v : str) :
  In f (extractors dateutil_parse) -> f text = Returns r -> last4 r = Some v ->
  List.length v = 4 /\ Forall (fun c => isdecimal c = true) v /\
  (exists pre post, text = pre ++ v ++ post) /\
  (Forall (fun c => is_ascii c = true) text ->
   Forall (fun c => is_ascii_digit c = true) v).
Proof.
  intros Hf Hr Hv. apply four_decimal_shape.
  unfold extractors in Hf. simpl in Hf.
  destruct Hf as [<-|[<-|[<-|[<-|[<-|[<-|[]]]]]]].
  - unfold parse_amex in Hr. run_binds Hr. injection Hr as <-. simpl in Hv.
    destruct (search_or amex_last4_card amex_last4_any text) as [m|] eqn:S; [|discriminate].
    destruct (has_groups m); [|discriminate].
    unfold search_or in S. destruct (search IGNORECASE amex_last4_card text) as [m'|] eqn:S1.
    + injection S as ->. eapply search_four_digits; [|exact S1|exact Hv]. reflexivity.
    + eapply search_four_digits; [|exact S|exact Hv]. reflexivity.
  - unfold parse_chase in Hr. run_binds Hr. injection Hr as <-. simpl in Hv.
    eapply group1_of_four_digits; [| |exact Hv]; reflexivity.
  - unfold parse_citi in Hr. run_binds Hr. injection Hr as <-. simpl in Hv.
    eapply group1_of_four_digits; [| |exact Hv]; reflexivity.
  - unfold parse_bofa in Hr. run_binds Hr. injection Hr as <-. simpl in Hv.
    eapply group1_of_four_digits; [| |exact Hv]; reflexivity.
  - unfold parse_hsbc in Hr. run_binds Hr. injection Hr as <-. simpl in Hv.
    eapply group1_of_four_digits; [| |exact Hv]; reflexivity.
  - unfold parse_generic in Hr. run_binds Hr. injection Hr as <-. simpl in Hv.
    destruct a as [[p w]|]; [|discriminate]. simpl in Hv. injection Hv as ->.
    eapply find_first_four_digits; [|exact E].
    repeat constructor; discriminate.
Qed.

(** ** [normalize_spaces] *)

Section Normalize.

Lemma until_greedy_one (p : char -> bool) :
  forall fuel lo last s g,
    lo + List.length s < fuel ->
    match last with Some n => List.length s < n | None => True end ->
    until (one p) true fuel lo None last s g = greedy_run p lo s g.
Proof.
  induction fuel as [|fuel IH]; intros lo last s g Hf Hl; [lia|].
  destruct lo as [|lo]; cbn [until].
  - assert (Hp : same_position last s = false).
    { destruct last as [n|]; simpl; [|reflexivity]. apply Nat.eqb_neq. lia. }
    rewrite Hp. simpl (can_repeat None && negb false).
    destruct s as [|c s']; simpl; [reflexivity|].
    destruct (p c); simpl; [|reflexivity].
    rewrite app_nil_r. rewrite IH; [reflexivity|simpl in Hf; lia|simpl; lia].
  - destruct s as [|c s']; simpl; [reflexivity|].
    destruct (p c); simpl; [|reflexivity].
    rewrite !app_nil_r. apply IH; [simpl in Hf; lia|].
    destruct last; simpl in *; [lia|exact I].
Qed.

(** The longest way comes first: a loop of at least one iteration over a
    text that starts in the class reads the whole run. *)
Lemma greedy_run_head (p : char -> bool) (c : char) (s : str) (g : groups) :
  p c = true ->
  exists rest, greedy_run p 1 (c :: s) g = (drop_while p s, g) :: rest.
Proof.
  intros Hc. simpl. rewrite Hc, app_nil_r.
  induction s as [|d s IH]; simpl.
  - now exists [].
  - destruct (p d) eqn:Hd.
    + destruct IH as [rest IH]. rewrite IH. simpl. now exists (rest ++ [(d :: s, g)]).
    + simpl. now exists [].
Qed.

Lemma greedy_run_nil (p : char -> bool) (c : char) (s : str) (g : groups) :
  p c = false -> greedy_run p 1 (c :: s) g = [].
Proof. intros Hc. simpl. now rewrite Hc. Qed.

Lemma set_match_space (c : char) : set_match NOFLAGS [space] c = isspace c.
Proof. unfold set_match. simpl. apply orb_false_r. Qed.

Lemma drop_while_suffix (p : char -> bool) (s : str) : suffix (drop_while p s) s.
Proof.
  induction s as [|c s IH]; simpl; [apply suffix_refl|].
  destruct (p c); [|apply suffix_refl].
  eapply suffix_trans; [exact IH|apply suffix_cons].
Qed.

(** The matches of [\s+] at the head of a text. *)
Lemma whitespace_run_lengths (s : str) :
  match s with
  | [] => match_lengths NOFLAGS whitespace_run s = []
  | c :: s' =>
      if isspace c
      then exists rest, match_lengths NOFLAGS whitespace_run s =
                        S (List.length s' - List.length (drop_while isspace s')) :: rest
      else match_lengths NOFLAGS whitespace_run s = []
  end.
Proof.
  unfold match_lengths, whitespace_run, cat, plus. cbn [fold_right matches ngroups Nat.max repeat].
  change (matches NOFLAGS (InSet [space])) with (one (set_match NOFLAGS [space])).
  rewrite until_greedy_one by (simpl; auto; lia).
  destruct s as [|c s']; [reflexivity|].
  destruct (isspace c) eqn:Hc.
  - destruct (greedy_run_head (set_match NOFLAGS [space]) c s' [])
      as [rest Hr]; [now rewrite set_match_space|].
    rewrite Hr. cbn [flat_map map app fst snd].
    assert (E : drop_while (set_match NOFLAGS [space]) s' = drop_while isspace s').
    { clear. induction s' as [|d s' IH]; simpl; [reflexivity|].
      rewrite set_match_space. destruct (isspace d); [exact IH|reflexivity]. }
    rewrite E. eexists.
    pose proof (suffix_length _ _ (drop_while_suffix isspace s')) as L.
    cbn [List.length]. f_equal. lia.
  - rewrite greedy_run_nil by now rewrite set_match_space. reflexivity.
Qed.

Lemma sub_scan_skip (fl : flags) (r : regex) (repl : str) :
  forall k s, k <= List.length s ->
    sub_scan fl r repl k s = sub_scan fl r repl 0 (skipn k s).
Proof.
  induction k as [|k IH]; intros s Hk; [reflexivity|].
  destruct s as [|c s']; simpl in Hk; [lia|].
  cbn [sub_scan skipn]. apply IH. lia.
Qed.

Lemma skipn_drop_while (p : char -> bool) (s : str) :
  skipn (List.length s - List.length (drop_while p s)) s = drop_while p s.
Proof.
  destruct (drop_while_suffix p s) as [w Hw].
  rewrite Hw at 1 3. rewrite length_app.
  replace (List.length w + List.length (drop_while p s) - List.length (drop_while p s))
    with (List.length w) by lia.
  rewrite skipn_app, skipn_all, Nat.sub_diag. reflexivity.
Qed.

Lemma collapse_drop_while (s : str) :
  collapse true s = collapse false (drop_while isspace s).
Proof.
  induction s as [|c s IH]; simpl; [reflexivity|].
  destruct (isspace c) eqn:Hc; [exact IH|].
  simpl. now rewrite Hc.
Qed.

(** [re.sub(r'\s+', ' ', s)] replaces each white-space run by one space. *)
Lemma sub_whitespace_run (s : str) :
  sub NOFLAGS whitespace_run (lit " ") s = collapse false s.
Proof.
  unfold sub.
  remember (List.length s) as n eqn:Hn. revert s Hn.
  induction n as [n IH] using lt_wf_ind. intros s Hn.
  pose proof (whitespace_run_lengths s) as L.
  destruct s as [|c s'].
  - cbn [sub_scan]. rewrite L. reflexivity.
  - cbn [sub_scan collapse]. destruct (isspace c) eqn:Hc.
    + destruct L as [rest L]. rewrite L.
      change (lit " ") with [0x20%N]. cbn [app]. f_equal.
      pose proof (suffix_length _ _ (drop_while_suffix isspace s')) as Ls.
      rewrite sub_scan_skip by lia.
      rewrite skipn_drop_while, collapse_drop_while.
      apply (IH (List.length (drop_while isspace s'))); [simpl in Hn; lia|reflexivity].
    + rewrite L. f_equal. apply (IH (List.length s')); [simpl in Hn; lia|reflexivity].
Qed.

End Normalize.

Section NormalizeWords.

Lemma space_is_space : isspace 0x20 = true.
Proof. vm_compute. reflexivity. Qed.

Lemma split_ws_words (s : str) :
  forall cur, Forall (fun c => isspace c = false) cur -> Forall is_word (split_ws cur s).
Proof.
  induction s as [|c s IH]; intros cur Hcur; simpl.
  - destruct cur; simpl; constructor; [|constructor]. split; [discriminate|assumption].
  - destruct (isspace c) eqn:Hc.
    + destruct cur as [|x cur]; simpl.
      * apply IH. constructor.
      * constructor; [split; [discriminate|assumption]|]. apply IH. constructor.
    + apply IH. apply Forall_app. split; [assumption|]. repeat constructor. assumption.
Qed.

Lemma split_ws_nonempty (s : str) (cur : str) : cur <> [] -> split_ws cur s <> [].
Proof.
  revert cur; induction s as [|c s IH]; intros cur Hcur; simpl.
  - destruct cur; [congruence|discriminate].
  - destruct (isspace c).
    + destruct cur; [congruence|discriminate].
    + apply IH. destruct cur; discriminate.
Qed.

Lemma join_cons (sep w : str) (ws : list str) :
  ws <> [] -> join sep (w :: ws) = w ++ sep ++ join sep ws.
Proof. destruct ws; [congruence|reflexivity]. Qed.

(** A collapsed text is its words joined by single spaces, up to one
    space at either end. *)
Lemma collapse_words (s : str) :
  (exists trail, collapse true s = join [0x20%N] (split_ws [] s) ++ trail /\
                 (trail = [] \/ trail = [0x20%N]) /\ (split_ws [] s = [] -> trail = [])) /\
  (forall cur, cur <> [] ->
     exists trail, cur ++ collapse false s = join [0x20%N] (split_ws cur s) ++ trail /\
                   (trail = [] \/ trail = [0x20%N])).
Proof.
  induction s as [|c s [IHt IHf]].
  - split.
    + exists []. simpl. auto.
    + intros cur Hcur. exists []. simpl. destruct cur; [congruence|]. simpl. auto.
  - split.
    + simpl. destruct (isspace c) eqn:Hc.
      * exact IHt.
      * destruct (IHf [c]) as (trail & E & T); [discriminate|].
        exists trail. change (c :: collapse false s) with ([c] ++ collapse false s).
        rewrite E. repeat split; auto.
        intros H. exfalso. revert H. apply split_ws_nonempty. discriminate.
    + intros cur Hcur. simpl. destruct (isspace c) eqn:Hc.
      * destruct IHt as (trail & E & T & Z).
        destruct cur as [|x cur]; [congruence|]. cbn [nonempty].
        destruct (split_ws [] s) as [|w ws] eqn:W.
        -- rewrite (Z eq_refl) in E. simpl in E. rewrite E.
           exists [0x20%N]. simpl. auto.
        -- exists trail. rewrite join_cons by discriminate. rewrite E.
           rewrite <- !app_assoc. simpl. auto.
      * destruct (IHf (cur ++ [c])) as (trail & E & T).
        { destruct cur; discriminate. }
        exists trail. rewrite <- E. rewrite <- app_assoc. auto.
Qed.

Lemma join_words_head (ws : list str) (c : char) (rest : str) :
  Forall is_word ws -> join [0x20%N] ws = c :: rest -> isspace c = false.
Proof.
  intros F E. destruct ws as [|w ws]; [discriminate|].
  inversion F as [|? ? [Hne Hw] F']; subst.
  destruct w as [|x w]; [congruence|].
  inversion Hw; subst.
  destruct ws; simpl in E; injection E as <- _; assumption.
Qed.

Lemma join_words_last (ws : list str) (c : char) (pre : str) :
  Forall is_word ws -> join [0x20%N] ws = pre ++ [c] -> isspace c = false.
Proof.
  intros F. revert pre. induction ws as [|w ws IH]; intros pre E.
  - destruct pre; discriminate.
  - inversion F as [|? ? [Hne Hw] F']; subst.
    destruct ws as [|w2 ws].
    + simpl in E. subst w. apply Forall_app in Hw. destruct Hw as [_ Hw].
      now inversion Hw.
    + rewrite join_cons in E by discriminate.
      assert (L : join [0x20%N] (w2 :: ws) <> []).
      { inversion F' as [|? ? [Hne2 _] _]; subst.
        destruct w2; [congruence|]. destruct ws; discriminate. }
      destruct (exists_last L) as (pre' & c' & E').
      rewrite E' in E. rewrite !app_assoc in E. apply app_inj_tail in E.
      destruct E as [_ <-]. apply (IH F' pre'). exact E'.
Qed.

Lemma rstrip_trail (t trail : str) :
  (forall c pre, t = pre ++ [c] -> isspace c = false) ->
  trail = [] \/ trail = [0x20%N] -> rstrip (t ++ trail) = t.
Proof.
  intros Hl T. unfold rstrip. rewrite rev_app_distr.
  assert (E : drop_while isspace (rev trail ++ rev t) = rev t).
  { assert (D : drop_while isspace (rev t) = rev t).
    { destruct (rev t) as [|c r] eqn:R; [reflexivity|]. simpl.
      rewrite (Hl c (rev r)); [reflexivity|].
      apply (f_equal (@rev char)) in R. rewrite rev_involutive in R. exact R. }
    destruct T as [->| ->]; simpl; rewrite ?space_is_space; exact D. }
  rewrite E. apply rev_involutive.
Qed.

Lemma lstrip_lead (t : str) :
  (forall c rest, t = c :: rest -> isspace c = false) -> lstrip t = t.
Proof.
  intros H. destruct t as [|c t]; [reflexivity|]. unfold lstrip. simpl.
  now rewrite (H c t eq_refl).
Qed.

(** [normalize_spaces] writes the words of the text with one space between
    them. *)
Lemma normalize_spaces_words (s : str) :
  normalize_spaces s = join [0x20%N] (words s).
Proof.
  unfold normalize_spaces. rewrite sub_whitespace_run. unfold words.
  assert (W : Forall is_word (split_ws [] s)) by (apply split_ws_words; constructor).
  assert (Hh := join_words_head (split_ws [] s)).
  assert (Hl := join_words_last (split_ws [] s)).
  assert (K : exists lead trail,
             collapse false s = lead ++ join [0x20%N] (split_ws [] s) ++ trail /\
             (lead = [] \/ lead = [0x20%N]) /\ (trail = [] \/ trail = [0x20%N])).
  { destruct s as [|c s]; [exists [], []; simpl; auto|].
    destruct (collapse_words s) as [IHt IHf]. simpl.
    destruct (isspace c) eqn:Hc.
    - destruct IHt as (trail & E & T & _). exists [0x20%N], trail. rewrite E. simpl. auto.
    - destruct (IHf [c]) as (trail & E & T); [discriminate|].
      exists [], trail. simpl in *. rewrite E. auto. }
  destruct K as (lead & trail & E & L & T). rewrite E.
  destruct (join [0x20%N] (split_ws [] s)) as [|c rest] eqn:J.
  - destruct L as [->| ->], T as [->| ->]; vm_compute; reflexivity.
  - assert (Hc : isspace c = false) by (eapply Hh; eauto).
    unfold strip.
    assert (E1 : lstrip (lead ++ (c :: rest) ++ trail) = (c :: rest) ++ trail).
    { destruct L as [->| ->]; unfold lstrip; simpl; rewrite ?space_is_space; simpl;
        rewrite Hc; reflexivity. }
    rewrite E1. apply rstrip_trail; [|exact T].
    intros d pre P. eapply Hl; eauto.
Qed.

End NormalizeWords.

Section NormalizeTidy.

Lemma split_ws_app_word (w : str) :
  forall cur s, Forall (fun c => isspace c = false) w ->
    split_ws cur (w ++ s) = split_ws (cur ++ w) s.
Proof.
  induction w as [|x w IH]; intros cur s F; simpl.
  - now rewrite app_nil_r.
  - inversion F as [|? ? Hx F']; subst. rewrite Hx.
    rewrite IH by assumption. now rewrite <- app_assoc.
Qed.

(** Splitting the joined words gives the words back. *)
Lemma words_join (ws : list str) :
  Forall is_word ws -> words (join [0x20%N] ws) = ws.
Proof.
  unfold words. induction ws as [|w ws IH]; intros F; [reflexivity|].
  inversion F as [|? ? [Hne Hw] F']; subst.
  destruct ws as [|w2 ws].
  - simpl. rewrite <- (app_nil_r w) at 1. rewrite split_ws_app_word by assumption.
    simpl. destruct w; [congruence|reflexivity].
  - rewrite join_cons by discriminate.
    rewrite split_ws_app_word by assumption. simpl.
    rewrite ?space_is_space. destruct w; [congruence|]. simpl.
    f_equal. apply IH. assumption.
Qed.

(** No two white-space code points stand next to each other in joined
    words. *)
Lemma join_words_spaced (ws : list str) :
  Forall is_word ws ->
  forall pre c d post, join [0x20%N] ws = pre ++ c :: d :: post ->
    isspace c = true -> isspace d = false.
Proof.
  induction ws as [|w ws IH]; intros F pre c d post E Hc.
  - destruct pre; discriminate.
  - inversion F as [|? ? [Hne Hw] F']; subst.
    assert (Hin : forall x, In x w -> isspace x = false)
      by (apply Forall_forall; exact Hw).
    destruct ws as [|w2 ws].
    + simpl in E. rewrite (Hin c) in Hc; [discriminate|].
      rewrite E. apply in_or_app. right. now left.
    + rewrite join_cons in E by discriminate.
      remember (join [0x20%N] (w2 :: ws)) as J eqn:HJ.
      change ([0x20%N] ++ J) with (0x20%N :: J) in E.
      apply app_eq_app in E. destruct E as [l [[E1 E2]|[E1 E2]]].
      * (* the pair starts inside [w] or right after it *)
        destruct l as [|x l].
        -- simpl in E2. injection E2 as _ E2.
           apply (join_words_head (w2 :: ws) d post F'). now rewrite <- HJ.
        -- simpl in E2. injection E2 as Ex _. subst x.
           rewrite (Hin c) in Hc; [discriminate|].
           rewrite E1. apply in_or_app. right. now left.
      * (* the pair starts after [w] *)
        destruct l as [|x l].
        -- simpl in E2. injection E2 as _ E2.
           apply (join_words_head (w2 :: ws) d post F'). now rewrite <- HJ.
        -- simpl in E2. injection E2 as _ E2.
           apply (IH F' l c d post); [exact E2|exact Hc].
Qed.

End NormalizeTidy.

(** C8. [normalize_spaces] is idempotent; it writes the words of the text
    (its maximal runs without white space) with a single space for each
    white-space run between them, so that no two white-space characters are
    adjacent in the result and none stands at either end. *)
Theorem normalize_spaces_idempotent (T : str) :
  normalize_spaces (normalize_spaces T) = normalize_spaces T /\
  normalize_spaces T = join [0x20%N] (words T) /\
  (forall pre c d post, normalize_spaces T = pre ++ c :: d :: post ->
     isspace c = true -> isspace d = false) /\
  (forall c rest, normalize_spaces T = c :: rest -> isspace c = false) /\
  (forall pre c, normalize_spaces T = pre ++ [c] -> isspace c = false).
Proof.
  assert (W : Forall is_word (words T)) by (apply split_ws_words; constructor).
  rewrite !normalize_spaces_words. rewrite words_join by exact W.
  split; [reflexivity|]. split; [reflexivity|]. split; [|split].
  - intros pre c d post E. eapply join_words_spaced; eauto.
  - intros c rest E. eapply join_words_head; eauto.
  - intros pre c E. eapply join_words_last; eauto.
Qed.
(** ** [str.lower] on ASCII letters *)

Lemma code_range_in (n : nat) :
  forall lo c, (lo <= c)%N -> (c < lo + N.of_nat n)%N -> In c (code_range lo n).
Proof.
  induction n as [|n IH]; intros lo c H1 H2; [lia|].
  cbn [code_range]. destruct (N.eq_dec lo c) as [->|Hne]; [now left|].
  right. apply IH; lia.
Qed.

(** A property of the code points below [bound], checked one by one. *)
Lemma below_all (p : N -> bool) (bound : N) (c : N) :
  forallb p (code_range 0 (N.to_nat bound)) = true -> (c < bound)%N -> p c = true.
Proof.
  intros F L. rewrite forallb_forall in F. apply F. apply code_range_in; lia.
Qed.

Lemma ascii_lower_cases (c d : char) :
  same_letter c d ->
  c = d \/ ((0x41 <= c)%N /\ (c <= 0x5A)%N /\ d = (c + 32)%N) \/
           ((0x41 <= d)%N /\ (d <= 0x5A)%N /\ c = (d + 32)%N).
Proof.
  unfold same_letter, ascii_lower.
  destruct ((0x41 <=? c)%N && (c <=? 0x5A)%N) eqn:Ec;
    destruct ((0x41 <=? d)%N && (d <=? 0x5A)%N) eqn:Ed; intros H.
  - left. lia.
  - apply andb_prop in Ec. destruct Ec as [E1 E2]. apply N.leb_le in E1, E2.
    right. left. repeat split; auto.
  - apply andb_prop in Ed. destruct Ed as [E1 E2]. apply N.leb_le in E1, E2.
    right. right. repeat split; auto.
  - now left.
Qed.

Lemma lower_view_letter (c : char) :
  (0x41 <= c)%N -> (c <= 0x5A)%N -> lower_view c = lower_view (c + 32)%N.
Proof.
  intros H1 H2.
  assert (F : forallb (fun x => implb ((0x41 <=? x)%N && (x <=? 0x5A)%N)
                                  (let '(a, b, l, k, i) := lower_view x in
                                   let '(a', b', l', k', i') := lower_view (x + 32)%N in
                                   Bool.eqb a a' && Bool.eqb b b' && (l =? l')%N &&
                                   Bool.eqb k k' && Bool.eqb i i'))
                      (code_range 0 (N.to_nat 128)) = true) by (vm_compute; reflexivity).
  pose proof (below_all _ 128%N c F ltac:(lia)) as K. cbv beta in K.
  replace ((0x41 <=? c)%N && (c <=? 0x5A)%N) with true in K
    by (symmetry; apply andb_true_intro; split; apply N.leb_le; assumption).
  cbn [implb] in K.
  destruct (lower_view c) as [[[[a b] l] k] i], (lower_view (c + 32)%N) as [[[[a' b'] l'] k'] i'].
  apply andb_prop in K. destruct K as [K Ki]. apply andb_prop in K. destruct K as [K Kk].
  apply andb_prop in K. destruct K as [K Kl]. apply andb_prop in K. destruct K as [Ka Kb].
  apply Bool.eqb_prop in Ka, Kb, Kk, Ki. apply N.eqb_eq in Kl. now subst.
Qed.

Lemma same_letter_view (c d : char) : same_letter c d -> lower_view c = lower_view d.
Proof.
  intros H. destruct (ascii_lower_cases c d H) as [->|[(H1 & H2 & ->)|(H1 & H2 & ->)]].
  - reflexivity.
  - now apply lower_view_letter.
  - symmetry. now apply lower_view_letter.
Qed.

Lemma drop_while_same (p : char -> bool) (x y : str) :
  (forall c d, same_letter c d -> p c = p d) ->
  Forall2 same_letter x y -> Forall2 same_letter (drop_while p x) (drop_while p y).
Proof.
  intros Hp F. induction F as [|c d x y R F IH]; [constructor|].
  cbn [drop_while]. rewrite (Hp c d R). destruct (p d); [exact IH|now constructor].
Qed.

Lemma final_sigma_same (b b' r r' : str) :
  Forall2 same_letter b b' -> Forall2 same_letter r r' ->
  final_sigma b r = final_sigma b' r'.
Proof.
  intros Fb Fr. unfold final_sigma.
  assert (Hi : forall c d, same_letter c d -> case_ignorable c = case_ignorable d).
  { intros c d R. apply same_letter_view in R. unfold lower_view in R. congruence. }
  assert (Hc : forall c d, same_letter c d -> cased c = cased d).
  { intros c d R. apply same_letter_view in R. unfold lower_view in R. congruence. }
  pose proof (drop_while_same case_ignorable b b' Hi Fb) as D1.
  pose proof (drop_while_same case_ignorable r r' Hi Fr) as D2.
  destruct D1 as [|c d x y R _]; [reflexivity|].
  rewrite (Hc c d R). destruct D2 as [|c2 d2 x2 y2 R2 _]; [reflexivity|].
  now rewrite (Hc c2 d2 R2).
Qed.

(** The lower-cased text does not depend on the case of the ASCII letters. *)
Lemma lower_from_same (s s' : str) :
  Forall2 same_letter s s' ->
  forall b b', Forall2 same_letter b b' -> lower_from b s = lower_from b' s'.
Proof.
  intros F. induction F as [|c d s s' R F IH]; intros b b' Fb; [reflexivity|].
  cbn [lower_from].
  pose proof (same_letter_view c d R) as V. unfold lower_view in V.
  injection V as V1 V2 V3 _ _.
  rewrite V1. unfold lower_full. rewrite V2, V3.
  rewrite (final_sigma_same b b' s s' Fb F).
  f_equal. apply IH. now constructor.
Qed.

Lemma lower_same (s s' : str) : Forall2 same_letter s s' -> lower s = lower s'.
Proof. intros F. apply (lower_from_same s s' F). constructor. Qed.

(** On an ASCII text, lower-casing maps [A-Z] to [a-z] and keeps the
    rest. *)
Lemma lower_from_ascii (s : str) :
  Forall (fun c => is_ascii c = true) s -> forall b, lower_from b s = map ascii_lower s.
Proof.
  intros F. induction F as [|c s Hc F IH]; intros b; [reflexivity|].
  cbn [lower_from map].
  assert (K : forallb (fun x => negb (x =? 0x3A3)%N && negb (x =? 0x130)%N &&
                                (tolower x =? ascii_lower x)%N) (code_range 0 (N.to_nat 128)) = true)
    by (vm_compute; reflexivity).
  unfold is_ascii in Hc. apply N.ltb_lt in Hc.
  pose proof (below_all _ 128%N c K ltac:(lia)) as Kc. cbv beta in Kc.
  apply andb_prop in Kc. destruct Kc as [Kc K3]. apply andb_prop in Kc. destruct Kc as [K1 K2].
  apply negb_true_iff in K1, K2. apply N.eqb_eq in K3.
  rewrite K1. unfold lower_full. rewrite K2, K3. cbn [app]. f_equal. apply IH.
Qed.

(** ** [detect_issuer] *)

Section Issuer.

Lemma starts_with_spec (p s : str) :
  starts_with p s = true <-> exists post, s = p ++ post.
Proof.
  revert s; induction p as [|a p IH]; intros s; simpl.
  - split; [intros _; now exists s|reflexivity].
  - destruct s as [|c s].
    + split; [discriminate|intros [post H]; discriminate].
    + rewrite andb_true_iff, N.eqb_eq, IH. split.
      * intros [-> [post ->]]. now exists post.
      * intros [post H]. injection H as -> ->. split; [reflexivity|now exists post].
Qed.

(** [p in s]: [s] is some text, [p], some text. *)
Lemma contains_spec (p s : str) :
  contains p s = true <-> exists pre post, s = pre ++ p ++ post.
Proof.
  induction s as [|c s IH]; simpl.
  - rewrite orb_false_r, starts_with_spec. split.
    + intros [post H]. now exists [], post.
    + intros [pre [post H]]. destruct pre; simpl in H.
      * now exists post.
      * discriminate.
  - rewrite orb_true_iff, starts_with_spec, IH. split.
    + intros [[post H]|[pre [post H]]].
      * now exists [], post.
      * exists (c :: pre), post. simpl. now rewrite H.
    + intros [pre [post H]]. destruct pre as [|x pre]; simpl in H.
      * left. now exists post.
      * right. injection H as _ H. now exists pre, post.
Qed.

(** A text that holds a word holds the end of the word. *)
Lemma contains_tail (a b s : str) : contains (a ++ b) s = true -> contains b s = true.
Proof.
  rewrite !contains_spec. intros [pre [post H]].
  exists (pre ++ a), post. rewrite H. now rewrite <- !app_assoc.
Qed.

End Issuer.

(** C6. [detect_issuer] tests the rules in the order American Express,
    Chase, Citi, Bank of America, HSBC on the lower-cased text, by substring
    containment; the first rule with a keyword in the text gives the name,
    and ["Unknown"] is the fallback.  For every text, the empty one
    included, the result is one of the six names.  The test does not look
    at letter case: two texts that differ only in the case of ASCII letters
    get the same name; on an ASCII text the lower-cased text is the text
    with [A-Z] replaced by [a-z]; and a keyword is in the lower-cased text
    when it stands in it as a contiguous run. *)
Theorem detect_issuer_first_rule (text : str) :
  detect_issuer text = classify_spec text /\
  map fst issuer_rules =
    [lit "American Express"; lit "Chase"; lit "Citi"; lit "Bank of America"; lit "HSBC"] /\
  In (detect_issuer text) issuer_names /\
  detect_issuer [] = lit "Unknown" /\
  (forall text', Forall2 same_letter text text' -> detect_issuer text' = detect_issuer text) /\
  (Forall (fun c => is_ascii c = true) text -> lower text = map ascii_lower text) /\
  (forall kw, contains kw (lower text) = true <->
              exists pre post, lower text = pre ++ kw ++ post).
Proof.
  split; [|split; [reflexivity|split; [|split; [reflexivity|split; [|split]]]]].
  - unfold detect_issuer, classify_spec, issuer_rules.
    cbn [first_rule existsb]. rewrite !orb_false_r. reflexivity.
  - unfold detect_issuer, issuer_names, issuer_rules. cbn [map fst app].
    repeat match goal with
           | |- context [if ?b then _ else _] => destruct b
           end; simpl; auto 10.
  - intros text' F. unfold detect_issuer. now rewrite (lower_same text text' F).
  - intros F. apply (lower_from_ascii text F).
  - intros kw. apply contains_spec.
Qed.

(** C10. A text with the word "purchase" in it, in any letter case, and
    with neither "american express" nor "amex", is classified as Chase:
    "purchase" ends in the keyword "chase". *)
Theorem purchase_is_chase (text : str) :
  contains (lit "purchase") (lower text) = true ->
  contains (lit "american express") (lower text) = false ->
  contains (lit "amex") (lower text) = false ->
  detect_issuer text = lit "Chase".
Proof.
  intros P A X. unfold detect_issuer. rewrite A, X. cbn [orb].
  assert (C : contains (lit "chase") (lower text) = true).
  { apply contains_tail with (a := lit "pur"). exact P. }
  rewrite C. reflexivity.
Qed.

Lemma purchase_is_chase_witness :
  detect_issuer (lit "Thank you for your PURCHASE") = lit "Chase".
Proof.
  apply purchase_is_chase; vm_compute; reflexivity.
Defined.

(** ** [try_parse_date] *)

Section Dates.

Lemma padded_ok_below (w : nat) (bound : N) (n : N) :
  forallb (fun k => padded_ok w (N.of_nat k)) (seq 0 (N.to_nat bound)) = true ->
  (n < bound)%N -> padded_ok w n = true.
Proof.
  intros F L. rewrite forallb_forall in F.
  rewrite <- (N2Nat.id n). apply F. apply in_seq. lia.
Qed.

Lemma padded_four (n : N) : (n <= 9999)%N -> padded_ok 4 n = true.
Proof.
  intros L. apply padded_ok_below with (bound := 10000%N); [vm_compute; reflexivity|lia].
Qed.

Lemma padded_two (n : N) : (n <= 31)%N -> padded_ok 2 n = true.
Proof.
  intros L. apply padded_ok_below with (bound := 32%N); [vm_compute; reflexivity|lia].
Qed.

Lemma valid_date_bounds (y m d : N) :
  valid_date y m d = true -> (y <= 9999 /\ m <= 12 /\ d <= 31)%N.
Proof.
  unfold valid_date. rewrite !andb_true_iff, !N.leb_le.
  intros [[[[[_ Hy] _] Hm] _] Hd]. repeat split; auto.
  unfold days_in_month in Hd.
  destruct (m =? 2)%N; [destruct (is_leap y); lia|].
  destruct ((m =? 4) || (m =? 6) || (m =? 9) || (m =? 11))%N; lia.
Qed.

Lemma padded_ok_four (n : N) :
  padded_ok 4 n = true ->
  exists a b c d, zero_padded 4 n = [a; b; c; d] /\
    Forall (fun x => is_ascii_digit x = true) [a; b; c; d].
Proof.
  unfold padded_ok. rewrite andb_true_iff, Nat.eqb_eq, forallb_forall.
  intros [L F]. destruct (zero_padded 4 n) as [|a [|b [|c [|d [|e l]]]]]; try discriminate.
  exists a, b, c, d. split; [reflexivity|]. apply Forall_forall. exact F.
Qed.

Lemma padded_ok_two (n : N) :
  padded_ok 2 n = true ->
  exists a b, zero_padded 2 n = [a; b] /\ Forall (fun x => is_ascii_digit x = true) [a; b].
Proof.
  unfold padded_ok. rewrite andb_true_iff, Nat.eqb_eq, forallb_forall.
  intros [L F]. destruct (zero_padded 2 n) as [|a [|b [|c l]]]; try discriminate.
  exists a, b. split; [reflexivity|]. apply Forall_forall. exact F.
Qed.

(** [isoformat] prints a date as [YYYY-MM-DD]. *)
Lemma isoformat_shape (d : date) : iso_shape (isoformat d).
Proof.
  destruct d as [y m dd ok]. unfold isoformat. cbn [year month day].
  destruct (valid_date_bounds _ _ _ ok) as (Hy & Hm & Hd).
  destruct (padded_ok_four _ (padded_four _ Hy)) as (y1 & y2 & y3 & y4 & -> & Fy).
  destruct (padded_ok_two m) as (m1 & m2 & -> & Fm); [apply padded_two; lia|].
  destruct (padded_ok_two _ (padded_two _ Hd)) as (d1 & d2 & -> & Fd).
  exists y1, y2, y3, y4, m1, m2, d1, d2. split; [reflexivity|].
  inversion Fy as [|? ? ? Fy1]; subst. inversion Fy1 as [|? ? ? Fy2]; subst.
  inversion Fy2 as [|? ? ? Fy3]; subst. inversion Fy3; subst.
  inversion Fm as [|? ? ? Fm1]; subst. inversion Fm1; subst.
  inversion Fd as [|? ? ? Fd1]; subst. inversion Fd1; subst.
  repeat constructor; assumption.
Qed.

End Dates.

Lemma str_eqb_eq (a b : str) : str_eqb a b = true -> a = b.
Proof.
  revert b; induction a as [|x a IH]; intros [|y b]; simpl; try discriminate; [reflexivity|].
  intros H. apply andb_prop in H. destruct H as [H1 H2].
  apply N.eqb_eq in H1. subst y. f_equal. now apply IH.
Qed.

(** [%04d] and [%02d], digit by digit. *)
Lemma zero_padded_four (n : N) :
  (n <= 9999)%N ->
  zero_padded 4 n = [digit_char (n / 1000); digit_char (n / 100 mod 10);
                     digit_char (n / 10 mod 10); digit_char (n mod 10)]%N.
Proof.
  intros L. apply str_eqb_eq.
  apply (below_all (fun k => str_eqb (zero_padded 4 k)
                                [digit_char (k / 1000); digit_char (k / 100 mod 10);
                                 digit_char (k / 10 mod 10); digit_char (k mod 10)]%N) 10000%N);
    [vm_compute; reflexivity|lia].
Qed.

Lemma zero_padded_two (n : N) :
  (n <= 31)%N -> zero_padded 2 n = [digit_char (n / 10); digit_char (n mod 10)]%N.
Proof.
  intros L. apply str_eqb_eq.
  apply (below_all (fun k => str_eqb (zero_padded 2 k)
                                [digit_char (k / 10); digit_char (k mod 10)]%N) 32%N);
    [vm_compute; reflexivity|lia].
Qed.

(** [isoformat] writes the year, the month and the day of the date, and
    nothing else. *)
Lemma isoformat_digits (d : date) : isoformat d = iso_digits (year d) (month d) (day d).
Proof.
  destruct d as [y m dd ok]. unfold isoformat, iso_digits. cbn [year month day].
  destruct (valid_date_bounds _ _ _ ok) as (Hy & Hm & Hd).
  rewrite (zero_padded_four y Hy), (zero_padded_two m), (zero_padded_two dd Hd) by lia.
  reflexivity.
Qed.

(** No date of the calendar is written "2024-02-30". *)
Lemma no_february_30 (y m d : N) :
  valid_date y m d = true -> iso_digits y m d <> lit "2024-02-30".
Proof.
  intros V E.
  destruct (valid_date_bounds _ _ _ V) as (_ & Hm & Hd).
  assert (Km : (m =? 2)%N = true).
  { pose proof (below_all (fun k => implb (digit_char (k / 10) =? 0x30)%N
                                      (implb (digit_char (k mod 10) =? 0x32)%N (k =? 2)%N))
                          13%N m ltac:(vm_compute; reflexivity) ltac:(lia)) as K.
    cbv beta in K. unfold iso_digits in E. injection E as _ _ _ _ E1 E2 _ _.
    rewrite E1, E2 in K. exact K. }
  assert (Kd : (d =? 30)%N = true).
  { pose proof (below_all (fun k => implb (digit_char (k / 10) =? 0x33)%N
                                      (implb (digit_char (k mod 10) =? 0x30)%N (k =? 30)%N))
                          32%N d ltac:(vm_compute; reflexivity) ltac:(lia)) as K.
    cbv beta in K. unfold iso_digits in E. injection E as _ _ _ _ _ _ E1 E2.
    rewrite E1, E2 in K. exact K. }
  apply N.eqb_eq in Km, Kd. subst m d.
  unfold valid_date, days_in_month in V. cbn [N.eqb Pos.eqb] in V.
  destruct (is_leap y); rewrite !andb_true_iff in V; destruct V as [_ V]; discriminate V.
Qed.

(** C5. [try_parse_date] never raises: whatever the lenient parser raises
    on a text becomes [None], and so for "February 30, 2024" and "not a
    date" when the parser fails on them, as [dateutil] does; the result is
    [None] only then.  When the parser returns, the result is the calendar
    date alone, time of day dropped: the year, the month and the day
    written digit by digit as [YYYY-MM-DD], a date of the calendar; so
    "2024-02-30" is never returned, on any text. *)
Theorem try_parse_date_never_raises
  (dateutil_parse : str -> outcome datetime) (text : str) :
  (forall e, dateutil_parse text = Raises e -> try_parse_date dateutil_parse text = None) /\
  (forall dt, dateutil_parse text = Returns dt ->
     try_parse_date dateutil_parse text = Some (isoformat (dt_date dt)) /\
     iso_shape (isoformat (dt_date dt))) /\
  (try_parse_date dateutil_parse text = None <-> exists e, dateutil_parse text = Raises e) /\
  (forall dt, dateutil_parse text = Returns dt ->
     try_parse_date dateutil_parse text =
       Some (iso_digits (year (dt_date dt)) (month (dt_date dt)) (day (dt_date dt))) /\
     valid_date (year (dt_date dt)) (month (dt_date dt)) (day (dt_date dt)) = true) /\
  (forall e, dateutil_parse (lit "February 30, 2024") = Raises e ->
     try_parse_date dateutil_parse (lit "February 30, 2024") = None) /\
  (forall e, dateutil_parse (lit "not a date") = Raises e ->
     try_parse_date dateutil_parse (lit "not a date") = None) /\
  try_parse_date dateutil_parse text <> Some (lit "2024-02-30").
Proof.
  unfold try_parse_date.
  split; [|split; [|split; [|split; [|split; [|split]]]]].
  - intros e ->. reflexivity.
  - intros dt ->. split; [reflexivity|apply isoformat_shape].
  - destruct (dateutil_parse text) as [dt|e].
    + split; [discriminate|intros [e H]; discriminate].
    + split; [intros _; now exists e|reflexivity].
  - intros dt ->. split; [now rewrite isoformat_digits|apply date_ok].
  - intros e ->. reflexivity.
  - intros e ->. reflexivity.
  - destruct (dateutil_parse text) as [dt|e]; [|discriminate].
    intros [= E]. rewrite isoformat_digits in E.
    exact (no_february_30 _ _ _ (date_ok (dt_date dt)) E).
Qed.

(** ** The pipeline on concrete texts *)

(** C1 (the code departs from the claim). On the scenario text, which holds
    no issuer keyword, the generic extractor runs, but [amount_due] is the
    label "Amount Due" and the date parser is handed the label "Due Date":
    the generic patterns put the label in group 1 and the value in group 2,
    and [find_first_regex] returns group 1. *)
Theorem generic_extractor_returns_labels
  (dateutil_parse : str -> outcome datetime)
  (pdf_pages : bytes -> outcome (list (outcome (option str)))) :
  let text := lit "Card Type: Rewards Due Date: 2024-07-01 Amount Due: 100.00" in
  detect_issuer (normalize_spaces text) = lit "Unknown" /\
  parse_text dateutil_parse text =
  Returns {| fields := {| issuer := lit "Unknown"; last4 := None;
                          card_variant := Some (lit "Rewards Due Date");
                          statement_period := None;
                          due_date := try_parse_date dateutil_parse (lit "Due Date");
                          amount_due := Some (lit "Amount Due") |};
             raw_sample_snippet := text |} /\
  field_of amount_due (parse_hsbc dateutil_parse text) = Returns (Some (lit "100.00")).
Proof.
  vm_compute. repeat split; reflexivity.
Qed.

(** C3 (the code departs from the claim). A text with "Card Member since"
    before "Card ending in 1234": the first alternative of the American
    Express search matches, it has no group, and [last4] is [None]; the
    Citi extractor, with the same "Card ending in" pattern, finds 1234. *)
Theorem amex_last4_lost_after_member_since
  (dateutil_parse : str -> outcome datetime) :
  let text := lit "Card Member since 2019 Card ending in 1234" in
  field_of last4 (parse_amex dateutil_parse text) = Returns None /\
  field_of last4 (parse_citi dateutil_parse text) = Returns (Some (lit "1234")).
Proof.
  vm_compute. split; reflexivity.
Qed.

(** C4 (the code departs from the claim). Both patterns match "x"; the
    first has a group that takes no part in its match, and
    [find_first_regex] raises instead of returning the first pattern's
    result. *)
Theorem find_first_regex_raises_on_unset_group :
  let P1 := alt [word "x"; cat [Group 1 (word "y")]] in
  let P2 := word "x" in
  search IGNORECASE_DOTALL P1 (lit "x") =
    Some {| m_start := 0; m_group0 := lit "x"; m_groups := [None] |} /\
  search IGNORECASE_DOTALL P2 (lit "x") =
    Some {| m_start := 0; m_group0 := lit "x"; m_groups := [] |} /\
  find_first_regex (lit "x") [P1; P2] = Raises AttributeError.
Proof.
  vm_compute. repeat split; reflexivity.
Qed.

(** C7. When the text extraction yields the empty text, [parse_statement]
    returns a record: issuer "Unknown", the five fields absent, an empty
    snippet. *)
Theorem empty_text_gives_unknown_record
  (dateutil_parse : str -> outcome datetime)
  (pdf_pages : bytes -> outcome (list (outcome (option str)))) (pdf_bytes : bytes) :
  extract_text_from_pdf_bytes pdf_pages pdf_bytes = Returns [] ->
  parse_statement dateutil_parse pdf_pages pdf_bytes =
  Returns {| fields := {| issuer := lit "Unknown"; last4 := None; card_variant := None;
                          statement_period := None; due_date := None;
                          amount_due := None |};
             raw_sample_snippet := [] |}.
Proof.
  intros H. unfold parse_statement. rewrite H. vm_compute. reflexivity.
Qed.

Lemma empty_text_gives_unknown_record_witness :
  parse_statement sample_parse sample_pages [] =
  Returns {| fields := {| issuer := lit "Unknown"; last4 := None; card_variant := None;
                          statement_period := None; due_date := None;
                          amount_due := None |};
             raw_sample_snippet := [] |}.
Proof.
  apply empty_text_gives_unknown_record. vm_compute. reflexivity.
Defined.

(** C9, as stated, fails: after "ending in", four Arabic-Indic digits
    (U+0661 to U+0664) are digits for [\d], and [last4] holds them. *)
Lemma last4_not_ascii_counterexample :
  field_of last4 (parse_generic sample_parse (lit "ending in " ++ [0x661; 0x662; 0x663; 0x664]%N))
    = Returns (Some [0x661; 0x662; 0x663; 0x664]%N) /\
  forallb is_ascii_digit [0x661; 0x662; 0x663; 0x664]%N = false.
Proof.
  vm_compute. split; reflexivity.
Qed.

Lemma last4_is_four_decimal_digits_witness :
  List.length (lit "1234") = 4 /\
  Forall (fun c => isdecimal c = true) (lit "1234") /\
  (exists pre post, lit "Card ending in 1234" = pre ++ lit "1234" ++ post) /\
  (Forall (fun c => is_ascii c = true) (lit "Card ending in 1234") ->
   Forall (fun c => is_ascii_digit c = true) (lit "1234")).
Proof.
  apply (last4_is_four_decimal_digits sample_parse (lit "Card ending in 1234")
           (parse_chase sample_parse)
           {| issuer := lit "Chase"; last4 := Some (lit "1234"); card_variant := None;
              statement_period := None; due_date := None; amount_due := None |}).
  - simpl. auto.
  - vm_compute. reflexivity.
  - reflexivity.
Defined.

(** ** Searching a text piece by piece *)

Section Toolkit.

Variable fl : flags.

(** A pattern that starts with literals matches only where they stand. *)
Lemma matches_literals (l : list ascii) (rs : list regex) :
  forall s g,
    matches fl (cat (map Literal l ++ rs)) s g =
    if istarts fl l s then matches fl (cat rs) (skipn (List.length l) s) g else [].
Proof.
  induction l as [|a l IH]; intros s g.
  - reflexivity.
  - cbn [map app cat fold_right matches istarts List.length].
    destruct s as [|c s']; [reflexivity|].
    cbn [one skipn]. destruct (literal_match fl a c); cbn [flat_map fst snd andb].
    + rewrite app_nil_r. apply IH.
    + reflexivity.
Qed.

Lemma matches_word (w : string) (rs : list regex) (s : str) (g : groups) :
  matches fl (cat (chars w ++ rs)) s g =
  if starts_at fl w s then matches fl (cat rs) (skipn (String.length w) s) g else [].
Proof.
  unfold chars, starts_at. rewrite matches_literals.
  replace (List.length (list_ascii_of_string w)) with (String.length w); [reflexivity|].
  induction w; simpl; auto.
Qed.

Lemma starts_in_split (w : string) (P rest : str) :
  starts_in fl w P rest = false ->
  forall A1 A2, P = A1 ++ A2 -> A2 <> [] -> starts_at fl w (A2 ++ rest) = false.
Proof.
  revert P. induction P as [|c P IH]; intros H A1 A2 E Hne.
  - destruct A1, A2; try discriminate. congruence.
  - simpl in H. apply orb_false_elim in H. destruct H as [H1 H2].
    destruct A1 as [|a A1]; simpl in E.
    + subst A2. exact H1.
    + injection E as _ E. eapply IH; eauto.
Qed.

(** The scan passes over a prefix in which the pattern matches nowhere. *)
Lemma search_from_skip (r : regex) :
  forall P s k,
    (forall A1 A2, P = A1 ++ A2 -> A2 <> [] ->
       matches fl r (A2 ++ s) (repeat None (ngroups r)) = []) ->
    search_from fl r k (P ++ s) = search_from fl r (k + List.length P) s.
Proof.
  induction P as [|c P IH]; intros s k H.
  - simpl. f_equal. lia.
  - cbn [app search_from].
    assert (H0 : matches fl r (c :: P ++ s) (repeat None (ngroups r)) = [])
      by (apply (H [] (c :: P)); [reflexivity|discriminate]).
    rewrite H0. rewrite IH.
    + f_equal. simpl. lia.
    + intros A1 A2 E Hne. apply (H (c :: A1) A2); [simpl; now rewrite E|exact Hne].
Qed.

Lemma search_from_here (r : regex) (s : str) (k : nat) (st : state) (rest : list state) :
  matches fl r s (repeat None (ngroups r)) = st :: rest ->
  search_from fl r k s =
  Some {| m_start := k; m_group0 := consumed s (fst st); m_groups := snd st |}.
Proof.
  intros H. destruct s; simpl; rewrite H; reflexivity.
Qed.

(** The match [re.search] returns when the pattern matches nowhere inside
    the prefix [P] and matches right after it. *)
Lemma search_after (r : regex) (P s : str) (st : state) (rest : list state) :
  (forall A1 A2, P = A1 ++ A2 -> A2 <> [] ->
     matches fl r (A2 ++ s) (repeat None (ngroups r)) = []) ->
  matches fl r s (repeat None (ngroups r)) = st :: rest ->
  search fl r (P ++ s) =
  Some {| m_start := List.length P; m_group0 := consumed s (fst st); m_groups := snd st |}.
Proof.
  intros H1 H2. unfold search. rewrite search_from_skip by exact H1.
  now apply search_from_here with (rest := rest).
Qed.

Lemma flat_map_head (A B : Type) (f : A -> list B) (x : A) (xs : list A) (l : list A) :
  l = x :: xs ->
  forall y ys, f x = y :: ys -> exists rest, flat_map f l = y :: rest.
Proof.
  intros -> y ys E. simpl. rewrite E. now exists (ys ++ flat_map f xs).
Qed.

(** A greedy loop over a class reads the whole run first. *)
Lemma greedy_run_app (p : char -> bool) (g : groups) (z : str) :
  head_outside p z ->
  forall u lo, forallb p u = true -> lo <= List.length u ->
    exists rest, greedy_run p lo (u ++ z) g = (z, g) :: rest.
Proof.
  intros Hz. induction u as [|c u IH]; intros lo Hu Hlo.
  - simpl in Hlo. assert (lo = 0) by lia. subst lo. simpl.
    destruct z as [|d z]; simpl.
    + now exists [].
    + simpl in Hz. rewrite Hz. now exists [].
  - simpl in Hu. apply andb_prop in Hu. destruct Hu as [Hc Hu].
    cbn [app greedy_run]. rewrite Hc.
    destruct (IH (pred lo) Hu) as [rest E]; [simpl in Hlo; lia|].
    rewrite E. simpl. eexists. reflexivity.
Qed.

Lemma until_lazy_one (p : char -> bool) :
  forall fuel lo last s g,
    lo + List.length s < fuel ->
    match last with Some n => List.length s < n | None => True end ->
    until (one p) false fuel lo None last s g = lazy_run p lo s g.
Proof.
  induction fuel as [|fuel IH]; intros lo last s g Hf Hl; [lia|].
  destruct lo as [|lo]; cbn [until].
  - assert (Hp : same_position last s = false).
    { destruct last as [n|]; simpl; [|reflexivity]. apply Nat.eqb_neq. lia. }
    rewrite Hp. simpl (can_repeat None && negb false).
    destruct s as [|c s']; simpl; [reflexivity|].
    destruct (p c); simpl; [|reflexivity].
    rewrite app_nil_r. rewrite IH; [reflexivity|simpl in Hf; lia|simpl; lia].
  - destruct s as [|c s']; simpl; [reflexivity|].
    destruct (p c); simpl; [|reflexivity].
    rewrite !app_nil_r. apply IH; [simpl in Hf; lia|].
    destruct last; simpl in *; [lia|exact I].
Qed.

(** A group around a run of a class, at the end of a pattern: the run is
    the group's value. *)
Lemma group_run_head (items : list set_item) (u z : str) (g : groups) :
  forallb (set_match fl items) u = true -> u <> [] ->
  head_outside (set_match fl items) z ->
  exists rest,
    matches fl (cat [Group 1 (cat [plus (InSet items)])]) (u ++ z) g =
    (z, set_group 1 u g) :: rest.
Proof.
  intros Hu Hne Hz.
  cbn [cat fold_right plus matches].
  change (matches fl (InSet items)) with (one (set_match fl items)).
  rewrite until_greedy_one by (simpl; auto; lia).
  destruct (greedy_run_app (set_match fl items) g z Hz u 1 Hu) as [rest E].
  { destruct u; [congruence|simpl; lia]. }
  rewrite E. cbn [flat_map map app fst snd]. rewrite consumed_app.
  eexists. reflexivity.
Qed.

End Toolkit.

(** ** The extractors never raise *)

Section Totality.

Variable fl : flags.

Lemma matches_keeps_group (r : regex) (s : str) (g : groups) (st : state) (n : nat) :
  In st (matches fl r s g) -> nth n g None <> None -> nth n (snd st) None <> None.
Proof.
  intros H Hn. apply matches_sound in H. destruct H as (_ & _ & G).
  destruct (G n) as [E|P]; simpl in *.
  - now rewrite E.
  - destruct P as (body & s' & s'' & g' & g'' & _ & _ & _ & ->). discriminate.
Qed.

Lemma matches_length (r : regex) (s : str) (g : groups) (st : state) :
  In st (matches fl r s g) -> List.length (snd st) = List.length g.
Proof.
  intros H. apply matches_sound in H. destruct H as (_ & L & _). exact L.
Qed.

Lemma sets_group_ngroups (r : regex) (i : nat) : sets_group i r = true -> i <= ngroups r.
Proof.
  induction r as [|a| |items|r1 IH1 r2 IH2|r1 IH1 r2 IH2|j r1 IH1|lo hi r1 IH1|lo hi r1 IH1];
    simpl; try discriminate.
  - intros H. apply orb_prop in H. destruct H as [H|H]; [apply IH1 in H|apply IH2 in H]; lia.
  - intros H. apply andb_prop in H. destruct H as [H _]. apply IH1 in H. lia.
  - intros H. apply orb_prop in H. destruct H as [H|H].
    + apply Nat.eqb_eq in H. lia.
    + apply IH1 in H. lia.
  - intros H. apply andb_prop in H. destruct H as [_ H]. auto.
  - intros H. apply andb_prop in H. destruct H as [_ H]. auto.
Qed.

Lemma until_sets (body : str -> groups -> list state) (i : nat) :
  (forall s g st, i < List.length g -> In st (body s g) -> nth i (snd st) None <> None) ->
  (forall s g st, In st (body s g) ->
     List.length (snd st) = List.length g /\
     (nth i g None <> None -> nth i (snd st) None <> None)) ->
  forall greedy fuel lo hi last s g st,
    lo <> 0 -> i < List.length g ->
    In st (until body greedy fuel lo hi last s g) -> nth i (snd st) None <> None.
Proof.
  intros Hset Hkeep greedy fuel lo hi last s g st Hlo Hi H.
  destruct fuel as [|fuel]; [destruct H|].
  destruct lo as [|lo]; [congruence|].
  cbn [until] in H. apply in_flat_map in H. destruct H as [[s1 g1] [H1 H2]].
  pose proof (Hset _ _ _ Hi H1) as S1. simpl in S1.
  pose proof (until_rel body
                (fun x y => nth i (snd x) None <> None -> nth i (snd y) None <> None)
                (fun x H => H) (fun x y z A B H => B (A H))
                (fun s0 g0 st0 H0 => proj2 (Hkeep s0 g0 st0 H0))
                _ _ _ _ _ _ _ _ H2) as K.
  apply K. exact S1.
Qed.

(** [sets_group] is sound: group [i + 1] has a value after any match. *)
Lemma matches_sets_group (r : regex) (i : nat) :
  forall s g st, sets_group (S i) r = true -> i < List.length g ->
    In st (matches fl r s g) -> nth i (snd st) None <> None.
Proof.
  induction r as [|a| |items|r1 IH1 r2 IH2|r1 IH1 r2 IH2|j r1 IH1|lo hi r1 IH1|lo hi r1 IH1];
    intros s g st; cbn [sets_group matches]; try discriminate.
  - intros H Hi Hin. apply in_flat_map in Hin. destruct Hin as [[s1 g1] [H1 H2]].
    apply orb_prop in H. destruct H as [H|H].
    + eapply matches_keeps_group; [exact H2|]. apply (IH1 _ _ _ H Hi H1).
    + apply (IH2 _ _ _ H) in H2; [exact H2|].
      apply matches_length in H1. simpl in *. lia.
  - intros H Hi Hin. apply andb_prop in H. destruct H as [Ha Hb].
    apply in_app_or in Hin. destruct Hin as [Hin|Hin]; eauto.
  - intros H Hi Hin. apply in_map_iff in Hin. destruct Hin as [[s1 g1] [<- H1]].
    cbn [fst snd]. pose proof (matches_length _ _ _ _ H1) as L. simpl in L.
    destruct j as [|j].
    + simpl in H. simpl. apply (IH1 _ _ _ H Hi H1).
    + cbn [set_group]. rewrite nth_set_nth.
      destruct (Nat.eqb i j && Nat.ltb j (List.length g1)) eqn:E; [discriminate|].
      apply orb_prop in H. destruct H as [H|H].
      * apply Nat.eqb_eq in H. injection H as <-.
        rewrite Nat.eqb_refl in E. simpl in E. apply Nat.ltb_ge in E. lia.
      * apply (IH1 _ _ _ H Hi H1).
  - intros H Hi Hin. apply andb_prop in H. destruct H as [Hlo H].
    apply (until_sets (matches fl r1) i) in Hin; auto.
    + intros s0 g0 st0 Hi0 H0. apply (IH1 _ _ _ H Hi0 H0).
    + intros s0 g0 st0 H0. split.
      * eapply matches_length; eauto.
      * eapply matches_keeps_group; eauto.
    + intros ->. discriminate.
  - intros H Hi Hin. apply andb_prop in H. destruct H as [Hlo H].
    apply (until_sets (matches fl r1) i) in Hin; auto.
    + intros s0 g0 st0 Hi0 H0. apply (IH1 _ _ _ H Hi0 H0).
    + intros s0 g0 st0 H0. split.
      * eapply matches_length; eauto.
      * eapply matches_keeps_group; eauto.
    + intros ->. discriminate.
Qed.

(** After [re.search], group 1 of a pattern that always sets it has a
    value. *)
Lemma search_sets_group1 (r : regex) (text : str) (m : Match) :
  sets_group 1 r = true -> search fl r text = Some m ->
  exists v, m_group m 1 = Some v.
Proof.
  intros Hs H. apply search_from_inv in H.
  destruct H as (w & s0 & st & rest & _ & Hm & _ & _ & Hg & _).
  assert (Hin : In st (matches fl r s0 (repeat None (ngroups r)))) by (rewrite Hm; now left).
  apply (matches_sets_group r 0) in Hin; auto.
  - simpl. rewrite Hg. destruct (nth 0 (snd st) None) as [v|]; [now exists v|congruence].
  - rewrite repeat_length. now apply sets_group_ngroups.
Qed.

End Totality.

(** [find_first_regex] returns, on any text, when group 1 takes part in
    every match of every pattern. *)
Lemma find_first_returns (text : str) (ps : list regex) :
  forallb (sets_group 1) ps = true -> exists v, find_first_regex text ps = Returns v.
Proof.
  induction ps as [|p ps IH]; cbn [forallb find_first_regex]; intros H.
  - now exists None.
  - apply andb_prop in H. destruct H as [Hp H].
    destruct (search IGNORECASE_DOTALL p text) as [m|] eqn:E; [|auto].
    destruct (has_groups m); [|eexists; reflexivity].
    destruct (search_sets_group1 _ _ _ _ Hp E) as [v ->]. eexists; reflexivity.
Qed.

(** Each extractor returns a record, under its own issuer name, on every
    text. *)
Lemma extractors_return (dateutil_parse : str -> outcome datetime) (text : str) :
  (exists r, parse_amex dateutil_parse text = Returns r /\ issuer r = lit "American Express") /\
  (exists r, parse_chase dateutil_parse text = Returns r /\ issuer r = lit "Chase") /\
  (exists r, parse_citi dateutil_parse text = Returns r /\ issuer r = lit "Citi") /\
  (exists r, parse_bofa dateutil_parse text = Returns r /\ issuer r = lit "Bank of America") /\
  (exists r, parse_hsbc dateutil_parse text = Returns r /\ issuer r = lit "HSBC") /\
  (exists r, parse_generic dateutil_parse text = Returns r /\ issuer r = lit "Unknown").
Proof.
  repeat split;
    [unfold parse_amex|unfold parse_chase|unfold parse_citi|unfold parse_bofa
    |unfold parse_hsbc|unfold parse_generic];
    repeat match goal with
           | |- context [find_first_regex text ?ps] =>
               let v := fresh "v" in let E := fresh "E" in
               destruct (find_first_returns text ps eq_refl) as [v E]; rewrite E;
               cbn [bind]
           end;
    eexists; split; reflexivity.
Qed.

(** ** Matches of the program's pattern shapes *)

Section Shapes.

Variable fl : flags.

Lemma istarts_app (l : list ascii) :
  forall wt x, istarts fl l wt = true -> List.length wt = List.length l ->
    istarts fl l (wt ++ x) = true /\ skipn (List.length l) (wt ++ x) = x.
Proof.
  induction l as [|a l IH]; intros wt x H L.
  - destruct wt; [|discriminate]. split; reflexivity.
  - destruct wt as [|c wt]; [discriminate|].
    simpl in H. apply andb_prop in H. destruct H as [H1 H2].
    simpl in L. injection L as L.
    destruct (IH wt x H2 L) as [E1 E2].
    split; simpl; [now rewrite H1, E1|exact E2].
Qed.

Lemma string_length_list (w : string) :
  List.length (list_ascii_of_string w) = String.length w.
Proof. induction w; simpl; auto. Qed.

(** A pattern that starts with the word [w], at a text that starts with
    it. *)
Lemma matches_word_here (w : string) (rs : list regex) (wt x : str) (g : groups) :
  starts_at fl w wt = true -> List.length wt = String.length w ->
  matches fl (cat (chars w ++ rs)) (wt ++ x) g = matches fl (cat rs) x g.
Proof.
  intros H L. rewrite matches_word. unfold starts_at in *.
  rewrite <- string_length_list in *.
  destruct (istarts_app _ wt x H L) as [E1 E2]. now rewrite E1, E2.
Qed.

Lemma until_opt_one (p : char -> bool) (fuel : nat) (s : str) (g : groups) :
  2 <= fuel ->
  until (one p) true fuel 0 (Some 1) None s g =
  match s with
  | c :: s' => if p c then [(s', g); (s, g)] else [(s, g)]
  | [] => [([], g)]
  end.
Proof.
  intros Hf. destruct fuel as [|[|fuel]]; try lia.
  cbn [until can_repeat same_position negb andb option_map pred].
  destruct s as [|c s']; [reflexivity|].
  cbn [one]. destruct (p c); reflexivity.
Qed.

(** Label, separators, a run captured by group 1: the shape of the period,
    due-date and amount patterns. *)
Lemma labelled_run_match (w : string) (seps cls : list set_item)
      (wt sp u z : str) (g : groups) :
  starts_at fl w wt = true -> List.length wt = String.length w ->
  forallb (set_match fl seps) sp = true -> head_outside (set_match fl seps) (u ++ z) ->
  forallb (set_match fl cls) u = true -> u <> [] -> head_outside (set_match fl cls) z ->
  exists rest,
    matches fl (cat (chars w ++ [star (InSet seps); Group 1 (cat [plus (InSet cls)])]))
            (wt ++ sp ++ u ++ z) g = (z, set_group 1 u g) :: rest.
Proof.
  intros Hw Lw Hsp Hu0 Hu Hne Hz.
  rewrite matches_word_here by assumption.
  change (cat [star (InSet seps); Group 1 (cat [plus (InSet cls)])])
    with (Seq (star (InSet seps)) (cat [Group 1 (cat [plus (InSet cls)])])).
  cbn [matches star].
  change (matches fl (InSet seps)) with (one (set_match fl seps)).
  rewrite until_greedy_one by (simpl; auto; lia).
  destruct (greedy_run_app (set_match fl seps) g (u ++ z) Hu0 sp 0 Hsp) as [r1 E1]; [lia|].
  destruct (group_run_head fl cls u z g Hu Hne Hz) as [r2 E2].
  eapply flat_map_head; [exact E1|]. cbn [fst snd]. exact E2.
Qed.

(** The same with an optional dollar sign before the run. *)
Lemma labelled_amount_match (w : string) (seps cls : list set_item)
      (wt sp u z : str) (g : groups) :
  starts_at fl w wt = true -> List.length wt = String.length w ->
  forallb (set_match fl seps) sp = true -> set_match fl seps 0x24%N = false ->
  forallb (set_match fl cls) u = true -> u <> [] -> head_outside (set_match fl cls) z ->
  exists rest,
    matches fl (cat (chars w ++ [star (InSet seps); opt (Literal "$");
                                 Group 1 (cat [plus (InSet cls)])]))
            (wt ++ sp ++ [0x24%N] ++ u ++ z) g = (z, set_group 1 u g) :: rest.
Proof.
  intros Hw Lw Hsp Hd Hu Hne Hz.
  rewrite matches_word_here by assumption.
  destruct (group_run_head fl cls u z g Hu Hne Hz) as [r2 E2].
  set (G := cat [Group 1 (cat [plus (InSet cls)])]) in *.
  change (cat [star (InSet seps); opt (Literal "$"); Group 1 (cat [plus (InSet cls)])])
    with (Seq (star (InSet seps)) (Seq (opt (Literal "$")) G)).
  cbn [matches star opt].
  change (matches fl (InSet seps)) with (one (set_match fl seps)).
  change (matches fl (Literal "$")) with (one (literal_match fl "$")).
  rewrite until_greedy_one by (simpl; auto; lia).
  destruct (greedy_run_app (set_match fl seps) g ([0x24%N] ++ u ++ z)) with (u := sp) (lo := 0)
    as [r1 E1]; [exact Hd|exact Hsp|lia|].
  eapply flat_map_head; [exact E1|]. cbn [fst snd].
  rewrite until_opt_one by (simpl; lia).
  cbn [app].
  assert (Hl : literal_match fl "$" 0x24%N = true).
  { unfold literal_match. destruct (ignorecase fl); vm_compute; reflexivity. }
  rewrite Hl. cbn [flat_map fst snd].
  rewrite E2. cbn [app]. reflexivity.
Qed.

(** [(\d{4})] at four decimal digits. *)
Lemma four_digits_here (a b c d : char) (z : str) (g : groups) :
  isdecimal a = true -> isdecimal b = true -> isdecimal c = true -> isdecimal d = true ->
  matches fl (cat [Group 1 four_digits]) ([a; b; c; d] ++ z) g =
  [(z, set_group 1 [a; b; c; d] g)].
Proof.
  intros Ha Hb Hc Hd. unfold four_digits, times.
  cbn [cat fold_right matches].
  change (matches fl (InSet [digit])) with (one (set_match fl [digit])).
  rewrite until_exact by lia.
  cbn [app firstn forallb skipn List.length Nat.leb].
  rewrite !set_match_digit, Ha, Hb, Hc, Hd.
  cbn [andb flat_map map app fst snd].
  change (a :: b :: c :: d :: z) with ([a; b; c; d] ++ z).
  now rewrite consumed_app.
Qed.

Lemma four_digits_fail (x : char) (s : str) (g : groups) :
  isdecimal x = false -> matches fl (cat [Group 1 four_digits]) (x :: s) g = [].
Proof.
  intros Hx. unfold four_digits, times.
  cbn [cat fold_right matches].
  change (matches fl (InSet [digit])) with (one (set_match fl [digit])).
  rewrite until_exact by lia.
  cbn [firstn forallb]. rewrite set_match_digit, Hx. reflexivity.
Qed.

(** Label, separators read lazily, four digits captured by group 1: the
    shape of the "ending in" patterns. *)
Lemma labelled_digits_match (w : string) (seps : list set_item)
      (wt sp : str) (a b c d : char) (z : str) (g : groups) :
  starts_at fl w wt = true -> List.length wt = String.length w ->
  forallb (set_match fl seps) sp = true ->
  forallb (fun x => negb (isdecimal x)) sp = true ->
  isdecimal a = true -> isdecimal b = true -> isdecimal c = true -> isdecimal d = true ->
  exists rest,
    matches fl (cat (chars w ++ [star_lazy (InSet seps); Group 1 four_digits]))
            (wt ++ sp ++ [a; b; c; d] ++ z) g = (z, set_group 1 [a; b; c; d] g) :: rest.
Proof.
  intros Hw Lw Hsp Hnd Ha Hb Hc Hd.
  rewrite matches_word_here by assumption.
  change (cat [star_lazy (InSet seps); Group 1 four_digits])
    with (Seq (star_lazy (InSet seps)) (cat [Group 1 four_digits])).
  cbn [matches star_lazy].
  change (matches fl (InSet seps)) with (one (set_match fl seps)).
  rewrite until_lazy_one by (simpl; auto; lia).
  clear Hw Lw. induction sp as [|x sp IH].
  - cbn [app lazy_run Nat.eqb flat_map fst snd].
    change (a :: b :: c :: d :: z) with ([a; b; c; d] ++ z).
    rewrite four_digits_here by assumption. cbn [app]. eexists. reflexivity.
  - simpl in Hsp, Hnd. apply andb_prop in Hsp, Hnd.
    destruct Hsp as [Hx Hsp], Hnd as [Hxd Hnd].
    cbn [app lazy_run Nat.eqb flat_map fst snd pred]. rewrite Hx.
    rewrite four_digits_fail by (now apply negb_true_iff). cbn [app].
    apply IH; assumption.
Qed.

Lemma word_match (w : string) (s : str) (g : groups) :
  matches fl (word w) s g =
  if starts_at fl w s then [(skipn (String.length w) s, g)] else [].
Proof.
  unfold word. rewrite <- (app_nil_r (chars w)). rewrite matches_word. reflexivity.
Qed.

(** A list of alternative words matches nowhere none of them stands. *)
Lemma alt_words_nomatch (ws : list string) :
  forall w s g,
    forallb (fun w => negb (starts_at fl w s)) (w :: ws) = true ->
    matches fl (alt (map word (w :: ws))) s g = [].
Proof.
  induction ws as [|w2 ws IH]; intros w s g H;
    cbn [forallb] in H; apply andb_prop in H; destruct H as [H1 H2];
    apply negb_true_iff in H1.
  - cbn [map alt]. rewrite word_match, H1. reflexivity.
  - change (alt (map word (w :: w2 :: ws)))
      with (Alt (word w) (alt (map word (w2 :: ws)))).
    cbn [matches]. rewrite word_match, H1. rewrite IH by exact H2. reflexivity.
Qed.

(** One of the words, white space, "Card": the shape of the first variant
    pattern, at a text where the first word of the list stands. *)
Lemma first_word_card_match (w w2 : string) (ws : list string)
      (wt sp ct z : str) (g : groups) :
  starts_at fl w wt = true -> List.length wt = String.length w ->
  forallb (set_match fl [space]) sp = true -> sp <> [] ->
  head_outside (set_match fl [space]) (ct ++ z) ->
  starts_at fl "Card" ct = true -> List.length ct = 4 ->
  exists rest,
    matches fl (cat ([Group 1 (alt (map word (w :: w2 :: ws))); plus (InSet [space])]
                     ++ chars "Card"))
            (wt ++ sp ++ ct ++ z) g = (z, set_group 1 wt g) :: rest.
Proof.
  intros Hw Lw Hsp Hne Hc0 Hc Lc.
  change (cat ([Group 1 (alt (map word (w :: w2 :: ws))); plus (InSet [space])] ++ chars "Card"))
    with (Seq (Group 1 (Alt (word w) (alt (map word (w2 :: ws)))))
              (Seq (plus (InSet [space])) (cat (chars "Card" ++ [])))).
  cbn [matches plus]. rewrite word_match.
  unfold starts_at in Hw |- *. rewrite <- string_length_list in Lw |- *.
  destruct (istarts_app _ wt (sp ++ ct ++ z) Hw Lw) as [E1 E2].
  rewrite E1, E2. cbn [app map flat_map fst snd].
  rewrite consumed_app.
  change (matches fl (InSet [space])) with (one (set_match fl [space])).
  rewrite until_greedy_one by (simpl; auto; lia).
  destruct (greedy_run_app (set_match fl [space]) (set_group 1 wt g) (ct ++ z) Hc0 sp 1 Hsp)
    as [r1 E3].
  { destruct sp; [congruence|simpl; lia]. }
  rewrite E3. cbn [flat_map fst snd].
  rewrite matches_word_here by (auto; rewrite Lc; reflexivity).
  cbn [cat fold_right matches app]. eexists. reflexivity.
Qed.

End Shapes.
(** ** Scenario A: an American Express statement *)

Ltac by_eval := vm_compute; reflexivity.

Lemma matches_Alt (fl : flags) (a b : regex) (s : str) (g : groups) :
  matches fl (Alt a b) s g = matches fl a s g ++ matches fl b s g.
Proof. reflexivity. Qed.

(** A pattern that starts with the word [w] matches nowhere inside a prefix
    in which [w] does not start. *)
Lemma word_nomatch (fl : flags) (w : string) (rs : list regex) (P s : str) (g : groups) :
  starts_in fl w P s = false ->
  forall A1 A2, P = A1 ++ A2 -> A2 <> [] ->
    matches fl (cat (chars w ++ rs)) (A2 ++ s) g = [].
Proof.
  intros H A1 A2 E Hne. rewrite matches_word.
  now rewrite (starts_in_split fl w P s H A1 A2 E Hne).
Qed.

Lemma search_word_first (fl : flags) (w : string) (rs : list regex) (P s : str)
      (st : state) (rest : list state) :
  starts_in fl w P s = false ->
  matches fl (cat (chars w ++ rs)) s (repeat None (ngroups (cat (chars w ++ rs)))) = st :: rest ->
  search fl (cat (chars w ++ rs)) (P ++ s) =
  Some {| m_start := List.length P; m_group0 := consumed s (fst st); m_groups := snd st |}.
Proof.
  intros H M. apply search_after with (rest := rest); [|exact M].
  intros A1 A2 E Hne. now apply word_nomatch with (P := P) (A1 := A1).
Qed.

Lemma none_starts_split (fl : flags) (ws : list string) (P s : str) :
  none_starts_in fl ws P s = true ->
  forall A1 A2, P = A1 ++ A2 -> A2 <> [] ->
    forallb (fun w => negb (starts_at fl w (A2 ++ s))) ws = true.
Proof.
  unfold none_starts_in. intros H A1 A2 E Hne.
  rewrite forallb_forall in H |- *. intros w Hw.
  specialize (H w Hw). apply negb_true_iff in H. apply negb_true_iff.
  exact (starts_in_split fl w P s H A1 A2 E Hne).
Qed.

(** The first pattern of the list wins when it matches and its one group
    took part. *)
Lemma find_first_head (text : str) (p : regex) (ps : list regex) (m : Match) (v : str) :
  search IGNORECASE_DOTALL p text = Some m -> m_groups m = [Some v] ->
  find_first_regex text (p :: ps) = Returns (Some (p, strip v)).
Proof.
  intros H G. cbn [find_first_regex]. rewrite H.
  unfold has_groups, m_group. rewrite G. reflexivity.
Qed.

(** The last four digits: "Card ending in: 1234" with no "Card Member since"
    and no "Card ending in" before it. *)
Lemma amex_last4_found (P Q : str) :
  starts_in IGNORECASE "Card Member since" P (lit "Card ending in: 1234" ++ Q) = false ->
  starts_in IGNORECASE "Card ending in" P (lit "Card ending in: 1234" ++ Q) = false ->
  exists m, search_or amex_last4_card amex_last4_any (P ++ lit "Card ending in: 1234" ++ Q) = Some m /\
            m_groups m = [Some (lit "1234")].
Proof.
  intros H1 H2.
  set (s := lit "Card ending in: 1234" ++ Q) in *.
  set (A := cat (chars "Card Member since" ++ [star AnyChar])).
  set (B := cat (chars "Card ending in" ++ [star_lazy (InSet label_seps); Group 1 four_digits])).
  assert (EP : amex_last4_card = Alt A B) by reflexivity.
  pose proof (labelled_digits_match IGNORECASE "Card ending in" label_seps
                (lit "Card ending in") (lit ": ") 0x31%N 0x32%N 0x33%N 0x34%N Q (repeat None 1)
                ltac:(by_eval) ltac:(by_eval) ltac:(by_eval) ltac:(by_eval)
                ltac:(by_eval) ltac:(by_eval) ltac:(by_eval) ltac:(by_eval))
    as [rest E].
  change (lit "Card ending in" ++ lit ": " ++ [0x31%N; 0x32%N; 0x33%N; 0x34%N] ++ Q) with s in E.
  fold B in E.
  assert (EA : matches IGNORECASE A s (repeat None 1) = []).
  { unfold A. rewrite matches_word. reflexivity. }
  assert (S : search IGNORECASE amex_last4_card (P ++ s) =
              Some {| m_start := List.length P; m_group0 := consumed s Q;
                      m_groups := set_group 1 [0x31%N; 0x32%N; 0x33%N; 0x34%N] (repeat None 1) |}).
  { rewrite EP.
    apply (search_after IGNORECASE (Alt A B) P s (Q, set_group 1 [0x31%N; 0x32%N; 0x33%N; 0x34%N] (repeat None 1)) rest).
    - intros A1 A2 E' Hne. rewrite matches_Alt. unfold A, B.
      rewrite (word_nomatch IGNORECASE _ _ P s _ H1 A1 A2 E' Hne).
      rewrite (word_nomatch IGNORECASE _ _ P s _ H2 A1 A2 E' Hne). reflexivity.
    - rewrite matches_Alt.
      change (ngroups (Alt A B)) with 1. rewrite EA, E. reflexivity. }
  unfold search_or. rewrite S. eexists. split; reflexivity.
Qed.

(** The card variant: "Platinum Card" with none of the variant words
    before it. *)
Lemma amex_variant_found (P Q : str) :
  none_starts_in IGNORECASE_DOTALL amex_variant_words P (lit "Platinum Card" ++ Q) = true ->
  exists p, find_first_regex (P ++ lit "Platinum Card" ++ Q) amex_variant =
            Returns (Some (p, lit "Platinum")).
Proof.
  intros H.
  set (s := lit "Platinum Card" ++ Q) in *.
  set (after := Seq (plus (InSet [space])) (cat (chars "Card" ++ []))).
  set (G := alt (map word amex_variant_words)).
  set (p := Seq (Group 1 G) after).
  assert (EP : amex_variant = p :: List.tl amex_variant) by reflexivity.
  pose proof (first_word_card_match IGNORECASE_DOTALL "Platinum" "Gold"
                ["Green"; "Centurion"; "Blue"; "Everyday"; "Cashback"; "Corporate"]%string
                (lit "Platinum") (lit " ") (lit "Card") Q (repeat None 1)
                ltac:(by_eval) ltac:(by_eval) ltac:(by_eval) ltac:(discriminate)
                ltac:(by_eval) ltac:(by_eval) ltac:(by_eval))
    as [rest E].
  change (lit "Platinum" ++ lit " " ++ lit "Card" ++ Q) with s in E.
  assert (S : search IGNORECASE_DOTALL p (P ++ s) =
              Some {| m_start := List.length P; m_group0 := consumed s Q;
                      m_groups := set_group 1 (lit "Platinum") (repeat None 1) |}).
  { apply (search_after IGNORECASE_DOTALL p P s (Q, set_group 1 (lit "Platinum") (repeat None 1)) rest).
    - intros A1 A2 E' Hne. unfold p. cbn [matches]. unfold G, amex_variant_words.
      rewrite alt_words_nomatch; [reflexivity|].
      exact (none_starts_split IGNORECASE_DOTALL amex_variant_words P s H A1 A2 E' Hne).
    - exact E. }
  exists p. rewrite EP.
  rewrite (find_first_head (P ++ s) p _ _ (lit "Platinum") S); reflexivity.
Qed.

(** The due date: "Due Date: March 5, 2024" with no "Due Date" before it;
    the capture goes on to the first character outside the class. *)
Lemma amex_due_found (P R Z : str) :
  starts_in IGNORECASE_DOTALL "Due Date" P (lit "Due Date: March 5, 2024" ++ R ++ Z) = false ->
  forallb (set_match IGNORECASE_DOTALL date_chars) R = true ->
  head_outside (set_match IGNORECASE_DOTALL date_chars) Z ->
  exists p, find_first_regex (P ++ lit "Due Date: March 5, 2024" ++ R ++ Z) amex_due =
            Returns (Some (p, strip (lit "March 5, 2024" ++ R))).
Proof.
  intros H HR HZ.
  set (s := lit "Due Date: March 5, 2024" ++ R ++ Z) in *.
  set (rs := [star (InSet label_seps); Group 1 (cat [plus (InSet date_chars)])]).
  set (u := lit "March 5, 2024" ++ R).
  assert (EP : amex_due = cat (chars "Due Date" ++ rs) :: List.tl amex_due) by reflexivity.
  assert (Hu : forallb (set_match IGNORECASE_DOTALL date_chars) u = true).
  { unfold u. rewrite forallb_app, HR. reflexivity. }
  assert (Hne : u <> []) by (unfold u; vm_compute; discriminate).
  pose proof (labelled_run_match IGNORECASE_DOTALL "Due Date" label_seps date_chars
                (lit "Due Date") (lit ": ") u Z (repeat None 1)
                ltac:(by_eval) ltac:(by_eval) ltac:(by_eval) ltac:(by_eval) Hu Hne HZ)
    as [rest E].
  - change (lit "Due Date" ++ lit ": " ++ u ++ Z) with s in E. fold rs in E.
    exists (cat (chars "Due Date" ++ rs)). rewrite EP.
    apply find_first_head with
      (m := {| m_start := List.length P; m_group0 := consumed s Z;
               m_groups := set_group 1 u (repeat None 1) |}); [|reflexivity].
    apply (search_word_first IGNORECASE_DOTALL "Due Date" rs P s
             (Z, set_group 1 u (repeat None 1)) rest H E).
Qed.

(** The amount: "Amount Due: $523.10" with no "Amount Due" before it and
    no comma, digit or full stop right after it. *)
Lemma amex_amount_found (P Q : str) :
  starts_in IGNORECASE_DOTALL "Amount Due" P (lit "Amount Due: $523.10" ++ Q) = false ->
  head_outside (set_match IGNORECASE_DOTALL amount_chars) Q ->
  exists p, find_first_regex (P ++ lit "Amount Due: $523.10" ++ Q) amex_amount =
            Returns (Some (p, lit "523.10")).
Proof.
  intros H HQ.
  set (s := lit "Amount Due: $523.10" ++ Q) in *.
  set (rs := [star (InSet label_seps); opt (Literal "$");
              Group 1 (cat [plus (InSet amount_chars)])]).
  assert (EP : amex_amount = cat (chars "Amount Due" ++ rs) :: List.tl amex_amount) by reflexivity.
  pose proof (labelled_amount_match IGNORECASE_DOTALL "Amount Due" label_seps amount_chars
                (lit "Amount Due") (lit ": ") (lit "523.10") Q (repeat None 1)
                ltac:(by_eval) ltac:(by_eval) ltac:(by_eval) ltac:(by_eval) ltac:(by_eval)
                ltac:(discriminate) HQ)
    as [rest E].
  change (lit "Amount Due" ++ lit ": " ++ [0x24%N] ++ lit "523.10" ++ Q) with s in E.
  fold rs in E.
  exists (cat (chars "Amount Due" ++ rs)). rewrite EP.
  rewrite (find_first_head (P ++ s) _ _
             {| m_start := List.length P; m_group0 := consumed s Q;
                m_groups := set_group 1 (lit "523.10") (repeat None 1) |} (lit "523.10"));
    [reflexivity| |reflexivity].
  apply (search_word_first IGNORECASE_DOTALL "Amount Due" rs P s
           (Q, set_group 1 (lit "523.10") (repeat None 1)) rest H E).
Qed.

Lemma isoformat_march_5 (d : date) :
  year d = 2024%N -> month d = 3%N -> day d = 5%N -> isoformat d = lit "2024-03-05".
Proof.
  intros Hy Hm Hd. unfold isoformat. rewrite Hy, Hm, Hd. reflexivity.
Qed.

(** C2, as stated, fails. The phrases of scenario A in their order are not
    enough: when the words between "Card ending in: 1234" and "Platinum
    Card" hold a variant word followed by "Card", the first variant pattern
    matches there first, and [card_variant] is "Blue". *)
Lemma amex_scenario_blue_card :
  scenario_a_blue =
    lit "American Express" ++ lit " " ++ lit "Card ending in: 1234" ++ lit " Blue Card or " ++
    lit "Platinum Card" ++ lit " " ++ lit "Payment Due Date: March 5, 2024" ++ lit " " ++
    lit "Total Amount Due: $523.10" /\
  parse_text sample_parse scenario_a_blue =
  Returns {| fields := {| issuer := lit "American Express"; last4 := Some (lit "1234");
                          card_variant := Some (lit "Blue"); statement_period := None;
                          due_date := Some (lit "2024-03-05");
                          amount_due := Some (lit "523.10") |};
             raw_sample_snippet := scenario_a_blue |}.
Proof.
  split; lazy; reflexivity.
Qed.

(** Scenario A, with what it takes for granted. Let [T] be the input text with its white space
    normalised. If the lower-cased [T] holds "american express"; "Card
    ending in: 1234" stands in [T] with no "Card Member since" and no "Card
    ending in" starting before it; "Platinum Card" stands in [T] with none
    of the eight variant words starting before it; "Due Date: March 5, 2024"
    stands in [T] with no "Due Date" starting before it, [R] is what follows
    it up to the first character outside [[A-Za-z0-9 ,\-]], and the date
    parser reads "March 5, 2024" followed by [R], stripped, as 5 March 2024;
    and "Amount Due: $523.10" stands in [T] with no "Amount Due" starting
    before it and no comma, digit or full stop right after it (words are
    compared as the searches do, without regard to letter case): then the
    pipeline returns the record with issuer "American Express", last4
    "1234", card_variant "Platinum", due_date "2024-03-05" and amount_due
    "523.10". *)
Theorem amex_scenario_record
  (dateutil_parse : str -> outcome datetime) (raw : str)
  (P1 Q1 P2 Q2 P3 R Z P4 Q4 : str) (dt : datetime) :
  let T := normalize_spaces raw in
  contains (lit "american express") (lower T) = true ->
  T = P1 ++ lit "Card ending in: 1234" ++ Q1 ->
  starts_in IGNORECASE "Card Member since" P1 (lit "Card ending in: 1234" ++ Q1) = false ->
  starts_in IGNORECASE "Card ending in" P1 (lit "Card ending in: 1234" ++ Q1) = false ->
  T = P2 ++ lit "Platinum Card" ++ Q2 ->
  none_starts_in IGNORECASE_DOTALL amex_variant_words P2 (lit "Platinum Card" ++ Q2) = true ->
  T = P3 ++ lit "Due Date: March 5, 2024" ++ R ++ Z ->
  starts_in IGNORECASE_DOTALL "Due Date" P3 (lit "Due Date: March 5, 2024" ++ R ++ Z) = false ->
  forallb (set_match IGNORECASE_DOTALL date_chars) R = true ->
  head_outside (set_match IGNORECASE_DOTALL date_chars) Z ->
  dateutil_parse (strip (lit "March 5, 2024" ++ R)) = Returns dt ->
  year (dt_date dt) = 2024%N -> month (dt_date dt) = 3%N -> day (dt_date dt) = 5%N ->
  T = P4 ++ lit "Amount Due: $523.10" ++ Q4 ->
  starts_in IGNORECASE_DOTALL "Amount Due" P4 (lit "Amount Due: $523.10" ++ Q4) = false ->
  head_outside (set_match IGNORECASE_DOTALL amount_chars) Q4 ->
  exists period,
    parse_text dateutil_parse raw =
    Returns {| fields := {| issuer := lit "American Express"; last4 := Some (lit "1234");
                            card_variant := Some (lit "Platinum");
                            statement_period := period;
                            due_date := Some (lit "2024-03-05");
                            amount_due := Some (lit "523.10") |};
               raw_sample_snippet := slice_to 1200 T |}.
Proof.
  intros T Hc E1 A1 A2 E2 V E3 D1 D2 D3 Hp Hy Hm Hd E4 M1 M2.
  pose proof (amex_last4_found P1 Q1 A1 A2) as (m & Sm & Gm).
  pose proof (amex_variant_found P2 Q2 V) as (pv & Fv).
  pose proof (amex_due_found P3 R Z D1 D2 D3) as (pd & Fd).
  pose proof (amex_amount_found P4 Q4 M1 M2) as (pa & Fa).
  rewrite <- E1 in Sm. rewrite <- E2 in Fv. rewrite <- E3 in Fd. rewrite <- E4 in Fa.
  pose proof (find_first_returns T amex_period ltac:(by_eval)) as [sp Fp].
  assert (DI : detect_issuer T = lit "American Express").
  { unfold detect_issuer. rewrite Hc. reflexivity. }
  exists (period_of sp).
  unfold parse_text. cbv zeta. fold T. rewrite DI.
  change (parser_for dateutil_parse (lit "American Express")) with (parse_amex dateutil_parse).
  unfold parse_amex. cbv zeta. rewrite Sm, Fv, Fp, Fd, Fa.
  cbn [bind]. unfold has_groups, m_group. rewrite Gm.
  cbn [nth second_of date_of option_map snd]. unfold try_parse_date. rewrite Hp.
  rewrite (isoformat_march_5 _ Hy Hm Hd). reflexivity.
Qed.

Lemma amex_scenario_record_witness :
  exists period,
    parse_text sample_parse scenario_a =
    Returns {| fields := {| issuer := lit "American Express"; last4 := Some (lit "1234");
                            card_variant := Some (lit "Platinum");
                            statement_period := period;
                            due_date := Some (lit "2024-03-05");
                            amount_due := Some (lit "523.10") |};
               raw_sample_snippet := slice_to 1200 (normalize_spaces scenario_a) |}.
Proof.
  apply (amex_scenario_record sample_parse scenario_a
           (lit "American Express ")
           (lit " Platinum Card Payment Due Date: March 5, 2024 Total Amount Due: $523.10")
           (lit "American Express Card ending in: 1234 ")
           (lit " Payment Due Date: March 5, 2024 Total Amount Due: $523.10")
           (lit "American Express Card ending in: 1234 Platinum Card Payment ")
           (lit " Total Amount Due") (lit ": $523.10")
           (lit "American Express Card ending in: 1234 Platinum Card Payment Due Date: March 5, 2024 Total ")
           [] march_5_2024);
    first [exact I | lazy; reflexivity].
Defined.

(** ** What the helpers and the pipeline guarantee *)

(** [find_first_regex] on patterns that compile, by cases on what it does.
    (The patterns here are compiled patterns, as all patterns of the program
    are; a pattern string that does not compile makes [re.search] raise
    [re.error] before anything is matched, which is outside this
    statement.)  It returns [None] exactly when no pattern of the list
    matches.  It returns a pattern with a value when that pattern is the
    first of the list that matches somewhere (the patterns before it match
    nowhere, later ones are not tried): the value is group 1 of its leftmost
    match, stripped, or the whole match, stripped, when the pattern has no
    group.  It raises, and then [AttributeError], exactly when the first
    pattern that matches has groups and group 1 took no part in the
    match. *)
Theorem find_first_regex_cases (text : str) (ps : list regex) :
  match find_first_regex text ps with
  | Returns None => forall p, In p ps -> search IGNORECASE_DOTALL p text = None
  | Returns (Some (p, v)) =>
      exists m, first_match text ps p m /\
        ((has_groups m = false /\ v = strip (m_group0 m)) \/
         (has_groups m = true /\ exists g, m_group m 1 = Some g /\ v = strip g))
  | Raises e =>
      e = AttributeError /\
      exists p m, first_match text ps p m /\ has_groups m = true /\ m_group m 1 = None
  end.
Proof.
  induction ps as [|q ps IH]; cbn [find_first_regex].
  - intros p [].
  - destruct (search IGNORECASE_DOTALL q text) as [m|] eqn:E.
    + assert (F : first_match text (q :: ps) q m).
      { exists [], ps. split; [reflexivity|]. split; [intros ? []|exact E]. }
      destruct (has_groups m) eqn:G.
      * destruct (m_group m 1) as [g|] eqn:G1.
        -- exists m. split; [exact F|]. right. split; [exact G|]. now exists g.
        -- split; [reflexivity|]. now exists q, m.
      * exists m. split; [exact F|]. left. now split.
    + assert (L : forall p m, first_match text ps p m -> first_match text (q :: ps) p m).
      { intros p m (pre & post & -> & N & S). exists (q :: pre), post.
        split; [reflexivity|]. split; [|exact S].
        intros x [<-|Hx]; [exact E|now apply N]. }
      destruct (find_first_regex text ps) as [[[p v]|]|e].
      * destruct IH as (m & F & H). exists m. split; [now apply L|exact H].
      * intros p [<-|Hp]; [exact E|now apply IH].
      * destruct IH as (-> & p & m & F & H). split; [reflexivity|].
        exists p, m. split; [now apply L|exact H].
Qed.

(** None of the six extractors raises: each returns a record on every text,
    whatever the date parser does.  (Group 1 takes part in every match of
    every pattern of the program, so that [find_first_regex] never meets an
    unset group.) *)
Theorem extractors_never_raise
  (dateutil_parse : str -> outcome datetime) (text : str) :
  Forall (fun f => exists r, f text = Returns r) (extractors dateutil_parse).
Proof.
  destruct (extractors_return dateutil_parse text)
    as ((r1 & E1 & _) & (r2 & E2 & _) & (r3 & E3 & _) & (r4 & E4 & _) & (r5 & E5 & _) & (r6 & E6 & _)).
  unfold extractors. repeat constructor; eexists; eassumption.
Qed.

(** [parse_statement] raises only what opening the document raises: when
    [pdfplumber] opens it, a statement is returned whatever the pages do
    (pages whose text extraction raises included) and whatever the date
    parser does. *)
Theorem parse_statement_raises_only_on_open
  (dateutil_parse : str -> outcome datetime)
  (pdf_pages : bytes -> outcome (list (outcome (option str)))) (pdf_bytes : bytes) :
  match pdf_pages pdf_bytes with
  | Returns _ => exists st, parse_statement dateutil_parse pdf_pages pdf_bytes = Returns st
  | Raises e => parse_statement dateutil_parse pdf_pages pdf_bytes = Raises e
  end.
Proof.
  unfold parse_statement, extract_text_from_pdf_bytes.
  destruct (pdf_pages pdf_bytes) as [pages|e]; cbn [bind]; [|reflexivity].
  unfold parse_text.
  set (T := normalize_spaces _).
  destruct (extractors_return dateutil_parse T)
    as ((r1 & E1 & _) & (r2 & E2 & _) & (r3 & E3 & _) & (r4 & E4 & _) & (r5 & E5 & _) & (r6 & E6 & _)).
  cbv zeta. unfold parser_for.
  repeat match goal with
         | |- context [if ?b then _ else _] => destruct b
         end;
    rewrite ?E1, ?E2, ?E3, ?E4, ?E5, ?E6; cbn [bind]; eexists; reflexivity.
Qed.

Lemma parser_for_names (dateutil_parse : str -> outcome datetime) :
  parser_for dateutil_parse (lit "American Express") = parse_amex dateutil_parse /\
  parser_for dateutil_parse (lit "Chase") = parse_chase dateutil_parse /\
  parser_for dateutil_parse (lit "Citi") = parse_citi dateutil_parse /\
  parser_for dateutil_parse (lit "Bank of America") = parse_bofa dateutil_parse /\
  parser_for dateutil_parse (lit "HSBC") = parse_hsbc dateutil_parse /\
  parser_for dateutil_parse (lit "Unknown") = parse_generic dateutil_parse.
Proof. repeat split; reflexivity. Qed.

(** The record's issuer is the detected one: [parse_statement] hands the
    normalised text to the extractor that writes the name [detect_issuer]
    found, the generic one writing "Unknown"; the issuer is one of the six
    names, and the snippet is the first 1200 characters of the normalised
    text. *)
Theorem statement_issuer_is_detected
  (dateutil_parse : str -> outcome datetime) (text : str) :
  exists r,
    parse_text dateutil_parse text =
      Returns {| fields := r; raw_sample_snippet := slice_to 1200 (normalize_spaces text) |} /\
    issuer r = detect_issuer (normalize_spaces text) /\
    In (issuer r) issuer_names /\
    List.length (slice_to 1200 (normalize_spaces text)) <= 1200.
Proof.
  unfold parse_text. cbv zeta.
  set (T := normalize_spaces text).
  destruct (extractors_return dateutil_parse T)
    as ((r1 & E1 & I1) & (r2 & E2 & I2) & (r3 & E3 & I3) & (r4 & E4 & I4) & (r5 & E5 & I5)
        & (r6 & E6 & I6)).
  assert (L : List.length (slice_to 1200 T) <= 1200) by apply firstn_le_length.
  destruct (parser_for_names dateutil_parse) as (N1 & N2 & N3 & N4 & N5 & N6).
  unfold detect_issuer.
  repeat match goal with
         | |- context [if ?b then _ else _] => destruct b
         end;
    rewrite ?N1, ?N2, ?N3, ?N4, ?N5, ?N6, ?E1, ?E2, ?E3, ?E4, ?E5, ?E6; cbn [bind];
    eexists; (split; [reflexivity|]);
    rewrite ?I1, ?I2, ?I3, ?I4, ?I5, ?I6;
    (split; [reflexivity|split; [|exact L]]); unfold issuer_names, issuer_rules; simpl; auto 10.
Qed.

(** ** Stripped pieces of the text *)

Lemma drop_while_head (p : char -> bool) (s : str) (c : char) (r : str) :
  drop_while p s = c :: r -> p c = false.
Proof.
  induction s as [|x s IH]; simpl; [discriminate|].
  destruct (p x) eqn:E; [exact IH|]. intros [= <- _]. exact E.
Qed.

Lemma drop_while_split (p : char -> bool) (s : str) :
  exists a, s = a ++ drop_while p s /\ forallb p a = true.
Proof.
  induction s as [|x s (a & E & F)]; simpl.
  - now exists [].
  - destruct (p x) eqn:Hx.
    + exists (x :: a). simpl. rewrite Hx, F. split; [now rewrite <- E|reflexivity].
    + now exists [].
Qed.

Lemma rstrip_split (s : str) : exists b, s = rstrip s ++ b.
Proof.
  unfold rstrip. destruct (drop_while_split isspace (rev s)) as (a & E & _).
  exists (rev a). rewrite <- rev_app_distr, <- E. now rewrite rev_involutive.
Qed.

Lemma rstrip_last (s pre : str) (c : char) : rstrip s = pre ++ [c] -> isspace c = false.
Proof.
  unfold rstrip. intros H. apply (f_equal (@rev char)) in H.
  rewrite rev_involutive, rev_app_distr in H. simpl in H.
  now apply drop_while_head in H.
Qed.

Lemma strip_head (s : str) (c : char) (r : str) : strip s = c :: r -> isspace c = false.
Proof.
  unfold strip. intros H. destruct (rstrip_split (lstrip s)) as [b E].
  rewrite H in E. simpl in E. unfold lstrip in E. now apply drop_while_head in E.
Qed.

Lemma strip_last (s pre : str) (c : char) : strip s = pre ++ [c] -> isspace c = false.
Proof. unfold strip. apply rstrip_last. Qed.

Lemma strip_strip (s : str) : strip (strip s) = strip s.
Proof.
  apply strip_id.
  - intros c r E. now apply strip_head in E.
  - intros c r E. now apply strip_last in E.
Qed.

Lemma strip_piece (s : str) : piece (strip s) s.
Proof.
  unfold strip, piece. destruct (rstrip_split (lstrip s)) as [b E].
  destruct (drop_while_split isspace s) as (a & Ea & _). fold (lstrip s) in Ea.
  exists a, b. now rewrite <- E.
Qed.

Lemma piece_trans (a b c : str) : piece a b -> piece b c -> piece a c.
Proof.
  intros (p1 & q1 & ->) (p2 & q2 & ->). exists (p2 ++ p1), (q1 ++ q2).
  now rewrite <- !app_assoc.
Qed.

Lemma consumed_piece (s1 s text : str) : suffix s1 s -> suffix s text -> piece (consumed s s1) text.
Proof.
  intros H1 [w ->]. exists w, s1. now rewrite <- suffix_consumed.
Qed.

(** A group of a match, and the whole match, stand in the text. *)
Lemma search_group_piece (fl : flags) (r : regex) (text : str) (m : Match) (n : nat) (v : str) :
  search fl r text = Some m -> m_group m n = Some v -> piece v text.
Proof.
  intros S G. destruct n as [|n].
  - simpl in G. injection G as <-.
    apply search_from_inv in S.
    destruct S as (w & s0 & st & rest & -> & Hm & _ & -> & _).
    assert (Hin : In st (matches fl r s0 (repeat None (ngroups r)))) by (rewrite Hm; now left).
    apply matches_sound in Hin. destruct Hin as (Hs & _).
    apply consumed_piece; [exact Hs|now exists w].
  - destruct (search_group_produced fl r text m n v S G)
      as (body & s' & s'' & g' & g'' & _ & H2 & H3 & ->).
    apply matches_sound in H3. destruct H3 as (Hs & _).
    now apply consumed_piece.
Qed.

(** What [find_first_regex] returns stands in the text and has no white
    space at either end. *)
Lemma find_first_piece (text : str) (ps : list regex) (p : regex) (v : str) :
  find_first_regex text ps = Returns (Some (p, v)) -> piece v text /\ strip v = v.
Proof.
  intros H. apply find_first_some in H.
  destruct H as (m & _ & S & [[_ ->]|[_ (g & G & ->)]]).
  - split; [|apply strip_strip].
    eapply piece_trans; [apply strip_piece|]. now apply (search_group_piece _ _ _ _ 0 _ S).
  - split; [|apply strip_strip].
    eapply piece_trans; [apply strip_piece|]. exact (search_group_piece _ _ _ _ 1 _ S G).
Qed.

(** ** The fields of a record, by the searches they come from *)

Lemma extractor_profile (dateutil_parse : str -> outcome datetime)
      (f : str -> outcome FieldRecord) :
  In f (extractors dateutil_parse) -> exists ps, In (f, ps) (profiles dateutil_parse).
Proof.
  unfold extractors, profiles. simpl.
  intros [<-|[<-|[<-|[<-|[<-|[<-|[]]]]]]]; eexists; eauto 10.
Qed.

Lemma extractor_fields (dateutil_parse : str -> outcome datetime) (text : str)
      (f : str -> outcome FieldRecord) (ps : field_patterns) (r : FieldRecord) :
  In (f, ps) (profiles dateutil_parse) -> f text = Returns r ->
  exists v sp dd ad,
    find_first_regex text (variant_patterns ps) = Returns v /\
    find_first_regex text (period_patterns ps) = Returns sp /\
    find_first_regex text (due_patterns ps) = Returns dd /\
    find_first_regex text (amount_patterns ps) = Returns ad /\
    card_variant r = second_of v /\
    statement_period r = period_of sp /\
    due_date r = date_of dateutil_parse dd /\
    amount_due r = second_of ad.
Proof.
  unfold profiles. simpl.
  intros [E|[E|[E|[E|[E|[E|[]]]]]]] Hr; injection E as <- <-;
    cbn [variant_patterns period_patterns due_patterns amount_patterns];
    [unfold parse_amex in Hr|unfold parse_chase in Hr|unfold parse_citi in Hr
    |unfold parse_bofa in Hr|unfold parse_hsbc in Hr|unfold parse_generic in Hr];
    unfold bind in Hr;
    repeat match type of Hr with
           | context [match find_first_regex ?t ?p with _ => _ end] =>
               destruct (find_first_regex t p) eqn:?; try discriminate Hr
           end;
    injection Hr as <-; do 4 eexists; repeat split; reflexivity.
Qed.

(** ** Where the fields of a record come from *)

Lemma second_of_some (x : option (regex * str)) (v : str) :
  second_of x = Some v -> exists p, x = Some (p, v).
Proof. destruct x as [[p w]|]; simpl; [intros [= ->]; now exists p|discriminate]. Qed.

Lemma normalize_spaces_twice (s : str) :
  normalize_spaces (normalize_spaces s) = normalize_spaces s.
Proof.
  assert (W : Forall is_word (words s)) by (apply split_ws_words; constructor).
  rewrite !normalize_spaces_words. now rewrite words_join.
Qed.

(** The ways a greedy loop over a class matches: each reads a run of the
    class, at least [lo] long. *)
Lemma greedy_run_inv (p : char -> bool) (g : groups) (st : state) :
  forall s lo, In st (greedy_run p lo s g) ->
    exists u, s = u ++ fst st /\ forallb p u = true /\ lo <= List.length u /\ snd st = g.
Proof.
  induction s as [|c s IH]; intros lo H; simpl in H.
  - destruct (Nat.eqb lo 0) eqn:E; [|destruct H].
    destruct H as [<-|[]]. apply Nat.eqb_eq in E. exists []. simpl. repeat split; auto; lia.
  - apply in_app_or in H. destruct H as [H|H].
    + destruct (p c) eqn:Hc; [|destruct H].
      apply IH in H. destruct H as (u & E & F & L & G).
      exists (c :: u). simpl. rewrite Hc, F. repeat split; auto; [now rewrite <- E|lia].
    + destruct (Nat.eqb lo 0) eqn:E; [|destruct H].
      destruct H as [<-|[]]. apply Nat.eqb_eq in E. exists []. simpl. repeat split; auto; lia.
Qed.

(** What the group [([...]+)] reads: a run of the class that is not empty. *)
Lemma run_inv (fl : flags) (items : list set_item) (s : str) (g : groups) (st : state) :
  In st (matches fl (cat [plus (InSet items)]) s g) ->
  exists u, s = u ++ fst st /\ u <> [] /\ forallb (set_match fl items) u = true.
Proof.
  cbn [cat fold_right plus matches].
  change (matches fl (InSet items)) with (one (set_match fl items)).
  rewrite until_greedy_one by (simpl; auto; lia).
  intros H. apply in_flat_map in H. destruct H as (st1 & H1 & H2).
  simpl in H2. destruct H2 as [<-|[]]. simpl.
  apply greedy_run_inv in H1. destruct H1 as (u & E & F & L & _).
  exists u. repeat split; auto. destruct u; [simpl in L; lia|discriminate].
Qed.

Lemma set_match_amount (fl : flags) (c : char) :
  set_match fl amount_chars c = ((c =? 0x2C)%N || isdecimal c || (c =? 0x2E)%N).
Proof.
  unfold set_match.
  replace (existsb item_hascased amount_chars) with false by (vm_compute; reflexivity).
  rewrite andb_false_r. simpl. now rewrite orb_false_r, orb_assoc.
Qed.

Lemma amount_char_not_space (fl : flags) (c : char) :
  set_match fl amount_chars c = true -> isspace c = false.
Proof.
  rewrite set_match_amount. intros H.
  apply orb_prop in H. destruct H as [H|H]; [apply orb_prop in H; destruct H as [H|H]|].
  - apply N.eqb_eq in H. subst c. vm_compute. reflexivity.
  - now apply decimal_not_space.
  - apply N.eqb_eq in H. subst c. vm_compute. reflexivity.
Qed.

(** The amount patterns of the five issuer extractors: group 1 is the run
    [([,\d\.]+)]. *)
Lemma amount_group_bodies (dateutil_parse : str -> outcome datetime)
      (f : str -> outcome FieldRecord) :
  In f (issuer_extractors dateutil_parse) ->
  exists ps, In (f, ps) (profiles dateutil_parse) /\
    Forall (fun p => group_bodies 1 p = [cat [plus (InSet amount_chars)]] /\ ngroups p <> 0)
           (amount_patterns ps).
Proof.
  unfold issuer_extractors, profiles. simpl.
  intros [<-|[<-|[<-|[<-|[<-|[]]]]]]; eexists; (split; [eauto 10|]);
    cbn [amount_patterns]; repeat constructor; discriminate.
Qed.

(** Card variant and amount, when present, are copied from the text: each
    stands in the text the extractor was given, with no white space at
    either end. *)
Theorem values_are_stripped_pieces
  (dateutil_parse : str -> outcome datetime) (text : str)
  (f : str -> outcome FieldRecord) (r : FieldRecord) (v : str) :
  In f (extractors dateutil_parse) -> f text = Returns r ->
  card_variant r = Some v \/ amount_due r = Some v ->
  piece v text /\ strip v = v.
Proof.
  intros Hf Hr Hv.
  destruct (extractor_profile dateutil_parse f Hf) as [ps Hp].
  destruct (extractor_fields dateutil_parse text f ps r Hp Hr)
    as (x & sp & dd & ad & Ex & _ & _ & Ea & Fv & _ & _ & Fa).
  destruct Hv as [Hv|Hv].
  - rewrite Fv in Hv. apply second_of_some in Hv. destruct Hv as [p ->].
    exact (find_first_piece _ _ _ _ Ex).
  - rewrite Fa in Hv. apply second_of_some in Hv. destruct Hv as [p ->].
    exact (find_first_piece _ _ _ _ Ea).
Qed.

Lemma values_are_stripped_pieces_witness :
  piece (lit "1,234.56") sample_hsbc /\ strip (lit "1,234.56") = lit "1,234.56".
Proof.
  apply (values_are_stripped_pieces sample_parse sample_hsbc (parse_hsbc sample_parse)
           {| issuer := lit "HSBC"; last4 := None; card_variant := Some (lit "Premier");
              statement_period := Some (lit "01 Feb 2024 - 29 Feb 2024");
              due_date := Some (lit "2024-03-05"); amount_due := Some (lit "1,234.56") |}).
  - simpl. auto 10.
  - lazy. reflexivity.
  - right. reflexivity.
Defined.

(** The pattern that decides in [find_first_regex], with its match. *)
Lemma find_first_capture (text : str) (ps : list regex) (p : regex) (v : str) :
  find_first_regex text ps = Returns (Some (p, v)) ->
  exists m, first_match text ps p m /\
    ((has_groups m = false /\ v = strip (m_group0 m)) \/
     (has_groups m = true /\ exists g, m_group m 1 = Some g /\ v = strip g)).
Proof.
  induction ps as [|q ps IH]; cbn [find_first_regex]; [discriminate|].
  destruct (search IGNORECASE_DOTALL q text) as [m|] eqn:E.
  - assert (F : first_match text (q :: ps) q m).
    { exists [], ps. split; [reflexivity|]. split; [intros ? []|exact E]. }
    destruct (has_groups m) eqn:G.
    + destruct (m_group m 1) as [g|] eqn:G1; [|discriminate].
      intros [= <- <-]. exists m. split; [exact F|]. right. split; [exact G|]. now exists g.
    + intros [= <- <-]. exists m. split; [exact F|]. left. split; [exact G|reflexivity].
  - intros H. destruct (IH H) as (m & (pre & post & -> & N & S) & K).
    exists m. split; [|exact K]. exists (q :: pre), post.
    split; [reflexivity|]. split; [|exact S].
    intros x [<-|Hx]; [exact E|now apply N].
Qed.

Lemma due_patterns_grouped (dateutil_parse : str -> outcome datetime)
      (f : str -> outcome FieldRecord) (ps : field_patterns) :
  In (f, ps) (profiles dateutil_parse) -> Forall (fun p => ngroups p <> 0) (due_patterns ps).
Proof.
  unfold profiles. simpl.
  intros [E|[E|[E|[E|[E|[E|[]]]]]]]; injection E as _ <-;
    cbn [due_patterns]; repeat constructor; discriminate.
Qed.

(** The due date of an extractor, by what its due-date patterns find.  When
    none of them matches, the due date is absent.  Otherwise the first
    pattern of the list that matches decides: the date parser is given
    group 1 of its leftmost match, stripped, which stands in the text; when
    the parser returns, the due date is the year, the month and the day it
    read, written [YYYY-MM-DD], and when it raises, the due date is
    absent. *)
Theorem due_date_is_parsed_piece
  (dateutil_parse : str -> outcome datetime) (text : str)
  (f : str -> outcome FieldRecord) (ps : field_patterns) (r : FieldRecord) :
  In (f, ps) (profiles dateutil_parse) -> f text = Returns r ->
  match find_first_regex text (due_patterns ps) with
  | Returns (Some (p, w)) =>
      (exists m g, first_match text (due_patterns ps) p m /\
                   m_group m 1 = Some g /\ w = strip g) /\
      piece w text /\ strip w = w /\
      match dateutil_parse w with
      | Returns dt =>
          due_date r = Some (iso_digits (year (dt_date dt)) (month (dt_date dt))
                                        (day (dt_date dt))) /\
          iso_shape (iso_digits (year (dt_date dt)) (month (dt_date dt)) (day (dt_date dt)))
      | Raises _ => due_date r = None
      end
  | Returns None =>
      (forall p, In p (due_patterns ps) -> search IGNORECASE_DOTALL p text = None) /\
      due_date r = None
  | Raises _ => False
  end.
Proof.
  intros Hp Hr.
  destruct (extractor_fields dateutil_parse text f ps r Hp Hr)
    as (x & sp & dd & ad & _ & _ & Ed & _ & _ & _ & Fd & _).
  rewrite Ed. destruct dd as [[p w]|].
  - destruct (find_first_piece _ _ _ _ Ed) as [P S].
    destruct (find_first_capture _ _ _ _ Ed) as (m & F & K).
    split; [|split; [exact P|split; [exact S|]]].
    + destruct K as [[G _]|[_ (g & G1 & E)]].
      * exfalso. destruct F as (pre & post & Eps & _ & Sm).
        pose proof (due_patterns_grouped dateutil_parse f ps Hp) as B.
        rewrite Forall_forall in B.
        assert (I : In p (due_patterns ps)) by (rewrite Eps; apply in_or_app; right; now left).
        rewrite (has_groups_ngroups _ _ _ _ Sm) in G.
        apply negb_false_iff, Nat.eqb_eq in G. exact (B p I G).
      * now exists m, g.
    + rewrite Fd. unfold date_of, try_parse_date. cbn [snd].
      destruct (dateutil_parse w) as [dt|e]; [|reflexivity].
      rewrite isoformat_digits. split; [reflexivity|].
      rewrite <- isoformat_digits. apply isoformat_shape.
  - split; [|rewrite Fd; reflexivity].
    now apply find_first_none.
Qed.

Lemma due_date_is_parsed_piece_witness :
  match find_first_regex sample_hsbc hsbc_due with
  | Returns (Some (p, w)) =>
      (exists m g, first_match sample_hsbc hsbc_due p m /\
                   m_group m 1 = Some g /\ w = strip g) /\
      piece w sample_hsbc /\ strip w = w /\
      match sample_parse w with
      | Returns dt =>
          Some (lit "2024-03-05") =
            Some (iso_digits (year (dt_date dt)) (month (dt_date dt)) (day (dt_date dt))) /\
          iso_shape (iso_digits (year (dt_date dt)) (month (dt_date dt)) (day (dt_date dt)))
      | Raises _ => Some (lit "2024-03-05") = None
      end
  | Returns None =>
      (forall p, In p hsbc_due -> search IGNORECASE_DOTALL p sample_hsbc = None) /\
      Some (lit "2024-03-05") = None
  | Raises _ => False
  end.
Proof.
  apply (due_date_is_parsed_piece sample_parse sample_hsbc (parse_hsbc sample_parse)
           {| variant_patterns := hsbc_variant; period_patterns := hsbc_period;
              due_patterns := hsbc_due; amount_patterns := hsbc_amount |}
           {| issuer := lit "HSBC"; last4 := None; card_variant := Some (lit "Premier");
              statement_period := Some (lit "01 Feb 2024 - 29 Feb 2024");
              due_date := Some (lit "2024-03-05"); amount_due := Some (lit "1,234.56") |}).
  - simpl. auto 10.
  - lazy. reflexivity.
Defined.

(** The statement period, when present, is a piece of the text with its
    white space normalised, and normalising it again changes nothing. *)
Theorem statement_period_is_normalised
  (dateutil_parse : str -> outcome datetime) (text : str)
  (f : str -> outcome FieldRecord) (r : FieldRecord) (v : str) :
  In f (extractors dateutil_parse) -> f text = Returns r -> statement_period r = Some v ->
  normalize_spaces v = v /\ exists w, piece w text /\ v = normalize_spaces w.
Proof.
  intros Hf Hr Hv.
  destruct (extractor_profile dateutil_parse f Hf) as [ps Hp].
  destruct (extractor_fields dateutil_parse text f ps r Hp Hr)
    as (x & sp & dd & ad & _ & Es & _ & _ & _ & Fs & _ & _).
  rewrite Fs in Hv. destruct sp as [[p w]|]; [|discriminate].
  simpl in Hv. injection Hv as <-.
  split; [apply normalize_spaces_twice|].
  exists w. split; [|reflexivity]. exact (proj1 (find_first_piece _ _ _ _ Es)).
Qed.

Lemma statement_period_is_normalised_witness :
  normalize_spaces (lit "01 Feb 2024 - 29 Feb 2024") = lit "01 Feb 2024 - 29 Feb 2024" /\
  exists w, piece w sample_hsbc /\ lit "01 Feb 2024 - 29 Feb 2024" = normalize_spaces w.
Proof.
  apply (statement_period_is_normalised sample_parse sample_hsbc (parse_hsbc sample_parse)
           {| issuer := lit "HSBC"; last4 := None; card_variant := Some (lit "Premier");
              statement_period := Some (lit "01 Feb 2024 - 29 Feb 2024");
              due_date := Some (lit "2024-03-05"); amount_due := Some (lit "1,234.56") |}).
  - simpl. auto 10.
  - lazy. reflexivity.
  - reflexivity.
Defined.

(** The amount of the five issuer extractors, when present, is a run of
    commas, decimal digits and full stops that stands in the text and is
    not empty: no currency sign, no white space, no letter. *)
Theorem amount_due_is_a_run_of_amount_characters
  (dateutil_parse : str -> outcome datetime) (text : str)
  (f : str -> outcome FieldRecord) (r : FieldRecord) (v : str) :
  In f (issuer_extractors dateutil_parse) -> f text = Returns r -> amount_due r = Some v ->
  v <> [] /\ piece v text /\
  Forall (fun c => c = 0x2C%N \/ isdecimal c = true \/ c = 0x2E%N) v.
Proof.
  intros Hf Hr Hv.
  destruct (amount_group_bodies dateutil_parse f Hf) as (ps & Hp & B).
  destruct (extractor_fields dateutil_parse text f ps r Hp Hr)
    as (x & sp & dd & ad & _ & _ & _ & Ea & _ & _ & _ & Fa).
  rewrite Fa in Hv. apply second_of_some in Hv. destruct Hv as [p ->].
  destruct (find_first_piece _ _ _ _ Ea) as [P _].
  apply find_first_some in Ea.
  rewrite Forall_forall in B.
  destruct Ea as (m & I & S & [[G _]|[_ (g & G1 & E)]]).
  - destruct (B p I) as [_ N]. rewrite (has_groups_ngroups _ _ _ _ S) in G.
    apply negb_false_iff, Nat.eqb_eq in G. contradiction.
  - destruct (B p I) as [Bp _].
    destruct (search_group_produced _ _ _ _ 0 _ S G1)
      as (body & s' & s'' & g' & g'' & H1 & _ & H3 & Hg).
    rewrite Bp in H1. destruct H1 as [<-|[]].
    apply run_inv in H3. destruct H3 as (u & Eu & Hne & Fu). simpl in Eu.
    assert (Eg : g = u) by (rewrite Hg, Eu; apply consumed_app).
    assert (Es : strip u = u).
    { apply strip_id.
      - intros c t ->. simpl in Fu. apply andb_prop in Fu.
        now apply amount_char_not_space with (fl := IGNORECASE_DOTALL).
      - intros c t ->. rewrite forallb_app in Fu. apply andb_prop in Fu.
        destruct Fu as [_ Fu]. simpl in Fu. apply andb_prop in Fu.
        now apply amount_char_not_space with (fl := IGNORECASE_DOTALL). }
    rewrite E, Eg, Es in *. split; [exact Hne|]. split; [exact P|].
    apply Forall_forall. intros c Hc.
    rewrite forallb_forall in Fu. specialize (Fu c Hc).
    rewrite set_match_amount in Fu.
    apply orb_prop in Fu. destruct Fu as [Fu|Fu]; [apply orb_prop in Fu; destruct Fu as [Fu|Fu]|].
    + left. now apply N.eqb_eq.
    + right. now left.
    + right. right. now apply N.eqb_eq.
Qed.

Lemma amount_due_is_a_run_of_amount_characters_witness :
  lit "1,234.56" <> [] /\ piece (lit "1,234.56") sample_hsbc /\
  Forall (fun c => c = 0x2C%N \/ isdecimal c = true \/ c = 0x2E%N) (lit "1,234.56").
Proof.
  apply (amount_due_is_a_run_of_amount_characters sample_parse sample_hsbc
           (parse_hsbc sample_parse)
           {| issuer := lit "HSBC"; last4 := None; card_variant := Some (lit "Premier");
              statement_period := Some (lit "01 Feb 2024 - 29 Feb 2024");
              due_date := Some (lit "2024-03-05"); amount_due := Some (lit "1,234.56") |}).
  - simpl. auto 10.
  - lazy. reflexivity.
  - reflexivity.
Defined.

(** ** The classifier's keywords, the pages, the last four digits *)

Lemma contains_head (a b s : str) : contains (a ++ b) s = true -> contains a s = true.
Proof.
  rewrite !contains_spec. intros [pre [post H]].
  exists pre, (b ++ post). rewrite H. now rewrite <- !app_assoc.
Qed.

Lemma orb_absorb (x y : bool) : (y = true -> x = true) -> x || y = x.
Proof. destruct x, y; auto. intros H. symmetry. now apply H. Qed.

(** Two of the classifier's keywords decide nothing: a text with "chase
    cardmember" has "chase", a text with "citibank" has "citi".
    [detect_issuer] is the classifier with the rules American Express
    ("american express", "amex"), Chase ("chase"), Citi ("citi"), Bank of
    America ("bank of america", "bofa"), HSBC ("hsbc"), in this order. *)
Theorem detect_issuer_redundant_keywords (text : str) :
  detect_issuer text = first_rule issuer_rules_short (lower text).
Proof.
  unfold detect_issuer, issuer_rules_short. cbn [first_rule existsb].
  rewrite !orb_false_r.
  assert (E1 : contains (lit "chase") (lower text) || contains (lit "chase cardmember") (lower text)
               = contains (lit "chase") (lower text)).
  { apply orb_absorb. apply (contains_head (lit "chase") (lit " cardmember")). }
  assert (E2 : contains (lit "citibank") (lower text) || contains (lit "citi") (lower text)
               = contains (lit "citi") (lower text)).
  { rewrite orb_comm. apply orb_absorb. apply (contains_head (lit "citi") (lit "bank")). }
  rewrite E1, E2. reflexivity.
Qed.

Lemma join_empty (sep : str) (parts : list str) :
  Forall (fun p => p <> []) parts -> join sep parts = [] -> parts = [].
Proof.
  destruct parts as [|p [|q rest]]; [reflexivity| |]; intros F E; exfalso;
    inversion F as [|? ? Hp _]; subst; apply Hp.
  - exact E.
  - simpl in E. now apply app_eq_nil in E.
Qed.

(** The text of a document that opens is empty exactly when every page is
    without text: its extraction raises, or returns [None] or the empty
    text. *)
Theorem extracted_text_empty_iff_pages_textless
  (pdf_pages : bytes -> outcome (list (outcome (option str))))
  (pdf_bytes : bytes) (pages : list (outcome (option str))) :
  pdf_pages pdf_bytes = Returns pages ->
  (extract_text_from_pdf_bytes pdf_pages pdf_bytes = Returns [] <->
   forallb textless pages = true).
Proof.
  intros H. unfold extract_text_from_pdf_bytes. rewrite H. cbn [bind].
  assert (F : Forall (fun p => p <> []) (filter nonempty (map page_text pages))).
  { apply Forall_forall. intros p Hp. apply filter_In in Hp. destruct Hp as [_ Hp].
    destruct p; [discriminate|discriminate]. }
  split.
  - intros [= E]. apply join_empty in E; [|exact F].
    clear F H. induction pages as [|pg pages IH]; [reflexivity|].
    cbn [map filter] in E. cbn [forallb]. unfold textless at 1.
    destruct (nonempty (page_text pg)); [discriminate|]. cbn [negb andb]. exact (IH E).
  - intros T. f_equal.
    replace (filter nonempty (map page_text pages)) with (@nil str); [reflexivity|].
    clear F H. induction pages as [|pg pages IH]; [reflexivity|].
    cbn [forallb] in T. apply andb_prop in T. destruct T as [T1 T2].
    unfold textless in T1. apply negb_true_iff in T1. cbn [map filter]. rewrite T1. exact (IH T2).
Qed.

Lemma extracted_text_empty_iff_pages_textless_witness :
  extract_text_from_pdf_bytes sample_pages [] = Returns [] <->
  forallb textless [Raises (OtherError "PDFSyntaxError"); Returns None; Returns (Some [])] = true.
Proof.
  apply (extracted_text_empty_iff_pages_textless sample_pages []). reflexivity.
Defined.

Lemma last4_patterns_set_group (dateutil_parse : str -> outcome datetime)
      (f : str -> outcome FieldRecord) (a b : regex) :
  In (f, (a, b)) (last4_searches dateutil_parse) ->
  sets_group 1 a = true /\ sets_group 1 b = true /\
  forall text r, f text = Returns r -> last4 r = group1_of (search_or a b text).
Proof.
  unfold last4_searches. simpl.
  intros [E|[E|[E|[E|[]]]]]; injection E as <- <- <-;
    (split; [reflexivity|split; [reflexivity|]]); intros text r Hr;
    [unfold parse_chase in Hr|unfold parse_citi in Hr|unfold parse_bofa in Hr
    |unfold parse_hsbc in Hr];
    run_binds Hr; injection Hr as <-; reflexivity.
Qed.

(** In the Chase, Citi, Bank of America and HSBC extractors the first of
    the two last-four searches that matches decides: [last4] is group 1 of
    the first pattern's match when it matches, else group 1 of the second
    pattern's match, and it is absent exactly when neither pattern matches
    anywhere in the text. *)
Theorem last4_first_alternative_wins
  (dateutil_parse : str -> outcome datetime) (text : str)
  (f : str -> outcome FieldRecord) (a b : regex) (r : FieldRecord) :
  In (f, (a, b)) (last4_searches dateutil_parse) -> f text = Returns r ->
  match search IGNORECASE a text, search IGNORECASE b text with
  | Some m, _ => last4 r = m_group m 1 /\ last4 r <> None
  | None, Some m => last4 r = m_group m 1 /\ last4 r <> None
  | None, None => last4 r = None
  end.
Proof.
  intros Hf Hr.
  destruct (last4_patterns_set_group dateutil_parse f a b Hf) as (Sa & Sb & L).
  rewrite (L text r Hr). unfold search_or, group1_of.
  destruct (search IGNORECASE a text) as [m|] eqn:Ea.
  - destruct (search_sets_group1 _ _ _ _ Sa Ea) as [v ->]. split; [reflexivity|discriminate].
  - destruct (search IGNORECASE b text) as [m|] eqn:Eb; [|reflexivity].
    destruct (search_sets_group1 _ _ _ _ Sb Eb) as [v ->]. split; [reflexivity|discriminate].
Qed.

Lemma last4_first_alternative_wins_witness :
  match search IGNORECASE citi_last4_card (lit "Card Member since 2019 Card ending in 1234"),
        search IGNORECASE citi_last4_any (lit "Card Member since 2019 Card ending in 1234") with
  | Some m, _ => Some (lit "1234") = m_group m 1 /\ Some (lit "1234") <> None
  | None, Some m => Some (lit "1234") = m_group m 1 /\ Some (lit "1234") <> None
  | None, None => Some (lit "1234") = None
  end.
Proof.
  apply (last4_first_alternative_wins sample_parse (lit "Card Member since 2019 Card ending in 1234")
           (parse_citi sample_parse) citi_last4_card citi_last4_any
           {| issuer := lit "Citi"; last4 := Some (lit "1234"); card_variant := None;
              statement_period := None; due_date := None; amount_due := None |}).
  - simpl. auto 10.
  - lazy. reflexivity.
Defined.

(** ** The generic extractor returns labels *)

Lemma lower_lookup_miss (r : N * N) (c : N) :
  (fst r <=? c)%N && (c <=? snd r)%N = true ->
  forall runs, runs_miss runs r = true -> lower_lookup runs c = c.
Proof.
  intros Hc. apply andb_prop in Hc. destruct Hc as [H1 H2].
  apply N.leb_le in H1, H2.
  induction runs as [|[[[lo hi] step] tlo] runs IH]; intros M; [reflexivity|].
  cbn [runs_miss forallb] in M. apply andb_prop in M. destruct M as [M1 M2].
  cbn [lower_lookup].
  replace ((lo <=? c)%N && (c <=? hi)%N) with false; [now apply IH|].
  symmetry. apply orb_prop in M1. destruct M1 as [M1|M1]; apply N.ltb_lt in M1.
  - apply andb_false_iff. right. apply N.leb_gt. lia.
  - apply andb_false_iff. left. apply N.leb_gt. lia.
Qed.

(** White space has no lower case of its own. *)
Lemma tolower_space (c : char) : isspace c = true -> tolower c = c.
Proof.
  unfold isspace, in_ranges, tolower. intros H.
  apply existsb_exists in H. destruct H as (r & I & B).
  apply (lower_lookup_miss r c B).
  assert (F : forallb (runs_miss lower_runs) space_ranges = true) by (vm_compute; reflexivity).
  rewrite forallb_forall in F. now apply F.
Qed.

(** Under [IGNORECASE] a cased literal of a pattern matches no white
    space. *)
Lemma cased_literal_no_space (a : ascii) (x : N) :
  iscased (N_of_ascii a) = true ->
  In x (tolower (N_of_ascii a) :: extra_cases (tolower (N_of_ascii a))) ->
  isspace x = false.
Proof.
  intros Hc Hx.
  assert (F : forallb (fun y => negb (isspace y))
                (tolower (N_of_ascii a) :: extra_cases (tolower (N_of_ascii a))) = true).
  { revert Hc. clear Hx.
    destruct a as [[] [] [] [] [] [] [] []]; vm_compute; intros H;
      first [reflexivity|discriminate H]. }
  rewrite forallb_forall in F. specialize (F x Hx). now apply negb_true_iff in F.
Qed.

Lemma literal_not_space (fl : flags) (a : ascii) (c : char) :
  literal_match fl a c = true -> isspace (N_of_ascii a) = false -> isspace c = false.
Proof.
  unfold literal_match. intros H Ha.
  destruct (ignorecase fl && iscased (N_of_ascii a)) eqn:E.
  - apply andb_prop in E. destruct E as [_ Ec].
    destruct (isspace c) eqn:Hs; [|reflexivity].
    rewrite (tolower_space c Hs) in H.
    apply existsb_exists in H. destruct H as (x & Hx & Ex). apply N.eqb_eq in Ex. subst x.
    rewrite (cased_literal_no_space a c Ec Hx) in Hs. discriminate.
  - apply N.eqb_eq in H. now subst c.
Qed.

Lemma istarts_firstn (fl : flags) (l : list ascii) :
  forall s, istarts fl l s = true ->
    istarts fl l (firstn (List.length l) s) = true /\
    List.length (firstn (List.length l) s) = List.length l.
Proof.
  induction l as [|a l IH]; intros s H; [split; reflexivity|].
  destruct s as [|c s]; [discriminate|].
  simpl in H. apply andb_prop in H. destruct H as [H1 H2].
  destruct (IH s H2) as [E1 E2]. simpl. rewrite H1, E1, E2. split; reflexivity.
Qed.

Lemma consumed_skipn (n : nat) (s : str) :
  n <= List.length s -> consumed s (skipn n s) = firstn n s.
Proof.
  intros H. unfold consumed. rewrite length_skipn. f_equal. lia.
Qed.

Lemma istarts_last (fl : flags) (a : ascii) (c : char) :
  forall l v, List.length v = List.length l ->
    istarts fl (l ++ [a]) (v ++ [c]) = true -> literal_match fl a c = true.
Proof.
  induction l as [|b l IH]; intros v L H.
  - destruct v; [|discriminate]. simpl in H. now apply andb_prop in H.
  - destruct v as [|d v]; [discriminate|]. simpl in L. injection L as L.
    simpl in H. apply andb_prop in H. destruct H as [_ H]. now apply (IH v).
Qed.

(** A text that is such a word up to letter case has no white space at
    either end. *)
Lemma is_word_of_strip (fl : flags) (w : string) (v : str) :
  is_word_of fl w v = true -> word_ends_ok (list_ascii_of_string w) = true -> strip v = v.
Proof.
  unfold is_word_of, starts_at. rewrite <- string_length_list.
  generalize (list_ascii_of_string w). intros l0 H K.
  apply andb_prop in H. destruct H as [H L]. apply Nat.eqb_eq in L.
  destruct l0 as [|a l]; [discriminate|].
  cbn [word_ends_ok] in K. apply andb_prop in K. destruct K as [K1 K2].
  apply negb_true_iff in K1, K2.
  apply strip_id.
  - intros c v' ->. simpl in H. apply andb_prop in H. destruct H as [H _].
    exact (literal_not_space fl a c H K1).
  - intros c v' ->.
    destruct (exists_last (l := a :: l)) as (l0 & a0 & E0); [discriminate|].
    assert (La : List.last (a :: l) a = a0) by (rewrite E0; apply last_last).
    rewrite La in K2. rewrite E0 in H, L.
    rewrite !length_app in L. simpl in L.
    apply (literal_not_space fl a0 c); [|exact K2].
    apply (istarts_last fl a0 c l0 v'); [lia|exact H].
Qed.

(** The ways an alternation of words matches: one of the words stands at
    the head of the text. *)
Lemma alt_words_inv (fl : flags) (g : groups) (st : state) (s : str) :
  forall ws w0, In st (matches fl (alt (map word (w0 :: ws))) s g) ->
    exists w, In w (w0 :: ws) /\ starts_at fl w s = true /\
              fst st = skipn (String.length w) s.
Proof.
  induction ws as [|w1 ws IH]; intros w0 H.
  - cbn [map alt] in H. rewrite word_match in H.
    destruct (starts_at fl w0 s) eqn:E; [|destruct H].
    destruct H as [<-|[]]. exists w0. simpl. auto.
  - change (alt (map word (w0 :: w1 :: ws)))
      with (Alt (word w0) (alt (map word (w1 :: ws)))) in H.
    cbn [matches] in H. apply in_app_or in H. destruct H as [H|H].
    + rewrite word_match in H.
      destruct (starts_at fl w0 s) eqn:E; [|destruct H].
      destruct H as [<-|[]]. exists w0. simpl. auto.
    + destruct (IH w1 H) as (w & I & S & F). exists w. split; [now right|auto].
Qed.

Lemma istarts_length (fl : flags) (l : list ascii) :
  forall s, istarts fl l s = true -> List.length l <= List.length s.
Proof.
  induction l as [|a l IH]; intros s H; simpl; [lia|].
  destruct s as [|c s]; [discriminate|].
  simpl in H. apply andb_prop in H. destruct H as [_ H]. apply IH in H. simpl. lia.
Qed.

(** Group 1 of a pattern whose group 1 is an alternation of words holds one
    of the words, as the text writes it. *)
Lemma label_group_value (fl : flags) (p : regex) (w0 : string) (ws : list string)
      (text : str) (m : Match) (g : str) :
  group_bodies 1 p = [alt (map word (w0 :: ws))] ->
  search fl p text = Some m -> m_group m 1 = Some g ->
  exists label, In label (w0 :: ws) /\ is_word_of fl label g = true /\ piece g text.
Proof.
  intros B S G.
  pose proof (search_group_piece fl p text m 1 g S G) as P.
  destruct (search_group_produced fl p text m 0 g S G)
    as (body & s' & s'' & g' & g'' & H1 & _ & H3 & ->).
  rewrite B in H1. destruct H1 as [<-|[]].
  apply alt_words_inv in H3. destruct H3 as (w & I & St & F). simpl in F. subst s''.
  exists w. split; [exact I|]. split; [|exact P].
  unfold starts_at in St. pose proof (istarts_length fl _ s' St) as L.
  rewrite string_length_list in L.
  rewrite consumed_skipn by exact L.
  destruct (istarts_firstn fl _ s' St) as [E1 E2].
  rewrite string_length_list in E1, E2.
  unfold is_word_of, starts_at. rewrite E1, E2, Nat.eqb_refl. reflexivity.
Qed.

Lemma labels_ends_ok :
  forallb (fun w => word_ends_ok (list_ascii_of_string w))
          (generic_amount_labels ++ generic_due_labels) = true.
Proof. vm_compute. reflexivity. Qed.

(** In the generic extractor the amount and the due date come from the
    label, not from the value after it: [amount_due], when present, is one
    of the labels "Total Amount Due", "Amount Due", "New Balance" and
    "Current Balance" as the text writes it, and [due_date], when present,
    is what the date parser reads in the label "Payment Due Date" or "Due
    Date" alone.  (The patterns have two groups, the label in group 1 and
    the value in group 2, and [find_first_regex] returns group 1.) *)
Theorem generic_amount_and_due_date_are_labels
  (dateutil_parse : str -> outcome datetime) (text : str) (r : FieldRecord) :
  parse_generic dateutil_parse text = Returns r ->
  (forall v, amount_due r = Some v ->
     exists label, In label generic_amount_labels /\
       is_word_of IGNORECASE_DOTALL label v = true /\ piece v text) /\
  (forall v, due_date r = Some v ->
     exists label w dt, In label generic_due_labels /\
       is_word_of IGNORECASE_DOTALL label w = true /\ piece w text /\
       dateutil_parse w = Returns dt /\ v = isoformat (dt_date dt)).
Proof.
  intros Hr.
  assert (Hp : In (parse_generic dateutil_parse,
                   {| variant_patterns := generic_variant; period_patterns := generic_period;
                      due_patterns := generic_due; amount_patterns := generic_amount |})
                  (profiles dateutil_parse)) by (unfold profiles; simpl; auto 10).
  destruct (extractor_fields dateutil_parse text _ _ r Hp Hr)
    as (x & sp & dd & ad & _ & _ & Ed & Ea & _ & _ & Fd & Fa).
  cbn [due_patterns amount_patterns] in Ed, Ea.
  pose proof labels_ends_ok as K. rewrite forallb_forall in K.
  split.
  - intros v Hv. rewrite Fa in Hv. apply second_of_some in Hv. destruct Hv as [p ->].
    apply find_first_some in Ea.
    destruct Ea as (m & I & S & [[G _]|[_ (g & G1 & ->)]]).
    + destruct I as [<-|[]]. rewrite (has_groups_ngroups _ _ _ _ S) in G. discriminate.
    + destruct I as [<-|[]].
      assert (X : exists label, In label generic_amount_labels /\
                    is_word_of IGNORECASE_DOTALL label g = true /\ piece g text).
      { match type of S with
        | search _ ?p _ = _ =>
            exact (label_group_value IGNORECASE_DOTALL p "Total Amount Due"
                     ["Amount Due"; "New Balance"; "Current Balance"]%string
                     text m g eq_refl S G1)
        end. }
      destruct X as (label & Il & W & P).
      assert (Es : strip g = g).
      { apply (is_word_of_strip IGNORECASE_DOTALL label g W). apply K.
        apply in_or_app. now left. }
      rewrite Es. now exists label.
  - intros v Hv. rewrite Fd in Hv. destruct dd as [[p w]|]; [|discriminate].
    unfold date_of, try_parse_date in Hv. cbn [snd] in Hv.
    destruct (dateutil_parse w) as [dt|e] eqn:D; [|discriminate].
    injection Hv as <-.
    apply find_first_some in Ed.
    destruct Ed as (m & I & S & [[G _]|[_ (g & G1 & ->)]]).
    + destruct I as [<-|[]]. rewrite (has_groups_ngroups _ _ _ _ S) in G. discriminate.
    + destruct I as [<-|[]].
      assert (X : exists label, In label generic_due_labels /\
                    is_word_of IGNORECASE_DOTALL label g = true /\ piece g text).
      { match type of S with
        | search _ ?p _ = _ =>
            exact (label_group_value IGNORECASE_DOTALL p "Payment Due Date"
                     ["Due Date"]%string text m g eq_refl S G1)
        end. }
      destruct X as (label & Il & W & P).
      assert (Es : strip g = g).
      { apply (is_word_of_strip IGNORECASE_DOTALL label g W). apply K.
        apply in_or_app. now right. }
      rewrite Es in D. now exists label, g, dt.
Qed.

Lemma generic_amount_and_due_date_are_labels_witness :
  (forall v, Some (lit "Amount Due") = Some v ->
     exists label, In label generic_amount_labels /\
       is_word_of IGNORECASE_DOTALL label v = true /\ piece v scenario_c) /\
  (forall v, @None str = Some v ->
     exists label w dt, In label generic_due_labels /\
       is_word_of IGNORECASE_DOTALL label w = true /\ piece w scenario_c /\
       sample_parse w = Returns dt /\ v = isoformat (dt_date dt)).
Proof.
  apply (generic_amount_and_due_date_are_labels sample_parse scenario_c
           {| issuer := lit "Unknown"; last4 := None;
              card_variant := Some (lit "Rewards Due Date"); statement_period := None;
              due_date := None; amount_due := Some (lit "Amount Due") |}).
  lazy. reflexivity.
Defined.

(** ** The first American Express search, and patterns that never decide *)

Lemma greedy_run_some (p : char -> bool) (s : str) (g : groups) :
  exists st rest, greedy_run p 0 s g = st :: rest /\ snd st = g.
Proof.
  destruct (greedy_run p 0 s g) as [|st rest] eqn:E.
  - exfalso. destruct s as [|c s]; cbn [greedy_run Nat.eqb] in E; [discriminate|].
    apply app_eq_nil in E. destruct E as [_ E]. discriminate.
  - exists st, rest. split; [reflexivity|].
    assert (I : In st (greedy_run p 0 s g)) by (rewrite E; now left).
    apply greedy_run_inv in I. now destruct I as (_ & _ & _ & _ & G).
Qed.

(** The record of [parse_amex], with where [last4] comes from. *)
Lemma parse_amex_last4 (dateutil_parse : str -> outcome datetime) (text : str) :
  exists r, parse_amex dateutil_parse text = Returns r /\
    last4 r = match search_or amex_last4_card amex_last4_any text with
              | Some m => if has_groups m then m_group m 1 else None
              | None => None
              end.
Proof.
  unfold parse_amex.
  repeat match goal with
         | |- context [find_first_regex text ?ps] =>
             let v := fresh "v" in let E := fresh "E" in
             destruct (find_first_returns text ps eq_refl) as [v E]; rewrite E;
             cbn [bind]
         end.
  eexists. split; reflexivity.
Qed.

(** When the first "Card Member since" of the text, in any letter case,
    comes before any "Card ending in", [parse_amex] finds no last four
    digits, whatever follows: the first search matches its alternative
    [Card Member since.*], which has no group, and the second search is not
    tried. *)
Theorem amex_last4_absent_after_member_since
  (dateutil_parse : str -> outcome datetime) (P W Q : str) :
  is_word_of IGNORECASE "Card Member since" W = true ->
  starts_in IGNORECASE "Card Member since" P (W ++ Q) = false ->
  starts_in IGNORECASE "Card ending in" P (W ++ Q) = false ->
  exists r, parse_amex dateutil_parse (P ++ W ++ Q) = Returns r /\ last4 r = None.
Proof.
  intros HW H1 H2.
  unfold is_word_of in HW. apply andb_prop in HW. destruct HW as [HW LW].
  apply Nat.eqb_eq in LW.
  set (s := W ++ Q) in *.
  destruct (parse_amex_last4 dateutil_parse (P ++ s)) as (r & Hr & L).
  exists r. split; [exact Hr|]. rewrite L. clear L Hr.
  set (A := cat (chars "Card Member since" ++ [star AnyChar])).
  set (B := cat (chars "Card ending in" ++ [star_lazy (InSet label_seps); Group 1 four_digits])).
  assert (EP : amex_last4_card = Alt A B) by reflexivity.
  assert (MA : exists st rest, matches IGNORECASE A s (repeat None 1) = st :: rest /\
                               snd st = repeat None 1).
  { unfold A, s.
    rewrite (matches_word_here IGNORECASE "Card Member since" [star AnyChar]
               W Q (repeat None 1) HW LW).
    cbn [cat fold_right star matches].
    change (matches IGNORECASE AnyChar) with (one (any_match IGNORECASE)).
    rewrite until_greedy_one by (simpl; auto; lia).
    destruct (greedy_run_some (any_match IGNORECASE) Q (repeat None 1)) as (st & rest & E & G).
    rewrite E. cbn [flat_map app]. exists (fst st, snd st). eexists. split; [reflexivity|exact G]. }
  destruct MA as (st & rest & MA & G).
  assert (S : search IGNORECASE amex_last4_card (P ++ s) =
              Some {| m_start := List.length P; m_group0 := consumed s (fst st);
                      m_groups := snd st |}).
  { rewrite EP. apply (search_after IGNORECASE (Alt A B) P s st
                         (rest ++ matches IGNORECASE B s (repeat None 1))).
    - intros A1 A2 E' Hne. rewrite matches_Alt. unfold A, B.
      rewrite (word_nomatch IGNORECASE _ _ P s _ H1 A1 A2 E' Hne).
      rewrite (word_nomatch IGNORECASE _ _ P s _ H2 A1 A2 E' Hne). reflexivity.
    - rewrite matches_Alt. change (ngroups (Alt A B)) with 1. rewrite MA. reflexivity. }
  unfold search_or. rewrite S. unfold has_groups, m_group. cbn [m_groups].
  rewrite G. reflexivity.
Qed.

Lemma amex_last4_absent_after_member_since_witness :
  exists r, parse_amex sample_parse
              (lit "American Express " ++ lit "CARD MEMBER SINCE" ++ lit " 2019 Card ending in 1234")
              = Returns r /\ last4 r = None.
Proof.
  apply (amex_last4_absent_after_member_since sample_parse (lit "American Express ")
           (lit "CARD MEMBER SINCE") (lit " 2019 Card ending in 1234"));
    vm_compute; reflexivity.
Defined.

(** [re.search] finds nothing exactly when the pattern matches at no
    position of the text. *)
Lemma search_from_none (fl : flags) (r : regex) :
  forall s k, search_from fl r k s = None ->
    forall w s0, s = w ++ s0 -> matches fl r s0 (repeat None (ngroups r)) = [].
Proof.
  induction s as [|c s IH]; intros k H w s0 E; cbn [search_from] in H.
  - symmetry in E. apply app_eq_nil in E. destruct E as [_ ->].
    destruct (matches fl r [] (repeat None (ngroups r))); [reflexivity|discriminate].
  - destruct (matches fl r (c :: s) (repeat None (ngroups r))) eqn:M; [|discriminate].
    destruct w as [|x w]; simpl in E.
    + now subst s0.
    + injection E as _ E. now apply (IH (S k) H w).
Qed.

(** A pattern that cannot match unless an earlier pattern of the list
    matches somewhere never decides: the list without it gives the same
    result. *)
Lemma find_first_skip (text : str) (p : regex) (post : list regex) :
  forall pre,
    (search IGNORECASE_DOTALL p text <> None ->
     exists q, In q pre /\ search IGNORECASE_DOTALL q text <> None) ->
    find_first_regex text (pre ++ p :: post) = find_first_regex text (pre ++ post).
Proof.
  induction pre as [|q pre IH]; intros H; cbn [app find_first_regex].
  - destruct (search IGNORECASE_DOTALL p text) as [m|]; [|reflexivity].
    destruct H as (q & [] & _). discriminate.
  - destruct (search IGNORECASE_DOTALL q text) as [m|] eqn:E; [reflexivity|].
    apply IH. intros Hp. destruct (H Hp) as (q' & [<-|I] & N); [congruence|].
    now exists q'.
Qed.

Lemma list_ascii_app (w0 w1 : string) :
  list_ascii_of_string (w0 ++ w1) = list_ascii_of_string w0 ++ list_ascii_of_string w1.
Proof. induction w0 as [|a w0 IH]; simpl; [reflexivity|now rewrite IH]. Qed.

(** A pattern that starts with the word [w0 ++ w1] matches only where the
    same pattern without [w0] matches [w0] further on. *)
Lemma longer_label_subsumed (fl : flags) (w0 w1 : string) (rs : list regex) (text : str) :
  ngroups (cat (chars (w0 ++ w1) ++ rs)) = ngroups (cat (chars w1 ++ rs)) ->
  search fl (cat (chars (w0 ++ w1) ++ rs)) text <> None ->
  search fl (cat (chars w1 ++ rs)) text <> None.
Proof.
  intros N H1 H2.
  destruct (search fl (cat (chars (w0 ++ w1) ++ rs)) text) as [m|] eqn:S; [|congruence].
  clear H1. apply search_from_inv in S.
  destruct S as (w & s0 & st & rest & -> & M & _).
  unfold search in H2.
  pose proof (search_from_none fl _ _ _ H2) as Z.
  rewrite N in M.
  unfold chars in M. rewrite list_ascii_app, map_app, <- app_assoc in M.
  rewrite matches_literals in M.
  destruct (istarts fl (list_ascii_of_string w0) s0) eqn:I; [|discriminate].
  assert (E : w ++ s0 = (w ++ firstn (List.length (list_ascii_of_string w0)) s0)
                        ++ skipn (List.length (list_ascii_of_string w0)) s0).
  { now rewrite <- app_assoc, firstn_skipn. }
  specialize (Z _ _ E). unfold chars in Z. rewrite Z in M. discriminate.
Qed.

(** Three patterns of the program never decide, because an earlier pattern
    of the same list matches wherever they do: in [parse_amex] and in
    [parse_hsbc] the due-date pattern "Payment Due Date..." comes after
    "Due Date...", and in [parse_amex] the amount pattern "Total Amount
    Due..." comes after "Amount Due...".  Without them [find_first_regex]
    returns the same. *)
Theorem later_labels_never_decide (text : str) :
  find_first_regex text amex_due = find_first_regex text (firstn 1 amex_due) /\
  find_first_regex text hsbc_due = find_first_regex text (firstn 1 hsbc_due) /\
  find_first_regex text amex_amount =
    find_first_regex text (firstn 1 amex_amount ++ skipn 2 amex_amount).
Proof.
  set (due := [star (InSet label_seps); Group 1 (cat [plus (InSet date_chars)])]).
  set (amount := [star (InSet label_seps); opt (Literal "$");
                  Group 1 (cat [plus (InSet amount_chars)])]).
  assert (D : search IGNORECASE_DOTALL (cat (chars "Payment Due Date" ++ due)) text <> None ->
              exists q, In q [cat (chars "Due Date" ++ due)] /\
                        search IGNORECASE_DOTALL q text <> None).
  { intros H. eexists. split; [now left|].
    exact (longer_label_subsumed IGNORECASE_DOTALL "Payment " "Due Date" due text eq_refl H). }
  assert (A : search IGNORECASE_DOTALL (cat (chars "Total Amount Due" ++ amount)) text <> None ->
              exists q, In q [cat (chars "Amount Due" ++ amount)] /\
                        search IGNORECASE_DOTALL q text <> None).
  { intros H. eexists. split; [now left|].
    exact (longer_label_subsumed IGNORECASE_DOTALL "Total " "Amount Due" amount text eq_refl H). }
  split; [|split].
  - exact (find_first_skip text _ [] [cat (chars "Due Date" ++ due)] D).
  - exact (find_first_skip text _ [] [cat (chars "Due Date" ++ due)] D).
  - exact (find_first_skip text _ [cat (chars "New Balance" ++ amount)]
             [cat (chars "Amount Due" ++ amount)] A).
Qed.

(** ** Normalised text *)

Lemma collapse_tight (s : str) : forall b, tight b s = true -> collapse b s = s.
Proof.
  induction s as [|c s IH]; intros b H; [reflexivity|].
  cbn [tight collapse] in *. destruct (isspace c).
  - apply andb_prop in H. destruct H as [H H3]. apply andb_prop in H. destruct H as [H1 H2].
    apply negb_true_iff in H1. apply N.eqb_eq in H2. subst b c. now rewrite IH.
  - now rewrite IH.
Qed.

Lemma tight_collapse (s : str) : forall b, tight b (collapse b s) = true.
Proof.
  induction s as [|c s IH]; intros b; [reflexivity|].
  cbn [collapse]. destruct (isspace c) eqn:Hc.
  - destruct b; [apply IH|].
    cbn [tight]. rewrite space_is_space. cbn [negb andb]. rewrite N.eqb_refl. apply IH.
  - cbn [tight]. rewrite Hc. apply IH.
Qed.

Lemma tight_weaken (s : str) : tight true s = true -> tight false s = true.
Proof.
  destruct s as [|c s]; [reflexivity|]. cbn [tight].
  destruct (isspace c); [discriminate|auto].
Qed.

Lemma tight_app (x y : str) :
  forall b, tight b (x ++ y) = true -> tight b x = true /\ tight false y = true.
Proof.
  induction x as [|c x IH]; intros b H.
  - split; [reflexivity|]. destruct b; [now apply tight_weaken|exact H].
  - cbn [app tight] in *. destruct (isspace c).
    + apply andb_prop in H. destruct H as [H1 H2].
      destruct (IH true H2) as [A B]. rewrite H1, A. auto.
    + now apply IH.
Qed.

Lemma tight_piece (w T : str) : piece w T -> tight false T = true -> tight false w = true.
Proof.
  intros (pre & post & ->) H.
  apply tight_app in H. destruct H as [_ H]. now apply tight_app in H.
Qed.

(** A normalised text has white space only as single spaces. *)
Lemma normalize_spaces_tight (s : str) : tight false (normalize_spaces s) = true.
Proof.
  unfold normalize_spaces. rewrite sub_whitespace_run.
  apply (tight_piece _ (collapse false s)); [apply strip_piece|apply tight_collapse].
Qed.

(** Normalising changes nothing in a text that has white space only as
    single spaces, and none at either end. *)
Lemma normalize_spaces_fixed (v : str) :
  tight false v = true -> strip v = v -> normalize_spaces v = v.
Proof.
  intros T S. unfold normalize_spaces. rewrite sub_whitespace_run.
  now rewrite collapse_tight.
Qed.

Lemma parser_for_extractor (dateutil_parse : str -> outcome datetime) (name : str) :
  In (parser_for dateutil_parse name) (extractors dateutil_parse).
Proof.
  unfold parser_for, extractors.
  repeat match goal with
         | |- context [if ?b then _ else _] => destruct b
         end; simpl; auto 10.
Qed.

(** In [parse_statement] the statement period is copied from the
    normalised text: it stands in it, with no white space at either end.
    The pattern's [\s] cannot read more than single spaces there, and the
    second [normalize_spaces], on the captured piece, changes nothing. *)
Theorem statement_period_is_verbatim
  (dateutil_parse : str -> outcome datetime) (text : str) (st : Statement) (v : str) :
  parse_text dateutil_parse text = Returns st ->
  statement_period (fields st) = Some v ->
  piece v (normalize_spaces text) /\ strip v = v.
Proof.
  unfold parse_text. cbv zeta. set (T := normalize_spaces text).
  intros H Hv.
  pose proof (parser_for_extractor dateutil_parse (detect_issuer T)) as Hf.
  destruct (parser_for dateutil_parse (detect_issuer T) T) as [r|e] eqn:Hr; [|discriminate].
  cbn [bind] in H. injection H as <-. cbn [fields] in Hv.
  destruct (extractor_profile dateutil_parse _ Hf) as [ps Hp].
  destruct (extractor_fields dateutil_parse T _ ps r Hp Hr)
    as (x & sp & dd & ad & _ & Es & _ & _ & _ & Fs & _ & _).
  rewrite Fs in Hv. destruct sp as [[p w]|]; [|discriminate].
  simpl in Hv. injection Hv as <-.
  destruct (find_first_piece _ _ _ _ Es) as [P S].
  assert (N : normalize_spaces w = w).
  { apply normalize_spaces_fixed; [|exact S].
    apply (tight_piece w T P). apply normalize_spaces_tight. }
  rewrite N. now split.
Qed.

Lemma statement_period_is_verbatim_witness :
  piece (lit "01 Feb 2024 - 29 Feb 2024") (normalize_spaces sample_hsbc) /\
  strip (lit "01 Feb 2024 - 29 Feb 2024") = lit "01 Feb 2024 - 29 Feb 2024".
Proof.
  apply (statement_period_is_verbatim sample_parse sample_hsbc
           {| fields := {| issuer := lit "HSBC"; last4 := None;
                           card_variant := Some (lit "Premier");
                           statement_period := Some (lit "01 Feb 2024 - 29 Feb 2024");
                           due_date := Some (lit "2024-03-05");
                           amount_due := Some (lit "1,234.56") |};
              raw_sample_snippet := sample_hsbc |}).
  - lazy. reflexivity.
  - reflexivity.
Defined.

Lemma split_ws_blank (s : str) : split_ws [] s = [] <-> forallb isspace s = true.
Proof.
  induction s as [|c s IH]; simpl; [tauto|].
  destruct (isspace c) eqn:Hc; simpl.
  - exact IH.
  - split; [|discriminate]. intros H. exfalso.
    apply (split_ws_nonempty s [c]); [discriminate|exact H].
Qed.

(** [normalize_spaces] keeps the words of the text, in their order, and
    returns the empty text exactly when the text is white space only. *)
Theorem normalize_spaces_keeps_words (s : str) :
  words (normalize_spaces s) = words s /\
  (normalize_spaces s = [] <-> forallb isspace s = true).
Proof.
  assert (W : Forall is_word (words s)) by (apply split_ws_words; constructor).
  rewrite normalize_spaces_words. split; [now apply words_join|].
  rewrite <- split_ws_blank. fold (words s). split.
  - intros E. apply (join_empty [0x20%N]); [|exact E].
    apply Forall_forall. intros w Hw. rewrite Forall_forall in W. now destruct (W w Hw).
  - intros ->. reflexivity.
Qed.

(** Scenario B for a text of white space only: the record is the one of the
    empty text, issuer "Unknown", the five fields absent, an empty
    snippet. *)
Theorem blank_text_gives_unknown_record
  (dateutil_parse : str -> outcome datetime) (text : str) :
  forallb isspace text = true ->
  parse_text dateutil_parse text =
  Returns {| fields := unknown_record; raw_sample_snippet := [] |}.
Proof.
  intros H. unfold parse_text. cbv zeta.
  assert (E : normalize_spaces text = []).
  { rewrite normalize_spaces_words. apply split_ws_blank in H. unfold words. now rewrite H. }
  rewrite E. vm_compute. reflexivity.
Qed.

Lemma blank_text_gives_unknown_record_witness :
  parse_text sample_parse [0x20; 0xA; 0xA; 0x9; 0x20]%N =
  Returns {| fields := unknown_record; raw_sample_snippet := [] |}.
Proof.
  apply blank_text_gives_unknown_record. vm_compute. reflexivity.
Defined.

(** ** The record depends on the words of the pages only *)

Lemma split_ws_app_space (x y : str) (c : char) :
  isspace c = true ->
  forall cur, split_ws cur (x ++ c :: y) = split_ws cur x ++ split_ws [] y.
Proof.
  intros Hc. induction x as [|d x IH]; intros cur.
  - cbn [app split_ws]. rewrite Hc. destruct (nonempty cur); reflexivity.
  - cbn [app split_ws]. destruct (isspace d).
    + destruct (nonempty cur); [cbn [app]; f_equal|]; apply IH.
    + apply IH.
Qed.

Lemma words_app_space (x y : str) (c : char) :
  isspace c = true -> words (x ++ c :: y) = words x ++ words y.
Proof. intros Hc. apply (split_ws_app_space x y c Hc). Qed.

(** The words of the non-empty texts joined by two line feeds are the words
    of the texts, one text after the other. *)
Lemma words_join_pages (texts : list str) :
  words (join [0xA; 0xA]%N (filter nonempty texts)) = flat_map words texts.
Proof.
  induction texts as [|t texts IH]; [reflexivity|].
  cbn [filter flat_map]. destruct t as [|c t]; [exact IH|].
  cbn [nonempty]. remember (c :: t) as x eqn:Ex.
  destruct (filter nonempty texts) as [|u us] eqn:F.
  - cbn [join]. simpl in IH. rewrite <- IH. now rewrite app_nil_r.
  - rewrite join_cons by discriminate.
    change (x ++ [0xA; 0xA]%N ++ join [0xA; 0xA]%N (u :: us))
      with (x ++ 0xA%N :: ([0xA%N] ++ join [0xA; 0xA]%N (u :: us))).
    rewrite words_app_space by (vm_compute; reflexivity).
    f_equal. rewrite <- IH.
    change ([0xA%N] ++ join [0xA; 0xA]%N (u :: us))
      with ([] ++ 0xA%N :: join [0xA; 0xA]%N (u :: us)).
    rewrite words_app_space by (vm_compute; reflexivity). reflexivity.
Qed.

Lemma parse_text_words (dateutil_parse : str -> outcome datetime) (a b : str) :
  words a = words b -> parse_text dateutil_parse a = parse_text dateutil_parse b.
Proof.
  intros H. unfold parse_text. now rewrite (normalize_spaces_words a), (normalize_spaces_words b), H.
Qed.

(** The statement depends on the text only through its words: two texts
    with the same words in the same order, whatever white space stands
    between them (spaces, tabs, line breaks), give the same statement. *)
Theorem statement_depends_on_words
  (dateutil_parse : str -> outcome datetime) (a b : str) :
  words a = words b -> parse_text dateutil_parse a = parse_text dateutil_parse b.
Proof. apply parse_text_words. Qed.

Lemma statement_depends_on_words_witness :
  parse_text sample_parse (lit "Amount Due:" ++ [0xA; 0x9]%N ++ lit "$5.00") =
  parse_text sample_parse (lit "  Amount Due: $5.00 ").
Proof.
  apply statement_depends_on_words. vm_compute. reflexivity.
Defined.

(** For [parse_statement] a page break is white space and a page without
    text is nothing: when the document opens, the statement is the one of
    the words of the pages, page after page, written with single spaces. *)
Theorem statement_of_pages_is_statement_of_words
  (dateutil_parse : str -> outcome datetime)
  (pdf_pages : bytes -> outcome (list (outcome (option str))))
  (pdf_bytes : bytes) (pages : list (outcome (option str))) :
  pdf_pages pdf_bytes = Returns pages ->
  parse_statement dateutil_parse pdf_pages pdf_bytes =
  parse_text dateutil_parse
    (join [0x20%N] (flat_map (fun page => words (page_text page)) pages)).
Proof.
  intros H. unfold parse_statement, extract_text_from_pdf_bytes. rewrite H. cbn [bind].
  apply parse_text_words.
  rewrite words_join_pages, flat_map_concat_map, map_map, <- flat_map_concat_map.
  symmetry. apply words_join.
  apply Forall_forall. intros w Hw. apply in_flat_map in Hw. destruct Hw as (pg & _ & Hw).
  assert (W : Forall is_word (words (page_text pg))) by (apply split_ws_words; constructor).
  rewrite Forall_forall in W. now apply W.
Qed.

Lemma statement_of_pages_is_statement_of_words_witness :
  parse_statement sample_parse two_pages [] =
  parse_text sample_parse
    (join [0x20%N]
       (flat_map (fun page => words (page_text page))
          [Returns (Some (lit "HSBC Premier Card Due")); Raises (OtherError "PDFSyntaxError");
           Returns (Some (lit "Date: March 5, 2024 Total Amount Due: $1,234.56"))])).
Proof.
  apply (statement_of_pages_is_statement_of_words sample_parse two_pages []). reflexivity.
Defined.

(** ** Scenario A, by leftmost matches *)

Lemma matches_before_split (fl : flags) (r : regex) (P rest : str) :
  matches_before fl r P rest = false ->
  forall A1 A2, P = A1 ++ A2 -> A2 <> [] ->
    matches fl r (A2 ++ rest) (repeat None (ngroups r)) = [].
Proof.
  revert P. induction P as [|c P IH]; intros H A1 A2 E Hne.
  - destruct A1, A2; try discriminate. congruence.
  - cbn [matches_before] in H.
    destruct (matches fl r ((c :: P) ++ rest) (repeat None (ngroups r))) eqn:M; [|discriminate].
    destruct A1 as [|a A1]; simpl in E.
    + subst A2. exact M.
    + injection E as _ E. now apply (IH H A1 A2).
Qed.

(** The first pattern of a list decides when it matches at [s] with its
    one group set, and nowhere before. *)
Lemma find_first_leftmost (ps : list regex) (p : regex) (P s : str) (z v : str)
      (rest : list state) :
  List.hd Eps ps = p -> ps <> [] ->
  matches_before IGNORECASE_DOTALL p P s = false ->
  matches IGNORECASE_DOTALL p s (repeat None (ngroups p)) = (z, [Some v]) :: rest ->
  find_first_regex (P ++ s) ps = Returns (Some (p, strip v)).
Proof.
  intros Hp Hne B M. destruct ps as [|q ps]; [congruence|]. simpl in Hp. subst q.
  apply find_first_head with
    (m := {| m_start := List.length P; m_group0 := consumed s z; m_groups := [Some v] |});
    [|reflexivity].
  exact (search_after IGNORECASE_DOTALL p P s (z, [Some v]) rest
           (matches_before_split IGNORECASE_DOTALL p P s B) M).
Qed.

Lemma amex_last4_here (Q : str) :
  exists rest,
    matches IGNORECASE amex_last4_card (lit "Card ending in: 1234" ++ Q)
            (repeat None (ngroups amex_last4_card)) = (Q, [Some (lit "1234")]) :: rest.
Proof.
  set (s := lit "Card ending in: 1234" ++ Q).
  set (A := cat (chars "Card Member since" ++ [star AnyChar])).
  set (B := cat (chars "Card ending in" ++ [star_lazy (InSet label_seps); Group 1 four_digits])).
  change amex_last4_card with (Alt A B). change (ngroups (Alt A B)) with 1.
  pose proof (labelled_digits_match IGNORECASE "Card ending in" label_seps
                (lit "Card ending in") (lit ": ") 0x31%N 0x32%N 0x33%N 0x34%N Q (repeat None 1)
                ltac:(by_eval) ltac:(by_eval) ltac:(by_eval) ltac:(by_eval)
                ltac:(by_eval) ltac:(by_eval) ltac:(by_eval) ltac:(by_eval))
    as [rest E].
  change (lit "Card ending in" ++ lit ": " ++ [0x31%N; 0x32%N; 0x33%N; 0x34%N] ++ Q) with s in E.
  fold B in E.
  assert (EA : matches IGNORECASE A s (repeat None 1) = []).
  { unfold A. rewrite matches_word. reflexivity. }
  rewrite matches_Alt, EA, E. now exists rest.
Qed.

Lemma amex_variant_here (Q : str) :
  exists rest,
    matches IGNORECASE_DOTALL (List.hd Eps amex_variant) (lit "Platinum Card" ++ Q)
            (repeat None (ngroups (List.hd Eps amex_variant)))
    = (Q, [Some (lit "Platinum")]) :: rest.
Proof.
  exact (first_word_card_match IGNORECASE_DOTALL "Platinum" "Gold"
           ["Green"; "Centurion"; "Blue"; "Everyday"; "Cashback"; "Corporate"]%string
           (lit "Platinum") (lit " ") (lit "Card") Q (repeat None 1)
           ltac:(by_eval) ltac:(by_eval) ltac:(by_eval) ltac:(discriminate)
           ltac:(by_eval) ltac:(by_eval) ltac:(by_eval)).
Qed.

Lemma amex_due_here (R Z : str) :
  forallb (set_match IGNORECASE_DOTALL date_chars) R = true ->
  head_outside (set_match IGNORECASE_DOTALL date_chars) Z ->
  exists rest,
    matches IGNORECASE_DOTALL (List.hd Eps amex_due) (lit "Due Date: March 5, 2024" ++ R ++ Z)
            (repeat None (ngroups (List.hd Eps amex_due)))
    = (Z, [Some (lit "March 5, 2024" ++ R)]) :: rest.
Proof.
  intros HR HZ. set (u := lit "March 5, 2024" ++ R).
  assert (Hu : forallb (set_match IGNORECASE_DOTALL date_chars) u = true).
  { unfold u. rewrite forallb_app, HR. reflexivity. }
  assert (Hne : u <> []) by (unfold u; vm_compute; discriminate).
  exact (labelled_run_match IGNORECASE_DOTALL "Due Date" label_seps date_chars
           (lit "Due Date") (lit ": ") u Z (repeat None 1)
           ltac:(by_eval) ltac:(by_eval) ltac:(by_eval) ltac:(by_eval) Hu Hne HZ).
Qed.

Lemma amex_amount_here (Q : str) :
  head_outside (set_match IGNORECASE_DOTALL amount_chars) Q ->
  exists rest,
    matches IGNORECASE_DOTALL (List.hd Eps amex_amount) (lit "Amount Due: $523.10" ++ Q)
            (repeat None (ngroups (List.hd Eps amex_amount)))
    = (Q, [Some (lit "523.10")]) :: rest.
Proof.
  intros HQ.
  exact (labelled_amount_match IGNORECASE_DOTALL "Amount Due" label_seps amount_chars
           (lit "Amount Due") (lit ": ") (lit "523.10") Q (repeat None 1)
           ltac:(by_eval) ltac:(by_eval) ltac:(by_eval) ltac:(by_eval) ltac:(by_eval)
           ltac:(discriminate) HQ).
Qed.

(** C2 (amended). Let [T] be the input text with its white space
    normalised, and let the lower-cased [T] hold "american express".  Let
    each phrase stand in [T] where the first pattern of its field matches for
    the first time: "Card ending in: 1234" with no match of the first
    last-four pattern before it, "Platinum Card" with no match of the first
    variant pattern before it, "Due Date: March 5, 2024" with no match of the
    first due-date pattern before it, "Amount Due: $523.10" with no match of
    the first amount pattern before it and no comma, digit or full stop
    right after it.  Let [R] be what follows the date up to the first
    character outside [[A-Za-z0-9 ,\-]], and let the date parser read "March
    5, 2024" followed by [R], stripped, as 5 March 2024.  Then the pipeline
    returns the record with issuer "American Express", last4 "1234",
    card_variant "Platinum", due_date "2024-03-05" and amount_due
    "523.10". *)
Theorem amex_scenario_leftmost
  (dateutil_parse : str -> outcome datetime) (raw : str)
  (P1 Q1 P2 Q2 P3 R Z P4 Q4 : str) (dt : datetime) :
  let T := normalize_spaces raw in
  contains (lit "american express") (lower T) = true ->
  T = P1 ++ lit "Card ending in: 1234" ++ Q1 ->
  matches_before IGNORECASE amex_last4_card P1 (lit "Card ending in: 1234" ++ Q1) = false ->
  T = P2 ++ lit "Platinum Card" ++ Q2 ->
  matches_before IGNORECASE_DOTALL (List.hd Eps amex_variant) P2 (lit "Platinum Card" ++ Q2)
    = false ->
  T = P3 ++ lit "Due Date: March 5, 2024" ++ R ++ Z ->
  matches_before IGNORECASE_DOTALL (List.hd Eps amex_due) P3
                 (lit "Due Date: March 5, 2024" ++ R ++ Z) = false ->
  forallb (set_match IGNORECASE_DOTALL date_chars) R = true ->
  head_outside (set_match IGNORECASE_DOTALL date_chars) Z ->
  dateutil_parse (strip (lit "March 5, 2024" ++ R)) = Returns dt ->
  year (dt_date dt) = 2024%N -> month (dt_date dt) = 3%N -> day (dt_date dt) = 5%N ->
  T = P4 ++ lit "Amount Due: $523.10" ++ Q4 ->
  matches_before IGNORECASE_DOTALL (List.hd Eps amex_amount) P4 (lit "Amount Due: $523.10" ++ Q4)
    = false ->
  head_outside (set_match IGNORECASE_DOTALL amount_chars) Q4 ->
  exists period,
    parse_text dateutil_parse raw =
    Returns {| fields := {| issuer := lit "American Express"; last4 := Some (lit "1234");
                            card_variant := Some (lit "Platinum");
                            statement_period := period;
                            due_date := Some (lit "2024-03-05");
                            amount_due := Some (lit "523.10") |};
               raw_sample_snippet := slice_to 1200 T |}.
Proof.
  intros T Hc E1 B1 E2 B2 E3 B3 D2 D3 Hp Hy Hm Hd E4 B4 M2.
  destruct (amex_last4_here Q1) as [r1 M1].
  pose proof (search_after IGNORECASE amex_last4_card P1 _ _ r1
                (matches_before_split IGNORECASE amex_last4_card P1 _ B1) M1) as Sm.
  destruct (amex_variant_here Q2) as [r2 Mv].
  pose proof (find_first_leftmost amex_variant _ P2 _ _ _ r2 eq_refl
                ltac:(discriminate) B2 Mv) as Fv.
  destruct (amex_due_here R Z D2 D3) as [r3 Md].
  pose proof (find_first_leftmost amex_due _ P3 _ _ _ r3 eq_refl
                ltac:(discriminate) B3 Md) as Fd.
  destruct (amex_amount_here Q4 M2) as [r4 Ma].
  pose proof (find_first_leftmost amex_amount _ P4 _ _ _ r4 eq_refl
                ltac:(discriminate) B4 Ma) as Fa.
  rewrite <- E1 in Sm. rewrite <- E2 in Fv. rewrite <- E3 in Fd. rewrite <- E4 in Fa.
  pose proof (find_first_returns T amex_period ltac:(by_eval)) as [sp Fp].
  assert (DI : detect_issuer T = lit "American Express").
  { unfold detect_issuer. rewrite Hc. reflexivity. }
  exists (period_of sp).
  unfold parse_text. cbv zeta. fold T. rewrite DI.
  change (parser_for dateutil_parse (lit "American Express")) with (parse_amex dateutil_parse).
  unfold parse_amex. cbv zeta. unfold search_or. rewrite Sm, Fv, Fp, Fd, Fa.
  cbn [bind has_groups m_group m_groups nth second_of date_of option_map snd].
  unfold try_parse_date. rewrite Hp.
  rewrite (isoformat_march_5 _ Hy Hm Hd). reflexivity.
Qed.

Lemma amex_scenario_leftmost_witness :
  exists period,
    parse_text sample_parse scenario_a =
    Returns {| fields := {| issuer := lit "American Express"; last4 := Some (lit "1234");
                            card_variant := Some (lit "Platinum");
                            statement_period := period;
                            due_date := Some (lit "2024-03-05");
                            amount_due := Some (lit "523.10") |};
               raw_sample_snippet := slice_to 1200 (normalize_spaces scenario_a) |}.
Proof.
  apply (amex_scenario_leftmost sample_parse scenario_a
           (lit "American Express ")
           (lit " Platinum Card Payment Due Date: March 5, 2024 Total Amount Due: $523.10")
           (lit "American Express Card ending in: 1234 ")
           (lit " Payment Due Date: March 5, 2024 Total Amount Due: $523.10")
           (lit "American Express Card ending in: 1234 Platinum Card Payment ")
           (lit " Total Amount Due") (lit ": $523.10")
           (lit "American Express Card ending in: 1234 Platinum Card Payment Due Date: March 5, 2024 Total ")
           [] march_5_2024);
    first [exact I | lazy; reflexivity].
Defined.
